(** * bitread: decoding a Series-7 bitstream into its list of high bits

    A shallow embedding of [bitread.py] (BFAT project) and the properties
    of its word reader, packet scanner, frame-address builder and
    configuration-frame decoder.

    The opened bitstream is a byte sequence with a cursor; every function
    that reads from it is a computation in a state-and-error monad over
    that cursor.  Python integers are [Z], a word is the Python list of
    its 32 bits (least significant first), strings are [string]. *)

From Stdlib Require Import ZArith List Strings.String Strings.Ascii Strings.Byte Bool Lia Arith.
From Stdlib Require Import Sorting.Sorted Sorting.Permutation.
From Stdlib Require DecimalString DecimalNat.
Import ListNotations.

Local Open Scope Z_scope.

(** ** Failures

    The script has no error classes of its own; each way it can stop is
    one constructor here. *)

Inductive error : Type :=
| TruncatedStream        (* ord(bitfile.read(1)) at end of file: TypeError *)
| UnrecognizedFormat     (* raise Exception('Unrecognized bitstream format') *)
| IndexError             (* subscript out of range *)
| ValueError             (* int() of a non-numeral *)
| FamilyUnbound          (* UnboundLocalError: family was never assigned *)
| FileNotFound           (* open() of a missing part.json *)
| UnsupportedDevice      (* "ERROR: Only Series-7 parts are supported by BFAT"; exit() *)
| MalformedPacket        (* "ERROR: Config packet length must be multiple of frame length"; exit() *)
| IncompletePacket.      (* "ERROR: Config packet not fully parsed."; exit() *)

Inductive result (A : Type) : Type :=
| Ok (a : A)
| Err (e : error).
Arguments Ok {A} a.
Arguments Err {A} e.

Definition rbind {A B} (r : result A) (k : A -> result B) : result B :=
  match r with
  | Ok a => k a
  | Err e => Err e
  end.

(** ** The opened file *)

Record bitfile : Type := mkfile { data : list byte; pos : nat }.

(** Computations that read the file: the cursor is threaded, an exception
    abandons it. *)
Definition io (A : Type) : Type := bitfile -> result (A * bitfile).

Definition ret {A} (a : A) : io A := fun f => Ok (a, f).
Definition raise {A} (e : error) : io A := fun _ => Err e.
Definition bind {A B} (m : io A) (k : A -> io B) : io B :=
  fun f => match m f with
           | Ok (a, f') => k a f'
           | Err e => Err e
           end.
Definition lift {A} (r : result A) : io A :=
  fun f => match r with Ok a => Ok (a, f) | Err e => Err e end.

Declare Scope io_scope.
Delimit Scope io_scope with io.
Notation "x <- m ;; k" := (bind m (fun x => k))
  (at level 61, m at next level, right associativity) : io_scope.
Notation "m ;;; k" := (bind m (fun _ => k))
  (at level 61, right associativity) : io_scope.
Local Open Scope io_scope.

(** [bitfile.read(1)]: the next byte, or the empty bytes object at the end
    of the file (the cursor stays). *)
Definition read1 : io (list byte) :=
  fun f => match nth_error (data f) (pos f) with
           | Some b => Ok ([b], mkfile (data f) (S (pos f)))
           | None => Ok ([], f)
           end.

(** [bitfile.seek(-1, 1)] *)
Definition seek_back1 : io unit :=
  fun f => Ok (tt, mkfile (data f) (pos f - 1)).

(** [ord(b)]: defined on a bytes object of length one only. *)
Definition ord (b : list byte) : result Z :=
  match b with
  | [x] => Ok (Z.of_N (Byte.to_N x))
  | _ => Err TruncatedStream
  end.

Definition read_ord : io Z := b <- read1 ;; lift (ord b).

(** ** Helper functions *)

(** [[(byte >> i) & 1 for i in range(8)]] *)
Definition byte_bits (byte : Z) : list Z :=
  map (fun i => Z.land (Z.shiftr byte (Z.of_nat i)) 1) (seq 0 8).

Fixpoint read_ords (n : nat) : io (list Z) :=
  match n with
  | O => ret []
  | S k => b <- read_ord ;; rest <- read_ords k ;; ret (b :: rest)
  end.

Definition parse_word : io (list Z) :=
  word_ints <- read_ords 4 ;;
  ret (flat_map byte_bits (rev word_ints)).

(** [enumerate(l)] *)
Definition enumerate {A} (l : list A) : list (nat * A) :=
  combine (seq 0 (List.length l)) l.

Definition bits_to_int (binary : list Z) : Z :=
  fold_left (fun int_value '(i, bit) => int_value + bit * 2 ^ Z.of_nat i)
            (enumerate binary) 0.

(** [sum([b<<i for i, b in enumerate(l)])] *)
Definition sum_shifted (l : list Z) : Z :=
  fold_left Z.add (map (fun '(i, b) => Z.shiftl b (Z.of_nat i)) (enumerate l)) 0.

(** [l[a:b]] for [0 <= a <= b] *)
Definition slice {A} (a b : nat) (l : list A) : list A := skipn a (firstn b l).

(** [l[-n:]] *)
Definition last_n {A} (n : nat) (l : list A) : list A :=
  skipn (List.length l - n) l.

Definition list_Z_eqb (a b : list Z) : bool :=
  if list_eq_dec Z.eq_dec a b then true else false.

(** [chr(n)] for a byte value *)
Definition chr (n : Z) : ascii := ascii_of_N (Z.to_N n).

Fixpoint read_chars (n : nat) : io string :=
  match n with
  | O => ret EmptyString
  | S k => curr_byte <- read_ord ;; rest <- read_chars k ;;
           ret (String (chr curr_byte) rest)
  end.

Definition read_bytes_ascii : io string :=
  b0 <- read_ord ;;
  b1 <- read_ord ;;
  let read_len_bits := flat_map byte_bits (rev [b0; b1]) in
  let read_len := bits_to_int read_len_bits in
  read_chars (Z.to_nat read_len).

(** [s[:-1]] *)
Fixpoint drop_last (s : string) : string :=
  match s with
  | EmptyString => EmptyString
  | String c rest =>
      match rest with
      | EmptyString => EmptyString
      | _ => String c (drop_last rest)
      end
  end.

(** ** Locating the configuration packet *)

Definition SYNC_WORD : Z := 2862175590.

(** The two [while] loops of [find_config_packet] are bounded by a count
    of iterations; [OutOfFuel] marks a bound that was too small and is
    not a behaviour of the script. *)
Inductive loop (A : Type) : Type :=
| Done (a : A)
| OutOfFuel.
Arguments Done {A} a.
Arguments OutOfFuel {A}.

(** One turn of [while not sync_word_found]; [true] when the word read at
    a 0xAA byte is the sync word. *)
Definition sync_step : io bool :=
  byte <- read1 ;;
  b <- lift (ord byte) ;;
  if b =? 170 then
    seek_back1 ;;;
    w <- parse_word ;;
    ret (bits_to_int w =? SYNC_WORD)
  else ret false.

Fixpoint sync_search (fuel : nat) : io (loop unit) :=
  match fuel with
  | O => ret OutOfFuel
  | S k => sync_word_found <- sync_step ;;
           if sync_word_found then ret (Done tt) else sync_search k
  end.

Definition is_type1 (word : list Z) : bool := list_Z_eqb (last_n 3 word) [1; 0; 0].
Definition is_type2 (word : list Z) : bool := list_Z_eqb (last_n 3 word) [0; 1; 0].

Definition packet_1_length (word : list Z) : Z := sum_shifted (firstn 11 word).
Definition packet_1_addr (word : list Z) : Z := sum_shifted (slice 13 27 word).
Definition packet_1_opcode (word : list Z) : Z := sum_shifted (slice 27 29 word).
Definition packet_2_length (word : list Z) : Z := sum_shifted (firstn 27 word).

Fixpoint read_words (n : nat) : io (list (list Z)) :=
  match n with
  | O => ret []
  | S k => w <- parse_word ;; rest <- read_words k ;; ret (w :: rest)
  end.

(** What one turn of [while not in_config_data] leaves behind: the
    payload length when the loop is left, else the new value of
    [type_2_fdri_write]. *)
Inductive scan_outcome : Type :=
| InConfigData (packet_2_length : Z)
| KeepScanning (type_2_fdri_write : bool).

Definition scan_step (type_2_fdri_write : bool) : io scan_outcome :=
  word <- parse_word ;;
  if is_type2 word && type_2_fdri_write then
    ret (InConfigData (packet_2_length word))
  else if is_type1 word then
    read_words (Z.to_nat (packet_1_length word)) ;;;
    ret (KeepScanning ((packet_1_opcode word =? 2) && (packet_1_addr word =? 2)
                       && (packet_1_length word =? 0)))
  else ret (KeepScanning false).

Fixpoint scan_packets (fuel : nat) (type_2_fdri_write : bool) : io (loop Z) :=
  match fuel with
  | O => ret OutOfFuel
  | S k => o <- scan_step type_2_fdri_write ;;
           match o with
           | InConfigData len => ret (Done len)
           | KeepScanning flag => scan_packets k flag
           end
  end.

(** The header fields up to the part name. *)
Definition read_part_name : io string :=
  read_bytes_ascii ;;;
  a_char <- read_bytes_ascii ;;
  if negb (a_char =? "a")%string then raise UnrecognizedFormat else
  read_bytes_ascii ;;;
  read1 ;;;
  field <- read_bytes_ascii ;;
  let part_name := drop_last field in
  match part_name with
  | EmptyString => raise IndexError
  | String c _ =>
      if (c =? "7")%char then ret ("xc" ++ part_name ++ "-1")%string
      else ret part_name
  end.

(** Bytes left between the cursor and the end of the file. *)
Definition remaining (f : bitfile) : nat := (List.length (data f) - pos f)%nat.

(** Every turn of either loop reads at least one byte or raises, so the
    number of bytes left bounds the number of turns. *)
Definition find_config_packet_fuel (fuel : nat) : io (loop (string * Z)) :=
  part_name <- read_part_name ;;
  s <- sync_search fuel ;;
  match s with
  | OutOfFuel => ret OutOfFuel
  | Done _ =>
      p <- scan_packets fuel false ;;
      match p with
      | OutOfFuel => ret OutOfFuel
      | Done len => ret (Done (part_name, len))
      end
  end.

Definition find_config_packet : io (loop (string * Z)) :=
  fun f => find_config_packet_fuel (S (remaining f)) f.

(** ** Decoding the configuration frames *)

(** A frame of the frame list: the Python list
    [[frame_addr_hex, curr_addr.copy()]]. *)
Definition frame : Type := (string * list Z)%type.

Definition FRAME_LENGTH : nat := 101.

(** [str(n)] for a natural number *)
Definition py_str (n : nat) : string :=
  DecimalString.NilZero.string_of_uint (Nat.to_uint n).

(** [s.rjust(width, fill)] *)
Definition rjust (width : nat) (fill : ascii) (s : string) : string :=
  (string_of_list_ascii (repeat fill (width - String.length s)) ++ s)%string.

(** [f'bit_{frame[0]}_{word_offset_str}_{bit_offset_str}'] *)
Definition bit_name (frame_hex : string) (word_offset bit_offset : nat) : string :=
  ("bit_" ++ frame_hex ++ "_" ++ rjust 3 "0" (py_str word_offset)
          ++ "_" ++ rjust 2 "0" (py_str bit_offset))%string.

Definition in_clock_row_bits (word_offset bit_offset : nat) : bool :=
  (word_offset =? 50)%nat && (bit_offset <=? 12)%nat.

(** The names appended to [bits] by the loop over the bits of one word. *)
Definition word_high_bits (fr : frame) (word_offset : nat) (word : list Z)
  : list string :=
  flat_map (fun '(bit_offset, bit) =>
              if (bit =? 1) && negb (in_clock_row_bits word_offset bit_offset)
              then [bit_name (fst fr) word_offset bit_offset]
              else [])
           (enumerate word).

(** The loop state of [parse_config_packet]: [frames_remaining] and
    [bits]. *)
Definition decode_state : Type := (Z * list string)%type.

(** [for i in range(n): parse_word(bitfile)] *)
Fixpoint skip_words (n : nat) : io unit :=
  match n with
  | O => ret tt
  | S k => parse_word ;;; skip_words k
  end.

(** The row-change test and the skip of two frames' worth of words. *)
Definition row_changed (prev_frame fr : frame) : bool :=
  negb (list_Z_eqb (slice 17 23 (snd prev_frame)) (slice 17 23 (snd fr))).

Definition skip_row_boundary (prev_frame fr : frame) (st : decode_state)
  : io decode_state :=
  if row_changed prev_frame fr then
    let frames_remaining := fst st - Z.of_nat (FRAME_LENGTH * 2) in
    skip_words (FRAME_LENGTH * 2) ;;;
    ret (frames_remaining, snd st)
  else ret st.

(** [for word_offset in range(FRAME_LENGTH)], from the offsets still to
    come. *)
Fixpoint frame_words (offsets : list nat) (fr : frame) (st : decode_state)
  : io decode_state :=
  match offsets with
  | [] => ret st
  | word_offset :: rest =>
      let frames_remaining := fst st - 1 in
      word <- parse_word ;;
      frame_words rest fr
        (frames_remaining, snd st ++ word_high_bits fr word_offset word)
  end.

(** One turn of [for frame in frames]. *)
Definition decode_frame (prev_frame fr : frame) (st : decode_state)
  : io decode_state :=
  st1 <- skip_row_boundary prev_frame fr st ;;
  frame_words (seq 0 FRAME_LENGTH) fr st1.

Fixpoint walk_frames (frames : list frame) (prev_frame : frame)
  (st : decode_state) : io decode_state :=
  match frames with
  | [] => ret st
  | fr :: rest =>
      st' <- decode_frame prev_frame fr st ;;
      walk_frames rest fr st'
  end.

Definition parse_config_packet (config_packet_length : Z) (frames : list frame)
  : io (list string) :=
  if negb (config_packet_length mod Z.of_nat FRAME_LENGTH =? 0) then
    raise MalformedPacket
  else
    match frames with
    | [] => raise IndexError
    | frame0 :: _ =>
        st <- walk_frames frames frame0 (config_packet_length, []) ;;
        if negb (fst st =? 2 * Z.of_nat FRAME_LENGTH) then raise IncompletePacket
        else ret (snd st)
    end.

(** ** Text helpers used on the lines of part.json *)

(** [sub in s] *)
Fixpoint contains (sub s : string) : bool :=
  prefix sub s ||
  match s with
  | EmptyString => false
  | String _ rest => contains sub rest
  end.

(** [s.split(sep)] for a one-character separator *)
Fixpoint split_on (sep : ascii) (s : string) : list string :=
  match s with
  | EmptyString => [EmptyString]
  | String c rest =>
      if (c =? sep)%char then EmptyString :: split_on sep rest
      else match split_on sep rest with
           | [] => [String c EmptyString]
           | piece :: pieces => String c piece :: pieces
           end
  end.

(** [l[1::2]] *)
Fixpoint odd_items {A} (l : list A) : list A :=
  match l with
  | _ :: x :: rest => x :: odd_items rest
  | _ => []
  end.

(** The characters [str.strip()] and [str.split()] treat as white
    space, among the code points below 256. *)
Definition is_space (c : ascii) : bool :=
  let n := N_of_ascii c in
  ((9 <=? n) && (n <=? 13) || (28 <=? n) && (n <=? 32)
   || (n =? 133) || (n =? 160))%N.

Fixpoint lstrip_space (s : string) : string :=
  match s with
  | EmptyString => EmptyString
  | String c rest => if is_space c then lstrip_space rest else s
  end.

Fixpoint rstrip_space (s : string) : string :=
  match s with
  | EmptyString => EmptyString
  | String c rest =>
      match rstrip_space rest with
      | EmptyString => if is_space c then EmptyString else String c EmptyString
      | rest' => String c rest'
      end
  end.

(** [s.strip()] *)
Definition strip (s : string) : string := rstrip_space (lstrip_space s).

Definition is_digit (c : ascii) : bool :=
  let n := N_of_ascii c in ((48 <=? n) && (n <=? 57))%N.

Definition digit_value (c : ascii) : Z := Z.of_N (N_of_ascii c) - 48.

(** Decimal digits, single underscores allowed between two digits. *)
Fixpoint int_digits (s : string) (acc : Z) (after_digit : bool) : option Z :=
  match s with
  | EmptyString => if after_digit then Some acc else None
  | String c rest =>
      if is_digit c then int_digits rest (10 * acc + digit_value c) true
      else if (c =? "_")%char && after_digit then int_digits rest acc false
      else None
  end.

(** The characters [int()] skips around a numeral: tab to carriage
    return and the space, and the white space from 128 on (0x85, 0xA0),
    which it first turns into spaces.  The separators 0x1C..0x1F are
    left in place, and make the numeral invalid. *)
Definition is_int_space (c : ascii) : bool :=
  let n := N_of_ascii c in
  ((9 <=? n) && (n <=? 13) || (n =? 32) || (n =? 133) || (n =? 160))%N.

Fixpoint lstrip_int_space (s : string) : string :=
  match s with
  | EmptyString => EmptyString
  | String c rest => if is_int_space c then lstrip_int_space rest else s
  end.

Fixpoint rstrip_int_space (s : string) : string :=
  match s with
  | EmptyString => EmptyString
  | String c rest =>
      match rstrip_int_space rest with
      | EmptyString => if is_int_space c then EmptyString else String c EmptyString
      | rest' => String c rest'
      end
  end.

(** [int(s)] for a string: surrounding white space, an optional sign,
    decimal digits. *)
Definition py_int (s : string) : result Z :=
  let body := rstrip_int_space (lstrip_int_space s) in
  let '(negative, digits) :=
    match body with
    | String "-" rest => (true, rest)
    | String "+" rest => (false, rest)
    | _ => (false, body)
    end in
  match int_digits digits 0 false with
  | Some n => Ok (if negative then - n else n)
  | None => Err ValueError
  end.

Definition hex_digit (d : Z) : ascii :=
  if d <? 10 then ascii_of_N (Z.to_N (48 + d)) else ascii_of_N (Z.to_N (87 + d)).

(** The digits of a non-negative integer in base 16, most significant
    first, prepended to [acc]; [fuel] bounds the number of digits. *)
Fixpoint hex_digits (fuel : nat) (n : Z) (acc : string) : string :=
  let acc' := String (hex_digit (n mod 16)) acc in
  match fuel with
  | O => acc'
  | S k => if n / 16 =? 0 then acc' else hex_digits k (n / 16) acc'
  end.

(** [hex(n)] *)
Definition py_hex (n : Z) : string :=
  let m := Z.abs n in
  ((if (n <? 0)%Z then "-0x" else "0x")
   ++ hex_digits (Z.to_nat (Z.log2 m)) m "")%string.

Fixpoint char_in (c : ascii) (chars : string) : bool :=
  match chars with
  | EmptyString => false
  | String d rest => (c =? d)%char || char_in c rest
  end.

(** [s.lstrip(chars)] *)
Fixpoint lstrip (chars s : string) : string :=
  match s with
  | EmptyString => EmptyString
  | String c rest => if char_in c chars then lstrip chars rest else s
  end.

(** ** Building the frame list *)

(** [l[i] = v] for an index inside the list *)
Fixpoint set_nth {A} (i : nat) (v : A) (l : list A) : list A :=
  match l, i with
  | [], _ => []
  | _ :: rest, O => v :: rest
  | x :: rest, S j => x :: set_nth j v rest
  end.

(** [l[a:b] = vals] *)
Definition set_slice {A} (a b : nat) (vals l : list A) : list A :=
  firstn a l ++ vals ++ skipn b l.

(** [for i, index in enumerate(range(lo, lo + width)):
       curr_addr[index] = (n >> i) & 1] *)
Definition set_field (lo width : nat) (n : Z) (addr : list Z) : list Z :=
  fold_left (fun a i => set_nth (lo + i) (Z.land (Z.shiftr n (Z.of_nat i)) 1) a)
            (seq 0 width) addr.

Definition HALF_SCOPE : Z := 2.
Definition ROW_SCOPE : Z := 4.
Definition BUS_SCOPE : Z := 6.
Definition COL_SCOPE : Z := 8.
Definition FRAME_COUNT_SCOPE : Z := 9.

Record builder : Type := mkbuilder {
  frames_of : list frame;
  curr_addr : list Z;
  curr_scope : Z
}.

Definition frame_addr_hex (addr : list Z) : string :=
  rjust 8 "0" (lstrip "0x" (py_hex (bits_to_int addr))).

(** [for minor_addr in range(num_frames)]: set the minor bits, append
    the address in both forms. *)
Definition emit_frames (num_frames : Z) (b : builder) : builder :=
  fold_left
    (fun b minor_addr =>
       let addr := set_field 0 7 (Z.of_nat minor_addr) (curr_addr b) in
       mkbuilder (frames_of b ++ [(frame_addr_hex addr, addr)]) addr (curr_scope b))
    (seq 0 (Z.to_nat num_frames)) b.

Definition with_addr (b : builder) (addr : list Z) : builder :=
  mkbuilder (frames_of b) addr (curr_scope b).

(** The pieces of a line between double quotes (its split at the quote
    character, [[1::2]]), and the bits of the first one read as an
    integer. *)
Definition set_quoted_number (lo width : nat) (line : string) (b : builder)
  : result builder :=
  match odd_items (split_on "034" line) with
  | [] => Ok b
  | num :: _ =>
      rbind (py_int num) (fun n => Ok (with_addr b (set_field lo width n (curr_addr b))))
  end.

Definition on_half (line : string) (b : builder) : builder :=
  if negb (curr_scope b =? HALF_SCOPE) then b else
  let b := if contains "top" line then with_addr b (set_nth 22 0 (curr_addr b)) else b in
  if contains "bottom" line then with_addr b (set_nth 22 1 (curr_addr b)) else b.

Definition on_row (line : string) (b : builder) : result builder :=
  if negb (curr_scope b =? ROW_SCOPE) then Ok b else set_quoted_number 17 5 line b.

Definition on_bus (line : string) (b : builder) : builder :=
  if negb (curr_scope b =? BUS_SCOPE) then b else
  let b := if contains "CLB_IO_CLK" line
           then with_addr b (set_slice 23 26 (rev [0; 0; 0]) (curr_addr b)) else b in
  let b := if contains "BLOCK_RAM" line
           then with_addr b (set_slice 23 26 (rev [0; 0; 1]) (curr_addr b)) else b in
  if contains "CFG_CLB" line
  then with_addr b (set_slice 23 26 (rev [0; 1; 0]) (curr_addr b)) else b.

Definition on_col (line : string) (b : builder) : result builder :=
  if negb (curr_scope b =? COL_SCOPE) then Ok b else set_quoted_number 7 10 line b.

Definition on_frame_count (line : string) (b : builder) : result builder :=
  if negb (curr_scope b =? FRAME_COUNT_SCOPE) then Ok b else
  if contains "}" line then Ok b else
  match nth_error (split_on " " (strip line)) 1 with
  | None => Err IndexError
  | Some count => rbind (py_int count) (fun num_frames => Ok (emit_frames num_frames b))
  end.

Definition on_scope (line : string) (b : builder) : builder :=
  let s := if contains "{" line then curr_scope b + 1 else curr_scope b in
  let s := if contains "}" line then s - 1 else s in
  mkbuilder (frames_of b) (curr_addr b) s.

(** The body of [for line in p_j]. *)
Definition process_line (b : builder) (line : string) : result builder :=
  let b := on_half line b in
  rbind (on_row line b) (fun b =>
  let b := on_bus line b in
  rbind (on_col line b) (fun b =>
  rbind (on_frame_count line b) (fun b =>
  Ok (on_scope line b)))).

Fixpoint process_lines (b : builder) (lines : list string) : result builder :=
  match lines with
  | [] => Ok b
  | line :: rest => rbind (process_line b line) (fun b' => process_lines b' rest)
  end.

(** The four [if]s that assign [family]; the variable stays unbound when
    none fires. *)
Definition family_of (part : string) : option string :=
  let family := None in
  let family := if contains "xc7a" part then Some "artix7"%string else family in
  let family := if contains "xc7k" part then Some "kintex7"%string else family in
  let family := if contains "xc7s" part then Some "spartan7"%string else family in
  if contains "xc7z" part then Some "zynq7"%string else family.

(** Python's [<] on lists of integers and on the two-element lists of
    the frame list. *)
Fixpoint list_Z_ltb (a b : list Z) : bool :=
  match a, b with
  | [], [] => false
  | [], _ :: _ => true
  | _ :: _, [] => false
  | x :: a', y :: b' => if x =? y then list_Z_ltb a' b' else x <? y
  end.

Definition frame_ltb (a b : frame) : bool :=
  if (fst a =? fst b)%string then list_Z_ltb (snd a) (snd b)
  else String.ltb (fst a) (fst b).

(** [sorted(l)]: a stable sort by [<]. *)
Fixpoint insert_frame (x : frame) (l : list frame) : list frame :=
  match l with
  | [] => [x]
  | y :: rest => if frame_ltb y x then y :: insert_frame x rest else x :: l
  end.

Definition sorted (l : list frame) : list frame := fold_right insert_frame [] l.

(** The files on disk, as the lines [for line in p_j] yields. *)
Definition filesystem : Type := string -> option (list string).

(** [xray_dir] stands for the value of [get_xray_dir()], a function of
    [lib.tile]. *)
Definition get_frame_list (xray_dir : string) (fs : filesystem) (part : string)
  : result (list frame) :=
  match family_of part with
  | None => Err FamilyUnbound
  | Some family =>
      match fs (xray_dir ++ "/" ++ family ++ "/" ++ part ++ "/part.json")%string with
      | None => Err FileNotFound
      | Some lines =>
          rbind (process_lines (mkbuilder [] (repeat 0 32) 0) lines)
                (fun b => Ok (sorted (frames_of b)))
      end
  end.

(** ** Main function *)

Definition build_frames (xray_dir : string) (fs : filesystem) (part : string)
  : result (list frame) :=
  if contains "xc7" part then get_frame_list xray_dir fs part
  else Err UnsupportedDevice.

Definition get_high_bits (xray_dir : string) (fs : filesystem) (bitstream : list byte)
  : result (loop (list string)) :=
  match find_config_packet (mkfile bitstream 0) with
  | Err e => Err e
  | Ok (OutOfFuel, _) => Ok OutOfFuel
  | Ok (Done (part, config_packet_length), bitfile) =>
      rbind (build_frames xray_dir fs part) (fun frames =>
      match parse_config_packet config_packet_length frames bitfile with
      | Err e => Err e
      | Ok (bits, _) => Ok (Done bits)
      end)
  end.

(** ** Reference notions used to state the properties *)

(** The integer a byte stands for, [ord] of it. *)
Definition byte_val (b : byte) : Z := Z.of_N (Byte.to_N b).

(** The value of a bit list, least significant bit first. *)
Fixpoint bits_value (l : list Z) : Z :=
  match l with
  | [] => 0
  | b :: rest => b + 2 * bits_value rest
  end.

(** The word whose four bytes start at offset [p] of [d]. *)
Definition word_at (d : list byte) (p : nat) : list Z :=
  flat_map byte_bits (rev (map byte_val (firstn 4 (skipn p d)))).

(** The FDRI write setup: a Type-1 header with opcode 2, address 2 and
    length 0. *)
Definition fdri_write_setup (word : list Z) : bool :=
  is_type1 word && (packet_1_opcode word =? 2) && (packet_1_addr word =? 2)
  && (packet_1_length word =? 0).

(** A computation that leaves the bytes alone and never moves the cursor
    back. *)
Definition advances {A} (m : io A) : Prop :=
  forall f a f', m f = Ok (a, f') -> data f' = data f /\ (pos f <= pos f')%nat.

Definition is_bit (b : Z) : Prop := b = 0 \/ b = 1.

(** ** Sample inputs *)

(** A header naming the part 7a35t, a padding word, the sync word, a
    NOP, the FDRI write setup 0x30004000 and the Type-2 header
    0x500000CA announcing 202 words. *)
Definition sample_header : list byte :=
  [x00; x01; x2e] ++ [x00; x01; x61] ++ [x00; x01; x64] ++ [x62]
  ++ [x00; x06; x37; x61; x33; x35; x74; x00].

Definition sample_packets : list byte :=
  [x20; x00; x00; x00] ++ [x30; x00; x40; x00] ++ [x50; x00; x00; xca].

Definition sample_bitstream : list byte :=
  sample_header ++ [xff; xff; xff; xff] ++ [xaa; x99; x55; x66] ++ sample_packets.

(** ** The decoder's expected output, from the description of the format

    Frame [i] of the frame list owns 101 consecutive words of the
    payload; its first word sits 202 words further on each time bits
    17..22 of the address change from one frame to the next.  Every bit
    equal to 1 of those words is named, frame by frame, word by word,
    bit by bit, except bits 0..12 of word 50. *)

(** Byte offsets of the first word of each frame, for a payload whose
    next unread byte is at [p]. *)
Fixpoint frame_starts (p : nat) (prev_frame : frame) (frames : list frame)
  : list nat :=
  match frames with
  | [] => []
  | fr :: rest =>
      let p' := if row_changed prev_frame fr then (p + 4 * 202)%nat else p in
      p' :: frame_starts (p' + 4 * 101) fr rest
  end.

Definition reserved_clock_bit (word_offset bit_offset : nat) : bool :=
  (word_offset =? 50)%nat && (bit_offset <=? 12)%nat.

Definition high_bits_of_word (frame_hex : string) (word_offset : nat)
  (word : list Z) : list string :=
  flat_map (fun bit_offset =>
              if (nth bit_offset word 0 =? 1)
                 && negb (reserved_clock_bit word_offset bit_offset)
              then [bit_name frame_hex word_offset bit_offset] else [])
           (seq 0 32).

Definition high_bits_of_frame (d : list byte) (start : nat) (fr : frame)
  : list string :=
  flat_map (fun word_offset =>
              high_bits_of_word (fst fr) word_offset
                                (word_at d (start + 4 * word_offset)))
           (seq 0 101).

Definition expected_bits (d : list byte) (p : nat) (frames : list frame)
  : list string :=
  match frames with
  | [] => []
  | frame0 :: _ =>
      flat_map (fun '(fr, start) => high_bits_of_frame d start fr)
               (combine frames (frame_starts p frame0 frames))
  end.

(** The names owed to the words at [p], [p + 4], ... for the word
    offsets [offsets], in that order. *)
Fixpoint words_high_bits (d : list byte) (p : nat) (frame_hex : string)
  (offsets : list nat) : list string :=
  match offsets with
  | [] => []
  | word_offset :: rest =>
      high_bits_of_word frame_hex word_offset (word_at d p)
      ++ words_high_bits d (p + 4) frame_hex rest
  end.

(** Words read by the walk over [frames]: 101 per frame and 202 more at
    each change of bits 17..22. *)
Fixpoint words_consumed (prev_frame : frame) (frames : list frame) : nat :=
  match frames with
  | [] => 0%nat
  | fr :: rest =>
      ((if row_changed prev_frame fr then 202 else 0) + 101
       + words_consumed fr rest)%nat
  end.

(** Two frames in different rows and a payload of 404 words for them:
    word 50 of the first frame is all ones, word 150 lies in the skipped
    padding, word 306 is word 3 of the second frame with bit 7 set. *)
Definition sample_frame0 : frame := ("00000000"%string, repeat 0 32).
Definition sample_frame1 : frame := ("00020000"%string, set_nth 17 1 (repeat 0 32)).
Definition sample_frames : list frame := [sample_frame0; sample_frame1].

Definition sample_payload : list byte :=
  repeat x00 (4 * 50) ++ [xff; xff; xff; xff] ++ repeat x00 (4 * 99)
  ++ [xff; xff; xff; xff] ++ repeat x00 (4 * 155)
  ++ [x00; x00; x00; x80] ++ repeat x00 (4 * 97).

(** The [k] low hexadecimal digits of [n], most significant first. *)
Fixpoint hex_fixed (k : nat) (n : Z) : string :=
  match k with
  | O => EmptyString
  | S j => String (hex_digit ((n / 16 ^ Z.of_nat j) mod 16)) (hex_fixed j n)
  end.

(** A frame as [get_frame_list] emits it: 32 bits and their 8-digit
    hexadecimal form. *)
Definition frame_wf (fr : frame) : Prop :=
  fst fr = frame_addr_hex (snd fr) /\ List.length (snd fr) = 32%nat /\
  Forall is_bit (snd fr).

Definition builder_wf (b : builder) : Prop :=
  List.length (curr_addr b) = 32%nat /\ Forall is_bit (curr_addr b) /\
  Forall frame_wf (frames_of b).

Definition hex_le (a b : frame) : Prop := String.leb (fst a) (fst b) = true.
Definition hex_lt (a b : frame) : Prop := String.ltb (fst a) (fst b) = true.

(** A descriptor with one column of 129 frames, and one with two
    columns of 2 and 3 frames. *)
Definition dq : string := String "034" EmptyString.

Definition descriptor_head : list string :=
  ["{";
   "    " ++ dq ++ "global_clock_regions" ++ dq ++ ": {";
   "        " ++ dq ++ "bottom" ++ dq ++ ": {";
   "            " ++ dq ++ "rows" ++ dq ++ ": {";
   "                " ++ dq ++ "1" ++ dq ++ ": {";
   "                    " ++ dq ++ "configuration_buses" ++ dq ++ ": {";
   "                        " ++ dq ++ "BLOCK_RAM" ++ dq ++ ": {";
   "                            " ++ dq ++ "configuration_columns" ++ dq ++ ": {"]%string.

Definition descriptor_tail : list string :=
  ["                            }";
   "                        }";
   "                    }";
   "                }";
   "            }";
   "        }";
   "    }";
   "}"]%string.

Definition descriptor_with (columns : list string) : list string :=
  (descriptor_head ++ columns ++ descriptor_tail)%list.

Definition column (index count : string) (comma : bool) : list string :=
  ["                                " ++ dq ++ index ++ dq ++ ": {";
   "                                    " ++ dq ++ "frame_count" ++ dq ++ ": " ++ count;
   if comma then "                                }," else "                                }"]%string.

Definition descriptor_129 : list string := descriptor_with (column "0" "129" false).
Definition descriptor_small : list string :=
  descriptor_with (column "0" "2" true ++ column "1" "3" false)%list.

Definition one_file (lines : list string) : filesystem := fun _ => Some lines.

(** ** A header as its writer lays it out *)

(** The byte with value [z], for [0 <= z < 256]. *)
Definition byte_of_Z (z : Z) : byte :=
  match Byte.of_N (Z.to_N z) with
  | Some b => b
  | None => x00
  end.

(** A length-prefixed field: two bytes of length, most significant
    first, then the bytes. *)
Definition encode_field (bs : list byte) : list byte :=
  byte_of_Z (Z.of_nat (List.length bs) / 256)
  :: byte_of_Z (Z.of_nat (List.length bs) mod 256) :: bs.

(** The characters [chr(ord(b))] of the [n] bytes at offset [p]. *)
Definition chars_at (d : list byte) (p n : nat) : string :=
  string_of_list_byte (firstn n (skipn p d)).

(** The part name [find_config_packet] makes of the name in the file. *)
Definition normalize_part (name : string) : string :=
  match name with
  | String "7" _ => ("xc" ++ name ++ "-1")%string
  | _ => name
  end.

(** The header fields in file order: a first field, the letter a, the
    design field, one separator byte, the part name and its
    terminator. *)
Definition encode_header (field1 design : list byte) (sep : byte)
  (name : string) (terminator : byte) : list byte :=
  encode_field field1 ++ encode_field (list_byte_of_string "a")
  ++ encode_field design ++ [sep]
  ++ encode_field (list_byte_of_string name ++ [terminator]).

(** The reserved bits 26..31 of an address are zero. *)
Definition reserved_bits_zero (addr : list Z) : Prop :=
  forall j, (26 <= j)%nat -> nth j addr 0 = 0.

(** The frame [get_frame_list] appends for minor address [m] when the
    accumulator holds [addr]. *)
Definition minor_frame (addr : list Z) (m : nat) : frame :=
  (frame_addr_hex (set_field 0 7 (Z.of_nat m) addr), set_field 0 7 (Z.of_nat m) addr).

(** The accumulator before the first line of the descriptor. *)
Definition initial_builder : builder := mkbuilder [] (repeat 0 32) 0.

(** Every address held by the builder, the accumulator and the listed
    frames, has the property [P]. *)
Definition addresses_keep (P : list Z -> Prop) (b : builder) : Prop :=
  P (curr_addr b) /\ Forall (fun fr => P (snd fr)) (frames_of b).

(** ** ll_sample_bits.py: from a logic-location file to a sample of bits *)

(** [s.split()]: the maximal runs of characters that are not white
    space; [cur] is the run being read. *)
Fixpoint split_words (cur s : string) : list string :=
  match s with
  | EmptyString => match cur with EmptyString => [] | _ => [cur] end
  | String c rest =>
      if is_space c then
        match cur with
        | EmptyString => split_words EmptyString rest
        | _ => cur :: split_words EmptyString rest
        end
      else split_words (cur ++ String c EmptyString) rest
  end.

Definition py_split (s : string) : list string := split_words EmptyString s.

(** [str(n)] for an integer *)
Definition py_str_Z (n : Z) : string :=
  if n <? 0 then ("-" ++ py_str (Z.to_nat (- n)))%string else py_str (Z.to_nat n).

(** An address of the logic-location file: the Python list
    [[frame_addr, word_offset, bit_offset]]. *)
Definition ll_bit : Type := list string.

(** The body of [for line in ll_f]: [None] for a line passed over by
    [continue], else the address appended to [ll_bits]. *)
Definition parse_ll_line (line : string) : result (option ll_bit) :=
  let line_split := py_split line in
  match nth_error line_split 0 with
  | None => Err IndexError
  | Some first =>
      if negb (first =? "Bit")%string then Ok None else
      match nth_error line_split 4 with
      | None => Err IndexError
      | Some block =>
          if negb (contains "SLICE" block) then Ok None else
          match nth_error line_split 2, nth_error line_split 3 with
          | Some frame_addr, Some full_offset =>
              rbind (py_int full_offset) (fun offset =>
              let word_offset := py_str_Z (offset / 32) in
              let bit_offset := py_str_Z (offset mod 32) in
              match nth_error (split_on "x" frame_addr) 1 with
              | None => Err IndexError
              | Some frame_addr =>
                  Ok (Some [frame_addr; rjust 3 "0" word_offset;
                            rjust 2 "0" bit_offset])
              end)
          | _, _ => Err IndexError
          end
      end
  end.

Fixpoint parse_ll_lines (lines : list string) (ll_bits : list ll_bit)
  : result (list ll_bit) :=
  match lines with
  | [] => Ok ll_bits
  | line :: rest =>
      rbind (parse_ll_line line) (fun r =>
      parse_ll_lines rest
        match r with
        | Some bitstream_addr => ll_bits ++ [bitstream_addr]
        | None => ll_bits
        end)
  end.

Definition parse_ll_file (fs : filesystem) (ll_file : string)
  : result (list ll_bit) :=
  match fs ll_file with
  | None => Err FileNotFound
  | Some lines => parse_ll_lines lines []
  end.

Definition ll_bit_eqb (a b : ll_bit) : bool :=
  if list_eq_dec string_dec a b then true else false.

(** [random.choice(l)], [r] being the number the generator draws. *)
Definition choice {A} (r : nat) (l : list A) : result A :=
  match l with
  | [] => Err IndexError
  | _ => match nth_error l (r mod List.length l) with
         | Some x => Ok x
         | None => Err IndexError
         end
  end.

(** [l.remove(x)]: without the first element equal to [x]. *)
Fixpoint py_remove (x : ll_bit) (l : list ll_bit) : result (list ll_bit) :=
  match l with
  | [] => Err ValueError
  | y :: rest =>
      if ll_bit_eqb y x then Ok rest
      else rbind (py_remove x rest) (fun rest' => Ok (y :: rest'))
  end.

(** The [while] loop of [write_bit_list]; [draws] gives the numbers the
    random generator draws, [i] counts the draws made. *)
Fixpoint sample_loop (fuel : nat) (draws : nat -> nat) (i : nat) (num_bits : Z)
  (ll_bits : list ll_bit) (fault_bits : list (list ll_bit))
  : result (loop (list (list ll_bit) * list ll_bit)) :=
  if Z.of_nat (List.length fault_bits) <? num_bits then
    match fuel with
    | O => Ok OutOfFuel
    | S k =>
        rbind (choice (draws i) ll_bits) (fun rand_bit =>
        rbind (py_remove rand_bit ll_bits) (fun ll_bits' =>
        sample_loop k draws (S i) num_bits ll_bits' (fault_bits ++ [[rand_bit]])))
    end
  else Ok (Done (fault_bits, ll_bits)).

(** [ll_file.split('/')[-1].split('.')[0]] and the name of the output
    file. *)
Definition ll_filename (ll_file : string) : string :=
  hd EmptyString (split_on "." (last (split_on "/" ll_file) EmptyString)).

Definition fault_bits_path (ll_file : string) : string :=
  (ll_filename ll_file ++ "_ll_sample_bits.json")%string.

(** [write_bit_list], up to the value handed to [json.dumps]: the path
    of the file written, the list [fault_bits] whose JSON text it
    receives, and the caller's list [ll_bits] as the loop leaves it. *)
Definition write_bit_list (draws : nat -> nat) (ll_bits : list ll_bit)
  (num_bits : Z) (ll_file : string)
  : result (loop (string * list (list ll_bit) * list ll_bit)) :=
  let num_bits :=
    if num_bits >? Z.of_nat (List.length ll_bits)
    then Z.of_nat (List.length ll_bits) else num_bits in
  match sample_loop (List.length ll_bits) draws 0 num_bits ll_bits [] with
  | Err e => Err e
  | Ok OutOfFuel => Ok OutOfFuel
  | Ok (Done (fault_bits, ll_bits')) =>
      Ok (Done (fault_bits_path ll_file, fault_bits, ll_bits'))
  end.

(** [main] of ll_sample_bits.py *)
Definition ll_main (fs : filesystem) (draws : nat -> nat) (ll_file : string)
  (num_bits : Z) : result (loop (string * list (list ll_bit) * list ll_bit)) :=
  rbind (parse_ll_file fs ll_file) (fun ll_bits =>
  write_bit_list draws ll_bits num_bits ll_file).

(** Strings made of decimal digits only, and of white space only. *)
Fixpoint all_digits (s : string) : bool :=
  match s with
  | EmptyString => true
  | String c rest => is_digit c && all_digits rest
  end.

Fixpoint all_space (s : string) : bool :=
  match s with
  | EmptyString => true
  | String c rest => is_space c && all_space rest
  end.

(** [n] characters 0. *)
Definition zeros (n : nat) : string := string_of_list_ascii (repeat "0"%char n).

(** Lines of a logic-location file: a comment, a bit of a slice at
    offset 3207 of its frame, a bit of a block RAM, a cut line, an empty
    line. *)
Definition nl : string := String "010" EmptyString.

Definition ll_line_comment : string := ("; Created by bitgen" ++ nl)%string.

Definition ll_line_slice : string :=
  ("Bit 18759211 0x0040031f 3207 Block=SLICE_X0Y149 Latch=AQ Net=q" ++ nl)%string.

Definition ll_line_ram : string :=
  ("Bit 2048 0x00c00000 39 Block=RAMB36_X0Y0 Ram=B:BIT0" ++ nl)%string.

Definition ll_line_cut : string := ("Bit 18759211 0x0040031f" ++ nl)%string.

(** A whole bitstream for the part 7a35t: the header, a padding word,
    the sync word, the FDRI write setup, the Type-2 header 0x500002C3
    announcing 707 words, and 505 words for the five frames of
    [descriptor_small], bit 7 of word 3 of the first frame set. *)
Definition sample_design : list byte :=
  sample_header ++ [xff; xff; xff; xff] ++ [xaa; x99; x55; x66]
  ++ [x30; x00; x40; x00] ++ [x50; x00; x02; xc3]
  ++ repeat x00 (4 * 3) ++ [x00; x00; x00; x80] ++ repeat x00 (4 * 501).

(** A bitstream of a Virtex-7 part: the header names 7vx485tffg1761;
    then a padding word, the sync word, the FDRI write setup and a
    Type-2 header announcing 202 words. *)
Definition virtex7_bitstream : list byte :=
  encode_header [x2e] [x64] x62 "7vx485tffg1761" x00
  ++ [xff; xff; xff; xff] ++ [xaa; x99; x55; x66]
  ++ [x30; x00; x40; x00] ++ [x50; x00; x00; xca].

(** ** Packet headers, from the description of the format

    A header is the 32-bit number made of four bytes, the first byte
    the most significant.  Its type is in bits 31..29.  A Type-1 header
    has its opcode in bits 28..27, its register address in bits 26..13
    and its word count in bits 10..0; a Type-2 header has its word count
    in bits 26..0. *)
Definition word_value (d : list byte) (p : nat) : Z :=
  fold_left (fun acc b => 256 * acc + byte_val b) (firstn 4 (skipn p d)) 0.

Definition header_type (v : Z) : Z := v / 2 ^ 29.
Definition type1_opcode (v : Z) : Z := (v / 2 ^ 27) mod 2 ^ 2.
Definition type1_address (v : Z) : Z := (v / 2 ^ 13) mod 2 ^ 14.
Definition type1_word_count (v : Z) : Z := v mod 2 ^ 11.
Definition type2_word_count (v : Z) : Z := v mod 2 ^ 27.

(** A Type-1 header that writes (opcode 2) no word (count 0) to the
    frame-data register (address 2). *)
Definition fdri_setup_value (v : Z) : bool :=
  (header_type v =? 1) && (type1_opcode v =? 2) && (type1_address v =? 2)
  && (type1_word_count v =? 0).

(** The offset of the header that follows the header at [h]: a Type-1
    header is followed by as many payload words as its word count
    says, any other word by none. *)
Definition next_header (d : list byte) (h : nat) : nat :=
  let v := word_value d h in
  (h + 4 + (if (header_type v =? 1)%Z then 4 * Z.to_nat (type1_word_count v) else 0))%nat.

(** The offset of header number [i], counting from the header at [h]. *)
Fixpoint header_at (d : list byte) (h : nat) (i : nat) : nat :=
  match i with
  | O => h
  | S j => header_at d (next_header d h) j
  end.

(** The pending flag at header number [i] of the scan: the flag the scan
    starts with, then whether the header before is the FDRI write
    setup. *)
Definition pending_at (d : list byte) (h : nat) (flag : bool) (i : nat) : bool :=
  match i with
  | O => flag
  | S j => fdri_setup_value (word_value d (header_at d h j))
  end.

(** ** The counter of [parse_config_packet], statement by statement

    The places of the frame loop where the counter or the cursor has
    just changed: after [frames_remaining -= FRAME_LENGTH*2] (line 305),
    after the [parse_word] of turn [i] of the skip loop (line 307),
    after [frames_remaining -= 1] (line 312) and after
    [word = parse_word(bitfile)] (line 313) for a word offset. *)
Inductive program_point : Type :=
| SkipLowered
| SkipRead (i : nat)
| WordLowered (word_offset : nat)
| WordRead (word_offset : nat).

(** What is seen at such a place: the counter and the cursor. *)
Definition observation : Type := (program_point * Z * nat)%type.

(** Lines 305-307, entered with the counter [frames_remaining] and the
    cursor [p]. *)
Definition skip_observations (frames_remaining : Z) (p : nat) : list observation :=
  let frames_remaining := frames_remaining - Z.of_nat (FRAME_LENGTH * 2) in
  (SkipLowered, frames_remaining, p)
  :: map (fun i => (SkipRead i, frames_remaining, (p + 4 * S i)%nat))
         (seq 0 (FRAME_LENGTH * 2)).

(** Lines 310-313, for the word offsets still to come. *)
Fixpoint word_observations (offsets : list nat) (frames_remaining : Z) (p : nat)
  : list observation :=
  match offsets with
  | [] => []
  | word_offset :: rest =>
      let frames_remaining := frames_remaining - 1 in
      (WordLowered word_offset, frames_remaining, p)
      :: (WordRead word_offset, frames_remaining, (p + 4)%nat)
      :: word_observations rest frames_remaining (p + 4)
  end.

(** One turn of [for frame in frames], then the whole loop. *)
Definition frame_observations (prev_frame fr : frame) (frames_remaining : Z)
  (p : nat) : list observation :=
  if row_changed prev_frame fr then
    skip_observations frames_remaining p
    ++ word_observations (seq 0 FRAME_LENGTH)
         (frames_remaining - Z.of_nat (FRAME_LENGTH * 2))
         (p + 4 * (FRAME_LENGTH * 2))
  else word_observations (seq 0 FRAME_LENGTH) frames_remaining p.

Fixpoint walk_observations (frames : list frame) (prev_frame : frame)
  (frames_remaining : Z) (p : nat) : list observation :=
  match frames with
  | [] => []
  | fr :: rest =>
      let skipped := if row_changed prev_frame fr then (FRAME_LENGTH * 2)%nat else 0%nat in
      frame_observations prev_frame fr frames_remaining p
      ++ walk_observations rest fr
           (frames_remaining - Z.of_nat (skipped + FRAME_LENGTH))
           (p + 4 * (skipped + FRAME_LENGTH))
  end.

(** The words the counter has been lowered for and that are still to be
    read, at each place. *)
Definition words_owed (pt : program_point) : Z :=
  match pt with
  | SkipLowered => 202
  | SkipRead i => 202 - Z.of_nat (S i)
  | WordLowered _ => 1
  | WordRead _ => 0
  end.

(** At an observation, the counter is the payload length [len] less the
    words read since the cursor was at [start] and less the words
    owed. *)
Definition counter_accounts (len : Z) (start : nat) (o : observation) : Prop :=
  let '(pt, c, p) := o in
  exists n : nat,
    p = (start + 4 * n)%nat /\ c = len - Z.of_nat n - words_owed pt /\
    0 <= words_owed pt.

(* ================================================================== *)
(** * Properties *)

(** ** The cursor *)

Lemma read_ord_eq f :
  read_ord f =
  match nth_error (data f) (pos f) with
  | Some b => Ok (byte_val b, mkfile (data f) (S (pos f)))
  | None => Err TruncatedStream
  end.
Proof.
  unfold read_ord, bind, read1, lift, ord.
  destruct (nth_error (data f) (pos f)); reflexivity.
Qed.

Lemma skipn_nth_error {A} (l : list A) p x :
  nth_error l p = Some x -> skipn p l = x :: skipn (S p) l.
Proof.
  revert l; induction p as [|p IH]; intros [|y l] H; simpl in *; try discriminate.
  - now inversion H.
  - now apply IH.
Qed.

(** [parse_word] reads the four bytes at the cursor, or raises when
    fewer than four are left. *)
Lemma parse_word_eq f :
  parse_word f =
  if (pos f + 4 <=? List.length (data f))%nat
  then Ok (word_at (data f) (pos f), mkfile (data f) (pos f + 4))
  else Err TruncatedStream.
Proof.
  destruct f as [d p]. unfold parse_word, word_at. cbn [read_ords data pos].
  unfold bind, ret.
  rewrite read_ord_eq; cbn [data pos].
  destruct (nth_error d p) as [b0|] eqn:E0.
  2:{ apply nth_error_None in E0.
      destruct (Nat.leb_spec (p + 4) (List.length d)); [lia|reflexivity]. }
  rewrite read_ord_eq; cbn [data pos].
  destruct (nth_error d (S p)) as [b1|] eqn:E1.
  2:{ apply nth_error_None in E1.
      destruct (Nat.leb_spec (p + 4) (List.length d)); [lia|reflexivity]. }
  rewrite read_ord_eq; cbn [data pos].
  destruct (nth_error d (S (S p))) as [b2|] eqn:E2.
  2:{ apply nth_error_None in E2.
      destruct (Nat.leb_spec (p + 4) (List.length d)); [lia|reflexivity]. }
  rewrite read_ord_eq; cbn [data pos].
  destruct (nth_error d (S (S (S p)))) as [b3|] eqn:E3.
  2:{ apply nth_error_None in E3.
      destruct (Nat.leb_spec (p + 4) (List.length d)); [lia|reflexivity]. }
  assert (L : (S (S (S p)) < List.length d)%nat)
    by (apply nth_error_Some; congruence).
  destruct (Nat.leb_spec (p + 4) (List.length d)); [|lia].
  rewrite (skipn_nth_error _ _ _ E0), (skipn_nth_error _ _ _ E1),
          (skipn_nth_error _ _ _ E2), (skipn_nth_error _ _ _ E3).
  simpl. repeat f_equal. lia.
Qed.

Lemma parse_word_inv f w f' :
  parse_word f = Ok (w, f') ->
  (pos f + 4 <= List.length (data f))%nat /\
  w = word_at (data f) (pos f) /\ f' = mkfile (data f) (pos f + 4).
Proof.
  rewrite parse_word_eq.
  destruct (Nat.leb_spec (pos f + 4) (List.length (data f))) as [L|L];
    intros E; inversion E; auto.
Qed.

Lemma word_at_length d p :
  (p + 4 <= List.length d)%nat -> List.length (word_at d p) = 32%nat.
Proof.
  intros H. unfold word_at.
  assert (L : List.length (firstn 4 (skipn p d)) = 4%nat)
    by (rewrite length_firstn, length_skipn; lia).
  destruct (firstn 4 (skipn p d)) as [|a [|b [|c [|e [|]]]]]; try discriminate.
  reflexivity.
Qed.

(** ** Bit lists and their values *)

Lemma land_shiftr_bit a i :
  0 <= i -> Z.land (Z.shiftr a i) 1 = Z.b2z (Z.testbit a i).
Proof.
  intros Hi. change 1 with (Z.ones 1).
  rewrite Z.land_ones by lia.
  rewrite <- Z.bit0_mod, Z.shiftr_spec by lia.
  now rewrite Z.add_0_l.
Qed.

Lemma fold_enumerate_value (l : list Z) : forall i acc,
  fold_left (fun int_value '(i, bit) => int_value + bit * 2 ^ Z.of_nat i)
            (combine (seq i (List.length l)) l) acc
  = acc + 2 ^ Z.of_nat i * bits_value l.
Proof.
  induction l as [|b l IH]; intros i acc;
    cbn [List.length seq combine fold_left bits_value].
  - lia.
  - rewrite IH. rewrite Nat2Z.inj_succ, Z.pow_succ_r by lia. ring.
Qed.

Lemma bits_to_int_value l : bits_to_int l = bits_value l.
Proof.
  unfold bits_to_int, enumerate. rewrite fold_enumerate_value.
  change (Z.of_nat 0) with 0. rewrite Z.pow_0_r. lia.
Qed.

Lemma fold_add_shifted (l : list Z) : forall i acc,
  fold_left Z.add
    (map (fun '(i, b) => Z.shiftl b (Z.of_nat i)) (combine (seq i (List.length l)) l))
    acc
  = acc + 2 ^ Z.of_nat i * bits_value l.
Proof.
  induction l as [|b l IH]; intros i acc;
    cbn [List.length seq combine map fold_left bits_value].
  - lia.
  - rewrite IH. rewrite Z.shiftl_mul_pow2 by lia.
    rewrite Nat2Z.inj_succ, Z.pow_succ_r by lia. ring.
Qed.

Lemma sum_shifted_value l : sum_shifted l = bits_value l.
Proof.
  unfold sum_shifted, enumerate. rewrite fold_add_shifted.
  change (Z.of_nat 0) with 0. rewrite Z.pow_0_r. lia.
Qed.

Lemma bits_value_app l1 l2 :
  bits_value (l1 ++ l2) = bits_value l1 + 2 ^ Z.of_nat (List.length l1) * bits_value l2.
Proof.
  induction l1 as [|b l1 IH]; cbn [app bits_value List.length].
  - change (Z.of_nat 0) with 0. rewrite Z.pow_0_r. lia.
  - rewrite IH, Nat2Z.inj_succ, Z.pow_succ_r by lia. ring.
Qed.

Lemma byte_bits_value (b : byte) : bits_value (byte_bits (byte_val b)) = byte_val b.
Proof. destruct b; reflexivity. Qed.

(** ** Word reconstruction *)

Lemma word_at_middle pre post (B0 B1 B2 B3 : byte) :
  word_at (pre ++ [B0; B1; B2; B3] ++ post) (List.length pre)
  = byte_bits (byte_val B3) ++ byte_bits (byte_val B2)
    ++ byte_bits (byte_val B1) ++ byte_bits (byte_val B0).
Proof.
  unfold word_at.
  rewrite skipn_app, Nat.sub_diag, skipn_all.
  cbn [app skipn firstn map rev flat_map].
  now rewrite app_nil_r.
Qed.

(** C4. For any four bytes B0..B3 read in that order, [parse_word]
    returns a 32-bit word whose bit k (k = 0 least significant) is bit
    (k mod 8) of byte B(3 - k/8), and [bits_to_int] of that word is
    B0*2^24 + B1*2^16 + B2*2^8 + B3. *)
Theorem parse_word_bit_order (pre post : list byte) (B0 B1 B2 B3 : byte) :
  let d := pre ++ [B0; B1; B2; B3] ++ post in
  exists word,
    parse_word (mkfile d (List.length pre))
      = Ok (word, mkfile d (List.length pre + 4)) /\
    List.length word = 32%nat /\
    (forall k, (k < 32)%nat ->
       nth k word 0
       = Z.b2z (Z.testbit (byte_val (nth (3 - k / 8) [B0; B1; B2; B3] x00))
                          (Z.of_nat (k mod 8)))) /\
    bits_to_int word
      = byte_val B0 * 2 ^ 24 + byte_val B1 * 2 ^ 16 + byte_val B2 * 2 ^ 8
        + byte_val B3.
Proof.
  intros d. exists (word_at d (List.length pre)).
  assert (Hlen : (List.length pre + 4 <= List.length d)%nat).
  { unfold d. rewrite !length_app. simpl. lia. }
  split; [|split; [|split]].
  - rewrite parse_word_eq. cbn [data pos].
    destruct (Nat.leb_spec (List.length pre + 4) (List.length d)); [reflexivity|lia].
  - now apply word_at_length.
  - unfold d. rewrite word_at_middle. intros k Hk.
    unfold byte_bits. cbn [seq map app].
    do 32 (destruct k as [|k]; [apply land_shiftr_bit; discriminate|]).
    lia.
  - unfold d. rewrite word_at_middle, bits_to_int_value.
    rewrite !bits_value_app, !byte_bits_value.
    unfold byte_bits. cbn [seq map List.length].
    change (Z.of_nat 8) with 8. ring.
Qed.

Lemma parse_word_bit_order_sync_word :
  exists word,
    parse_word (mkfile ([] ++ [xaa; x99; x55; x66] ++ []) 0)
      = Ok (word, mkfile ([] ++ [xaa; x99; x55; x66] ++ []) 4) /\
    List.length word = 32%nat /\
    (forall k, (k < 32)%nat ->
       nth k word 0
       = Z.b2z (Z.testbit (byte_val (nth (3 - k / 8) [xaa; x99; x55; x66] x00))
                          (Z.of_nat (k mod 8)))) /\
    bits_to_int word
      = byte_val xaa * 2 ^ 24 + byte_val x99 * 2 ^ 16 + byte_val x55 * 2 ^ 8
        + byte_val x66.
Proof. exact (parse_word_bit_order [] [] xaa x99 x55 x66). Defined.

(** ** Packet type tags *)

Lemma last_3_of_word (word : list Z) :
  List.length word = 32%nat ->
  last_n 3 word = [nth 29 word 0; nth 30 word 0; nth 31 word 0].
Proof.
  intros H. unfold last_n. rewrite H.
  do 33 (destruct word as [|? word]; try discriminate).
  reflexivity.
Qed.

Lemma list_Z_eqb_eq a b : list_Z_eqb a b = true <-> a = b.
Proof.
  unfold list_Z_eqb. destruct (list_eq_dec Z.eq_dec a b); split; congruence.
Qed.

Lemma is_type1_bits word :
  List.length word = 32%nat ->
  is_type1 word = true <->
  nth 31 word 0 = 0 /\ nth 30 word 0 = 0 /\ nth 29 word 0 = 1.
Proof.
  intros H. unfold is_type1. rewrite list_Z_eqb_eq, last_3_of_word by assumption.
  split.
  - intros E. injection E as E29 E30 E31. repeat split; assumption.
  - intros (-> & -> & ->). reflexivity.
Qed.

Lemma is_type2_bits word :
  List.length word = 32%nat ->
  is_type2 word = true <->
  nth 31 word 0 = 0 /\ nth 30 word 0 = 1 /\ nth 29 word 0 = 0.
Proof.
  intros H. unfold is_type2. rewrite list_Z_eqb_eq, last_3_of_word by assumption.
  split.
  - intros E. injection E as E29 E30 E31. repeat split; assumption.
  - intros (-> & -> & ->). reflexivity.
Qed.

(** C5, as the code has it. A word read by the packet scanner passes the
    Type-1 test exactly when its bits 31, 30, 29 are 0, 0, 1 (the list
    [1, 0, 0] is matched against bits 29, 30, 31 in that order), and the
    Type-2 test exactly when its bits 31, 30, 29 are 0, 1, 0. *)
Theorem packet_tag_bits f word f' :
  parse_word f = Ok (word, f') ->
  (is_type1 word = true <->
     nth 31 word 0 = 0 /\ nth 30 word 0 = 0 /\ nth 29 word 0 = 1) /\
  (is_type2 word = true <->
     nth 31 word 0 = 0 /\ nth 30 word 0 = 1 /\ nth 29 word 0 = 0).
Proof.
  intros H. apply parse_word_inv in H as (L & -> & _).
  pose proof (word_at_length _ _ L) as L32.
  split; [now apply is_type1_bits | now apply is_type2_bits].
Qed.

Lemma packet_tag_bits_fdri_header :
  let word := word_at [x30; x00; x40; x00] 0 in
  parse_word (mkfile [x30; x00; x40; x00] 0)
    = Ok (word, mkfile [x30; x00; x40; x00] 4) /\
  (is_type1 word = true <->
     nth 31 word 0 = 0 /\ nth 30 word 0 = 0 /\ nth 29 word 0 = 1) /\
  (is_type2 word = true <->
     nth 31 word 0 = 0 /\ nth 30 word 0 = 1 /\ nth 29 word 0 = 0).
Proof.
  split; [reflexivity|].
  apply (packet_tag_bits (mkfile [x30; x00; x40; x00] 0) _
                         (mkfile [x30; x00; x40; x00] 4)).
  reflexivity.
Defined.

(** The word 0x80000000 has bits 31, 30, 29 equal to 1, 0, 0 and is not
    taken for a Type-1 header: the scanner reads it as other content and
    keeps scanning.  The word 0x20000000 has bits 0, 0, 1 and is. *)
Lemma type1_tag_is_not_100_from_the_top :
  (exists word f',
     parse_word (mkfile [x80; x00; x00; x00] 0) = Ok (word, f') /\
     (nth 31 word 0 = 1 /\ nth 30 word 0 = 0 /\ nth 29 word 0 = 0) /\
     is_type1 word = false /\
     scan_step true (mkfile [x80; x00; x00; x00] 0)
       = Ok (KeepScanning false, f')) /\
  (exists word f',
     parse_word (mkfile [x20; x00; x00; x00] 0) = Ok (word, f') /\
     (nth 31 word 0 = 0 /\ nth 30 word 0 = 0 /\ nth 29 word 0 = 1) /\
     is_type1 word = true).
Proof.
  split; eexists; eexists; (split; [reflexivity|]); vm_compute; intuition congruence.
Qed.

(** ** Reading only moves the cursor forward *)

Create HintDb advance.

Lemma advances_ret {A} (a : A) : advances (ret a).
Proof. intros f a' f' H. inversion H. auto. Qed.

Lemma advances_raise {A} e : advances (@raise A e).
Proof. intros f a f' H. discriminate. Qed.

Lemma advances_lift {A} (r : result A) : advances (lift r).
Proof. intros f a f' H. unfold lift in H. destruct r; inversion H. auto. Qed.

Lemma advances_bind {A B} (m : io A) (k : A -> io B) :
  advances m -> (forall a, advances (k a)) -> advances (bind m k).
Proof.
  intros Hm Hk f b f' H. unfold bind in H.
  destruct (m f) as [[a f1]|] eqn:E; [|discriminate].
  apply Hm in E as [D1 P1]. apply Hk in H as [D2 P2].
  split; [congruence|lia].
Qed.

Lemma advances_read1 : advances read1.
Proof.
  intros f a f' H. unfold read1 in H.
  destruct (nth_error (data f) (pos f)); inversion H; simpl; auto.
Qed.

#[local] Hint Resolve advances_ret advances_raise advances_lift advances_bind
  advances_read1 : advance.

Lemma advances_read_ord : advances read_ord.
Proof. unfold read_ord. auto with advance. Qed.

#[local] Hint Resolve advances_read_ord : advance.

Lemma advances_read_ords n : advances (read_ords n).
Proof. induction n; simpl; auto 6 with advance. Qed.

#[local] Hint Resolve advances_read_ords : advance.

Lemma advances_parse_word : advances parse_word.
Proof. unfold parse_word. auto with advance. Qed.

#[local] Hint Resolve advances_parse_word : advance.

Lemma advances_read_chars n : advances (read_chars n).
Proof. induction n; simpl; auto 6 with advance. Qed.

#[local] Hint Resolve advances_read_chars : advance.

Lemma advances_read_bytes_ascii : advances read_bytes_ascii.
Proof. unfold read_bytes_ascii. auto 6 with advance. Qed.

#[local] Hint Resolve advances_read_bytes_ascii : advance.

Lemma advances_read_part_name : advances read_part_name.
Proof.
  unfold read_part_name.
  apply advances_bind; [auto with advance|intros _].
  apply advances_bind; [auto with advance|intros a_char].
  destruct (negb (a_char =? "a")%string); [auto with advance|].
  apply advances_bind; [auto with advance|intros _].
  apply advances_bind; [auto with advance|intros _].
  apply advances_bind; [auto with advance|intros field].
  destruct (drop_last field) as [|c s]; [auto with advance|].
  destruct (c =? "7")%char; auto with advance.
Qed.

Lemma advances_read_words n : advances (read_words n).
Proof. induction n; simpl; auto 6 with advance. Qed.

#[local] Hint Resolve advances_read_words : advance.

(** Reading [n] words moves the cursor by [4 * n] bytes, all of them
    inside the file. *)
Lemma read_words_pos n : forall f ws f',
  read_words n f = Ok (ws, f') ->
  pos f' = (pos f + 4 * n)%nat /\ data f' = data f /\
  (n = 0%nat \/ pos f' <= List.length (data f))%nat.
Proof.
  induction n as [|n IH]; intros f ws f' H; simpl in H.
  - inversion H. subst. repeat split; try lia; auto.
  - unfold bind in H. destruct (parse_word f) as [[w f1]|] eqn:E; [|discriminate].
    apply parse_word_inv in E as (L & _ & ->).
    destruct (read_words n _) as [[ws' f2]|] eqn:E2; [|discriminate].
    inversion H; subst. apply IH in E2 as (P & D & B). cbn [data pos] in *.
    repeat split; [lia|assumption|right]. destruct B; [subst; lia|lia].
Qed.

Lemma skip_words_eq n : forall f,
  skip_words n f =
  if (pos f + 4 * n <=? List.length (data f))%nat || (n =? 0)%nat
  then Ok (tt, mkfile (data f) (pos f + 4 * n)) else Err TruncatedStream.
Proof.
  induction n as [|n IH]; intros [d p]; cbn [skip_words data pos].
  - rewrite orb_true_r. unfold ret. do 3 f_equal. lia.
  - unfold bind. rewrite parse_word_eq. cbn [data pos].
    destruct (Nat.leb_spec (p + 4) (List.length d)) as [L|L].
    + rewrite IH. cbn [data pos]. rewrite orb_false_r.
      destruct (Nat.leb_spec (p + 4 + 4 * n) (List.length d));
        destruct (Nat.leb_spec (p + 4 * S n) (List.length d)); try lia.
      * rewrite orb_true_l. do 3 f_equal. lia.
      * destruct n; [lia|]. reflexivity.
    + rewrite orb_false_r.
      destruct (Nat.leb_spec (p + 4 * S n) (List.length d)); [lia|reflexivity].
Qed.

(** ** The synchronisation search *)

(** One turn of the search: a byte other than 0xAA moves the cursor by
    one; at a 0xAA byte the whole word is read, so the cursor moves by
    four whether or not the word is the sync word. *)
Lemma sync_step_eq f :
  sync_step f =
  match nth_error (data f) (pos f) with
  | None => Err TruncatedStream
  | Some b =>
      if byte_val b =? 170 then
        if (pos f + 4 <=? List.length (data f))%nat
        then Ok (bits_to_int (word_at (data f) (pos f)) =? SYNC_WORD,
                 mkfile (data f) (pos f + 4))
        else Err TruncatedStream
      else Ok (false, mkfile (data f) (S (pos f)))
  end.
Proof.
  destruct f as [d p]. unfold sync_step, bind, read1, lift, ord. cbn [data pos].
  destruct (nth_error d p) as [b|]; [|reflexivity].
  fold (byte_val b). destruct (byte_val b =? 170); [|reflexivity].
  unfold seek_back1. cbn [data pos]. rewrite parse_word_eq. cbn [data pos].
  replace (S p - 1)%nat with p by lia.
  destruct (p + 4 <=? List.length d)%nat; reflexivity.
Qed.

Lemma sync_step_progress f b f' :
  sync_step f = Ok (b, f') ->
  data f' = data f /\ (pos f < pos f')%nat /\ (pos f' <= List.length (data f))%nat.
Proof.
  rewrite sync_step_eq.
  destruct (nth_error (data f) (pos f)) as [x|] eqn:E; [|discriminate].
  assert (pos f < List.length (data f))%nat by (apply nth_error_Some; congruence).
  destruct (byte_val x =? 170).
  - destruct (Nat.leb_spec (pos f + 4) (List.length (data f))); [|discriminate].
    intros H'; inversion H'; subst; cbn [data pos]. repeat split; lia.
  - intros H'; inversion H'; subst; cbn [data pos]. repeat split; lia.
Qed.

Lemma sync_search_progress fuel : forall f r f',
  sync_search fuel f = Ok (r, f') ->
  data f' = data f /\ (remaining f' <= remaining f)%nat.
Proof.
  induction fuel as [|k IH]; intros f r f' H; simpl in H.
  - inversion H; auto.
  - unfold bind in H. destruct (sync_step f) as [[b f1]|] eqn:E; [|discriminate].
    apply sync_step_progress in E as (D & P & B).
    assert (R : (remaining f1 <= remaining f)%nat) by (unfold remaining; rewrite D; lia).
    destruct b.
    + inversion H; subst. auto.
    + apply IH in H as [D' R']. split; [congruence|lia].
Qed.

Lemma sync_search_terminates fuel : forall f f',
  (remaining f < fuel)%nat -> sync_search fuel f <> Ok (OutOfFuel, f').
Proof.
  induction fuel as [|k IH]; intros f f' R; [lia|]. simpl.
  unfold bind. destruct (sync_step f) as [[b f1]|] eqn:E; [|discriminate].
  apply sync_step_progress in E as (D & P & B).
  destruct b; [discriminate|].
  apply IH. unfold remaining in *. rewrite D. lia.
Qed.

(** ** The packet scan *)

Lemma scan_step_inv flag f o f' :
  scan_step flag f = Ok (o, f') ->
  let w := word_at (data f) (pos f) in
  (pos f + 4 <= List.length (data f))%nat /\ data f' = data f /\
  (pos f' <= List.length (data f))%nat /\
  match o with
  | InConfigData len =>
      flag = true /\ is_type2 w = true /\ len = packet_2_length w /\
      pos f' = (pos f + 4)%nat
  | KeepScanning flag' =>
      is_type2 w && flag = false /\ flag' = fdri_write_setup w /\
      pos f' = (pos f + 4
                + (if is_type1 w then 4 * Z.to_nat (packet_1_length w) else 0))%nat
  end.
Proof.
  intros H w. unfold scan_step, bind in H.
  destruct (parse_word f) as [[w' f1]|] eqn:E; [|discriminate].
  apply parse_word_inv in E as (L & -> & ->). fold w in H.
  split; [assumption|].
  destruct (is_type2 w && flag) eqn:T2.
  - inversion H; subst. cbn [data pos].
    apply andb_true_iff in T2 as [? ?]. repeat split; auto.
  - unfold fdri_write_setup. destruct (is_type1 w) eqn:T1.
    + destruct (read_words _ _) as [[ws f2]|] eqn:R; [|discriminate].
      apply read_words_pos in R as (P & D & B). cbn [data pos] in *.
      inversion H; subst.
      repeat split; auto; try lia.
    + inversion H; subst. cbn [data pos]. repeat split; auto; lia.
Qed.

Lemma scan_packets_terminates fuel : forall flag f f',
  (remaining f < fuel)%nat -> scan_packets fuel flag f <> Ok (OutOfFuel, f').
Proof.
  induction fuel as [|k IH]; intros flag f f' R; [lia|]. simpl.
  unfold bind. destruct (scan_step flag f) as [[o f1]|] eqn:E; [|discriminate].
  apply scan_step_inv in E as (L & D & B & M).
  destruct o as [len|flag']; [discriminate|].
  destruct M as (_ & _ & P).
  apply IH. unfold remaining in *. rewrite D. lia.
Qed.

(** [find_config_packet] always comes to an end: it returns or raises. *)
Lemma find_config_packet_terminates f f' :
  find_config_packet f <> Ok (OutOfFuel, f').
Proof.
  unfold find_config_packet, find_config_packet_fuel, bind.
  destruct (read_part_name f) as [[part f0]|] eqn:E0; [|discriminate].
  apply advances_read_part_name in E0 as [D0 P0].
  assert (R0 : (remaining f0 <= remaining f)%nat) by (unfold remaining; rewrite D0; lia).
  destruct (sync_search _ f0) as [[[[]|] fs]|] eqn:E1; [| |discriminate].
  - apply sync_search_progress in E1 as [D1 R1].
    destruct (scan_packets _ false fs) as [[[len|] f2]|] eqn:E2; try discriminate.
    exfalso. revert E2. apply scan_packets_terminates. lia.
  - exfalso. revert E1. apply sync_search_terminates. lia.
Qed.

(** ** Header fields as parts of the word's value *)

Lemma byte_bits_are_bits v : Forall is_bit (byte_bits v).
Proof.
  unfold byte_bits. apply Forall_forall. intros b Hb.
  apply in_map_iff in Hb as (i & <- & _).
  rewrite land_shiftr_bit by lia.
  destruct (Z.testbit v (Z.of_nat i)); [right|left]; reflexivity.
Qed.

Lemma word_at_bits d p : Forall is_bit (word_at d p).
Proof.
  unfold word_at. apply Forall_forall. intros b Hb.
  apply in_flat_map in Hb as (v & _ & Hb).
  pose proof (byte_bits_are_bits v) as F.
  rewrite Forall_forall in F. now apply F.
Qed.

Lemma bits_value_bound l :
  Forall is_bit l -> 0 <= bits_value l < 2 ^ Z.of_nat (List.length l).
Proof.
  induction 1 as [|b l Hb _ IH]; cbn [bits_value List.length].
  - change (Z.of_nat 0) with 0. rewrite Z.pow_0_r. lia.
  - rewrite Nat2Z.inj_succ, Z.pow_succ_r by lia. destruct Hb; subst; lia.
Qed.

Lemma Forall_firstn_skipn {A} (P : A -> Prop) n l :
  Forall P l -> Forall P (firstn n l) /\ Forall P (skipn n l).
Proof.
  intros F. rewrite <- (firstn_skipn n l) in F. now apply Forall_app in F.
Qed.

Lemma bits_value_firstn n l :
  Forall is_bit l -> bits_value (firstn n l) = bits_value l mod 2 ^ Z.of_nat n.
Proof.
  intros F. destruct (Forall_firstn_skipn _ n l F) as [F1 _].
  pose proof (bits_value_bound _ F1) as B1.
  destruct (Nat.le_gt_cases n (List.length l)) as [L|L].
  - rewrite length_firstn, Nat.min_l in B1 by assumption.
    rewrite <- (firstn_skipn n l) at 2. rewrite bits_value_app.
    rewrite length_firstn, Nat.min_l by assumption.
    set (a := bits_value (firstn n l)) in *. set (b := bits_value (skipn n l)).
    replace (a + 2 ^ Z.of_nat n * b) with (a + b * 2 ^ Z.of_nat n) by ring.
    rewrite Z.mod_add by lia. symmetry. now apply Z.mod_small.
  - rewrite firstn_all2 in * by lia.
    symmetry. apply Z.mod_small. split; [lia|].
    apply Z.lt_le_trans with (2 ^ Z.of_nat (List.length l)); [lia|].
    apply Z.pow_le_mono_r; lia.
Qed.

Lemma bits_value_skipn n l :
  Forall is_bit l -> bits_value (skipn n l) = bits_value l / 2 ^ Z.of_nat n.
Proof.
  intros F. destruct (Forall_firstn_skipn _ n l F) as [F1 _].
  pose proof (bits_value_bound _ F1) as B1.
  destruct (Nat.le_gt_cases n (List.length l)) as [L|L].
  - rewrite length_firstn, Nat.min_l in B1 by assumption.
    rewrite <- (firstn_skipn n l) at 2. rewrite bits_value_app.
    rewrite length_firstn, Nat.min_l by assumption.
    set (a := bits_value (firstn n l)) in *. set (b := bits_value (skipn n l)).
    replace (a + 2 ^ Z.of_nat n * b) with (a + b * 2 ^ Z.of_nat n) by ring.
    rewrite Z.div_add by lia. rewrite Z.div_small by assumption. lia.
  - rewrite skipn_all2 by lia. rewrite firstn_all2 in * by lia.
    cbn [bits_value]. symmetry. apply Z.div_small. split; [lia|].
    apply Z.lt_le_trans with (2 ^ Z.of_nat (List.length l)); [lia|].
    apply Z.pow_le_mono_r; lia.
Qed.

(** The decoders of [find_config_packet] read fields of the word's
    integer value: the Type-2 length is its low 27 bits; the Type-1
    length, address and opcode are bits 0..10, 13..26 and 27..28. *)
Lemma header_fields_of_value d p :
  let w := word_at d p in
  let v := bits_to_int w in
  packet_2_length w = v mod 2 ^ 27 /\
  packet_1_length w = v mod 2 ^ 11 /\
  packet_1_addr w = (v mod 2 ^ 27) / 2 ^ 13 /\
  packet_1_opcode w = (v mod 2 ^ 29) / 2 ^ 27.
Proof.
  intros w v. pose proof (word_at_bits d p) as F. fold w in F.
  unfold packet_2_length, packet_1_length, packet_1_addr, packet_1_opcode, slice, v.
  rewrite !sum_shifted_value, bits_to_int_value.
  repeat split.
  - now rewrite (bits_value_firstn 27).
  - now rewrite (bits_value_firstn 11).
  - rewrite (bits_value_skipn 13), (bits_value_firstn 27); auto.
    now apply Forall_firstn_skipn.
  - rewrite (bits_value_skipn 27), (bits_value_firstn 29); auto.
    now apply Forall_firstn_skipn.
Qed.

Lemma fdri_write_setup_inv w :
  fdri_write_setup w = true ->
  is_type1 w = true /\ packet_1_opcode w = 2 /\ packet_1_addr w = 2 /\
  packet_1_length w = 0.
Proof.
  unfold fdri_write_setup. rewrite !andb_true_iff, !Z.eqb_eq. tauto.
Qed.

(** When the scan leaves its loop, the word just read is a Type-2 header
    at some offset [q]; either the scan started there with the flag
    already set, or the word before it is the FDRI write setup. *)
Lemma scan_packets_found fuel : forall flag f len f',
  scan_packets fuel flag f = Ok (Done len, f') ->
  exists q,
    (pos f <= q)%nat /\ pos f' = (q + 4)%nat /\ data f' = data f /\
    (q + 4 <= List.length (data f))%nat /\
    is_type2 (word_at (data f) q) = true /\
    len = packet_2_length (word_at (data f) q) /\
    ((q = pos f /\ flag = true) \/
     ((pos f + 4 <= q)%nat /\ fdri_write_setup (word_at (data f) (q - 4)) = true)).
Proof.
  induction fuel as [|k IH]; intros flag f len f' H; simpl in H; [discriminate|].
  unfold bind in H. destruct (scan_step flag f) as [[o f1]|] eqn:E; [|discriminate].
  apply scan_step_inv in E as (L & D & B & M).
  destruct o as [len'|flag'].
  - destruct M as (Fl & T2 & Len & P). inversion H; subst.
    exists (pos f). repeat split; auto.
  - destruct M as (_ & Fl & P).
    apply IH in H as (q & Q1 & Q2 & Q3 & Q4 & Q5 & Q6 & Q7).
    rewrite D in *.
    exists q. repeat split; auto; try lia.
    right. destruct Q7 as [[-> Ftrue]|[Q7 S7]].
    + rewrite Ftrue in Fl. symmetry in Fl.
      destruct (fdri_write_setup_inv _ Fl) as (T1 & _ & _ & L0).
      rewrite T1, L0 in P. cbn in P. rewrite P.
      split; [lia|]. replace (pos f + 4 + 0 - 4)%nat with (pos f) by lia. exact Fl.
    + split; [lia|exact S7].
Qed.

(** The decoders of the scan, on a word of the file, read the fields of
    the header as the format lays them out. *)
Lemma word_value_bits d p :
  (p + 4 <= List.length d)%nat -> bits_to_int (word_at d p) = word_value d p.
Proof.
  intros L. unfold word_at, word_value.
  assert (H : List.length (firstn 4 (skipn p d)) = 4%nat)
    by (rewrite length_firstn, length_skipn; lia).
  destruct (firstn 4 (skipn p d)) as [|b0 [|b1 [|b2 [|b3 [|]]]]]; try discriminate.
  cbn [map rev app flat_map fold_left].
  rewrite app_nil_r, bits_to_int_value, !bits_value_app, !byte_bits_value.
  unfold byte_bits. cbn [seq map List.length]. change (Z.of_nat 8) with 8. ring.
Qed.

Lemma tag_of_value w :
  List.length w = 32%nat -> Forall is_bit w ->
  (is_type1 w = true <-> header_type (bits_to_int w) = 1) /\
  (is_type2 w = true <-> header_type (bits_to_int w) = 2).
Proof.
  intros L F. unfold header_type.
  rewrite (is_type1_bits _ L), (is_type2_bits _ L), bits_to_int_value.
  change 29 with (Z.of_nat 29). rewrite <- (bits_value_skipn 29 _ F).
  destruct (Forall_firstn_skipn _ 29 _ F) as [_ F3].
  do 33 (destruct w as [|? w]; try discriminate).
  cbn [skipn nth bits_value] in *.
  apply Forall_cons_iff in F3 as [B29 F3]. apply Forall_cons_iff in F3 as [B30 F3].
  apply Forall_cons_iff in F3 as [B31 _].
  destruct B29, B30, B31; subst; split; split; intros H; try lia;
    repeat split; try reflexivity; try (destruct H as (? & ? & ?); lia).
Qed.

Lemma field_of_value v a b :
  0 <= v -> 0 <= a -> 0 <= b ->
  (v mod 2 ^ (a + b)) / 2 ^ a = (v / 2 ^ a) mod 2 ^ b.
Proof.
  intros Hv Ha Hb.
  assert (Pa : 0 < 2 ^ a) by (apply Z.pow_pos_nonneg; lia).
  assert (Pb : 0 < 2 ^ b) by (apply Z.pow_pos_nonneg; lia).
  rewrite Z.pow_add_r, Z.rem_mul_r by lia.
  rewrite (Z.mul_comm (2 ^ a)), Z.div_add by lia.
  rewrite Z.div_small by (apply Z.mod_pos_bound; lia). lia.
Qed.

Lemma header_of_value d p :
  (p + 4 <= List.length d)%nat ->
  let w := word_at d p in
  let v := word_value d p in
  is_type1 w = (header_type v =? 1) /\
  is_type2 w = (header_type v =? 2) /\
  packet_1_length w = type1_word_count v /\
  packet_2_length w = type2_word_count v /\
  fdri_write_setup w = fdri_setup_value v.
Proof.
  intros L w v.
  pose proof (word_at_bits d p) as F. pose proof (word_at_length d p L) as Len.
  pose proof (word_value_bits d p L) as V. fold w v in F, Len, V.
  destruct (tag_of_value w Len F) as [T1 T2]. rewrite V in T1, T2.
  destruct (header_fields_of_value d p) as (L27 & L11 & Ad & Op).
  fold w in L27, L11, Ad, Op. rewrite V in L27, L11, Ad, Op.
  assert (Nv : 0 <= v).
  { rewrite <- V, bits_to_int_value. apply bits_value_bound, F. }
  assert (E1 : is_type1 w = (header_type v =? 1)).
  { destruct (is_type1 w), (Z.eqb_spec (header_type v) 1); auto.
    - exfalso. apply n, T1. reflexivity.
    - apply T1 in e. discriminate. }
  assert (E2 : is_type2 w = (header_type v =? 2)).
  { destruct (is_type2 w), (Z.eqb_spec (header_type v) 2); auto.
    - exfalso. apply n, T2. reflexivity.
    - apply T2 in e. discriminate. }
  repeat split; auto.
  unfold fdri_write_setup, fdri_setup_value, type1_opcode, type1_address.
  rewrite E1, L11, Ad, Op.
  rewrite <- (field_of_value v 13 14), <- (field_of_value v 27 2) by lia.
  reflexivity.
Qed.

(** One turn of the scan moves the cursor from a header to the next
    header. *)
Lemma scan_step_next_header flag f o f' :
  scan_step flag f = Ok (o, f') ->
  let v := word_value (data f) (pos f) in
  (pos f + 4 <= List.length (data f))%nat /\ data f' = data f /\
  (pos f' <= List.length (data f))%nat /\
  match o with
  | InConfigData len =>
      flag = true /\ header_type v = 2 /\ len = type2_word_count v /\
      pos f' = (pos f + 4)%nat
  | KeepScanning flag' =>
      flag && (header_type v =? 2) = false /\ flag' = fdri_setup_value v /\
      pos f' = next_header (data f) (pos f)
  end.
Proof.
  intros H v. apply scan_step_inv in H as (L & D & B & M).
  destruct (header_of_value (data f) (pos f) L) as (E1 & E2 & L11 & L27 & S).
  fold v in E1, E2, L11, L27, S.
  repeat split; auto.
  destruct o as [len|flag'].
  - destruct M as (Fl & T2 & -> & P). rewrite E2 in T2.
    apply Z.eqb_eq in T2. auto.
  - destruct M as (T2 & -> & P). rewrite E2 in T2.
    repeat split; auto.
    + now rewrite andb_comm.
    + unfold next_header. fold v. now rewrite <- E1, <- L11.
Qed.

Lemma pending_at_next d h flag i :
  pending_at d h flag (S i)
  = pending_at d (next_header d h) (fdri_setup_value (word_value d h)) i.
Proof. destruct i; reflexivity. Qed.

(** The scan ends at the first header that is a Type-2 header while the
    flag is pending. *)
Lemma scan_packets_chain fuel : forall flag f len f',
  scan_packets fuel flag f = Ok (Done len, f') ->
  exists m,
    pending_at (data f) (pos f) flag m = true /\
    header_type (word_value (data f) (header_at (data f) (pos f) m)) = 2 /\
    len = type2_word_count (word_value (data f) (header_at (data f) (pos f) m)) /\
    pos f' = (header_at (data f) (pos f) m + 4)%nat /\ data f' = data f /\
    (pos f' <= List.length (data f))%nat /\
    forall i, (i < m)%nat ->
      pending_at (data f) (pos f) flag i
      && (header_type (word_value (data f) (header_at (data f) (pos f) i)) =? 2)
      = false.
Proof.
  induction fuel as [|k IH]; intros flag f len f' H; cbn [scan_packets] in H;
    [discriminate|].
  unfold bind in H. destruct (scan_step flag f) as [[o f1]|] eqn:E; [|discriminate].
  apply scan_step_next_header in E as (L & D & B & M).
  destruct o as [len'|flag'].
  - destruct M as (Fl & T2 & Len & P). inversion H; subst.
    exists 0%nat. cbn [pending_at header_at]. repeat split; auto. lia.
  - destruct M as (N2 & Fl & P).
    apply IH in H as (m & Pm & T2 & Len & Pf & Df & Bf & First).
    rewrite D, P, Fl in *.
    exists (S m). rewrite pending_at_next. cbn [header_at].
    repeat split; auto.
    intros [|i] Hi.
    + exact N2.
    + rewrite pending_at_next. cbn [header_at]. apply First. lia.
Qed.

(** C1. When [find_config_packet] returns a payload length, the scan
    that starts behind the sync word has gone from header to header, a
    Type-1 header being followed by the payload words its word count
    announces, which are read and dropped, and has stopped at the first
    Type-2 header that comes directly after a Type-1 header with opcode
    2, address 2 and word count 0: no earlier header of the chain is
    such a pair's first word, so a header read in between has cleared
    the eligibility.  The value returned is the low 27 bits of that
    Type-2 header, and the cursor is left on the first word after it. *)
Theorem find_config_packet_fdri_pair f part len f' :
  find_config_packet f = Ok (Done (part, len), f') ->
  exists f0 fs n,
    read_part_name f = Ok (part, f0) /\
    sync_search (S (remaining f)) f0 = Ok (Done tt, fs) /\
    let d := data f in
    let header := header_at d (pos fs) in
    let v1 := word_value d (header n) in
    let v2 := word_value d (header (S n)) in
    header_type v1 = 1 /\ type1_opcode v1 = 2 /\ type1_address v1 = 2 /\
    type1_word_count v1 = 0 /\
    header (S n) = (header n + 4)%nat /\
    header_type v2 = 2 /\
    len = v2 mod 2 ^ 27 /\
    pos f' = (header (S n) + 4)%nat /\ data f' = d /\
    (pos f' <= List.length d)%nat /\
    forall i, (i < n)%nat ->
      fdri_setup_value (word_value d (header i)) = true ->
      header_type (word_value d (header (S i))) <> 2.
Proof.
  intros H.
  unfold find_config_packet, find_config_packet_fuel, bind in H.
  destruct (read_part_name f) as [[part0 f0]|] eqn:E0; [|discriminate].
  destruct (sync_search _ f0) as [[[[]|] fs]|] eqn:E1; try discriminate.
  destruct (scan_packets _ false fs) as [[[len0|] f2]|] eqn:E2; try discriminate.
  inversion H; subst.
  apply advances_read_part_name in E0 as E0'. destruct E0' as [D0 _].
  apply sync_search_progress in E1 as E1'. destruct E1' as [D1 _].
  apply scan_packets_chain in E2 as (m & Pm & T2 & Len & Pf & Df & Bf & First).
  rewrite D1, D0 in *.
  destruct m as [|n]; [discriminate|]. cbn [pending_at] in Pm.
  exists f0, fs, n. split; [reflexivity|]. split; [exact E1|]. cbv zeta.
  pose proof Pm as S1. unfold fdri_setup_value in S1.
  rewrite !andb_true_iff, !Z.eqb_eq in S1. destruct S1 as (((T1 & Op) & Ad) & Le).
  assert (Nx : header_at (data f) (pos fs) (S n)
               = (header_at (data f) (pos fs) n + 4)%nat).
  { clear - T1 Le. revert T1 Le. generalize (pos fs) as h.
    induction n as [|n IH]; intros h T1 Le; cbn [header_at] in *.
    - unfold next_header. apply Z.eqb_eq in T1. rewrite T1, Le. cbn. lia.
    - apply IH; assumption. }
  repeat split; auto.
  intros i Hi Si T2i.
  specialize (First (S i) ltac:(lia)). cbn [pending_at] in First.
  rewrite Si in First. apply Z.eqb_eq in T2i. rewrite T2i in First. discriminate.
Qed.

Lemma find_config_packet_fdri_pair_sample :
  find_config_packet (mkfile sample_bitstream 0)
    = Ok (Done ("xc7a35t-1"%string, 202), mkfile sample_bitstream 38) /\
  exists n,
    let header := header_at sample_bitstream 26 in
    fdri_setup_value (word_value sample_bitstream (header n)) = true /\
    header_type (word_value sample_bitstream (header (S n))) = 2 /\
    202 = word_value sample_bitstream (header (S n)) mod 2 ^ 27 /\
    38%nat = (header (S n) + 4)%nat.
Proof.
  split; [reflexivity|].
  destruct (find_config_packet_fdri_pair (mkfile sample_bitstream 0)
              "xc7a35t-1"%string 202 (mkfile sample_bitstream 38) eq_refl)
    as (f0 & fs & n & H1 & H2 & T1 & Op & Ad & Le & _ & T2 & L & P & _).
  assert (F : fs = mkfile sample_bitstream 26).
  { assert (E0 : read_part_name (mkfile sample_bitstream 0)
                 = Ok ("xc7a35t-1"%string, mkfile sample_bitstream 18))
      by (vm_compute; reflexivity).
    rewrite E0 in H1. injection H1 as <-.
    assert (E1 : sync_search (S (remaining (mkfile sample_bitstream 0)))
                   (mkfile sample_bitstream 18)
                 = Ok (Done tt, mkfile sample_bitstream 26))
      by (vm_compute; reflexivity).
    rewrite E1 in H2. now injection H2 as <-. }
  subst fs. cbn [data pos] in *.
  exists n. cbv zeta. unfold fdri_setup_value.
  rewrite T1, Op, Ad, Le. repeat split; assumption.
Defined.

(** C3: the search does not resume at the byte after a failed 0xAA
    candidate.  In the stream below the sync word starts at offset 19,
    right after a stray 0xAA byte at offset 18: the turn taken at
    offset 18 reads the word AA AA 99 55 and leaves the cursor at
    offset 22, inside the sync word, so the search runs to the end of
    the file although the same stream without the stray byte is
    accepted. *)
Theorem sync_search_skips_overlapping_sync_word :
  let stream := sample_header ++ [xaa] ++ [xaa; x99; x55; x66] ++ sample_packets in
  bits_to_int (word_at stream 19) = SYNC_WORD /\
  sync_step (mkfile stream 18) = Ok (false, mkfile stream 22) /\
  find_config_packet (mkfile stream 0) = Err TruncatedStream /\
  find_config_packet
    (mkfile (sample_header ++ [xaa; x99; x55; x66] ++ sample_packets) 0)
  = Ok (Done ("xc7a35t-1"%string, 202),
        mkfile (sample_header ++ [xaa; x99; x55; x66] ++ sample_packets) 34).
Proof. repeat split; vm_compute; reflexivity. Qed.

(** After a 0xAA byte whose word is not the sync word the cursor is four
    bytes further, not one. *)
Lemma sync_step_failed_candidate f b :
  nth_error (data f) (pos f) = Some b -> byte_val b = 170 ->
  (pos f + 4 <= List.length (data f))%nat ->
  bits_to_int (word_at (data f) (pos f)) <> SYNC_WORD ->
  sync_step f = Ok (false, mkfile (data f) (pos f + 4)).
Proof.
  intros Hb H170 L Hw. rewrite sync_step_eq, Hb, H170, Z.eqb_refl.
  destruct (Nat.leb_spec (pos f + 4) (List.length (data f))); [|lia].
  apply Z.eqb_neq in Hw. now rewrite Hw.
Qed.

(** ** The configuration-frame decoder *)

Lemma enumerate_from_nth {A} (d : A) (l : list A) : forall s,
  combine (seq s (List.length l)) l
  = map (fun k => (k, nth (k - s) l d)) (seq s (List.length l)).
Proof.
  induction l as [|x l IH]; intros s; cbn [List.length seq combine map].
  - reflexivity.
  - rewrite Nat.sub_diag. cbn [nth]. f_equal.
    rewrite IH. apply map_ext_in. intros k Hk. apply in_seq in Hk.
    replace (k - s)%nat with (S (k - S s)) by lia. reflexivity.
Qed.

Lemma enumerate_nth {A} (d : A) (l : list A) :
  enumerate l = map (fun k => (k, nth k l d)) (seq 0 (List.length l)).
Proof.
  unfold enumerate. rewrite (enumerate_from_nth d).
  apply map_ext. intros k. now rewrite Nat.sub_0_r.
Qed.

(** On a 32-bit word the loop over [enumerate(word)] names the bits the
    format description asks for. *)
Lemma word_high_bits_eq fr word_offset word :
  List.length word = 32%nat ->
  word_high_bits fr word_offset word = high_bits_of_word (fst fr) word_offset word.
Proof.
  intros L. unfold word_high_bits, high_bits_of_word.
  rewrite (enumerate_nth 0), L, flat_map_concat_map, map_map.
  now rewrite <- flat_map_concat_map.
Qed.

Lemma frame_words_inv offsets fr : forall st f st' f',
  frame_words offsets fr st f = Ok (st', f') ->
  data f' = data f /\
  pos f' = (pos f + 4 * List.length offsets)%nat /\
  (offsets = [] \/ pos f' <= List.length (data f))%nat /\
  fst st' = fst st - Z.of_nat (List.length offsets) /\
  snd st' = snd st ++ words_high_bits (data f) (pos f) (fst fr) offsets.
Proof.
  induction offsets as [|wo rest IH]; intros st f st' f' H;
    cbn [frame_words words_high_bits List.length] in *.
  - inversion H; subst. rewrite app_nil_r. repeat split; auto; lia.
  - unfold bind in H. destruct (parse_word f) as [[w f1]|] eqn:E; [|discriminate].
    apply parse_word_inv in E as (L & -> & ->).
    apply IH in H as (D & P & B & R & S). cbn [data pos fst snd] in *.
    rewrite word_high_bits_eq in S by now apply word_at_length.
    repeat split; auto; try lia.
    + right. destruct B as [->|B]; [cbn [List.length] in P|]; lia.
    + now rewrite S, app_assoc.
Qed.

Lemma frame_words_ok offsets fr : forall st f,
  (pos f + 4 * List.length offsets <= List.length (data f))%nat ->
  exists st', frame_words offsets fr st f
              = Ok (st', mkfile (data f) (pos f + 4 * List.length offsets)).
Proof.
  induction offsets as [|wo rest IH]; intros st f L; cbn [frame_words List.length] in *.
  - exists st. unfold ret. destruct f; cbn [data pos]. do 3 f_equal. lia.
  - unfold bind. rewrite parse_word_eq.
    destruct (Nat.leb_spec (pos f + 4) (List.length (data f))); [|lia].
    destruct (IH (fst st - 1, snd st ++ word_high_bits fr wo (word_at (data f) (pos f)))
                 (mkfile (data f) (pos f + 4))) as (st' & E).
    { cbn [data pos]. lia. }
    exists st'. rewrite E. cbn [data pos]. do 3 f_equal. lia.
Qed.

Lemma flat_map_ext_seq {B} (g h : nat -> list B) s n :
  (forall k, (s <= k < s + n)%nat -> g k = h k) ->
  flat_map g (seq s n) = flat_map h (seq s n).
Proof.
  intros H. rewrite !flat_map_concat_map. f_equal.
  apply map_ext_in. intros k Hk. apply in_seq in Hk. now apply H.
Qed.

Lemma words_high_bits_seq d hex n : forall s p,
  words_high_bits d p hex (seq s n)
  = flat_map (fun wo => high_bits_of_word hex wo (word_at d (p + 4 * (wo - s))))
             (seq s n).
Proof.
  induction n as [|n IH]; intros s p; cbn [seq words_high_bits flat_map].
  - reflexivity.
  - rewrite Nat.sub_diag, Nat.mul_0_r, Nat.add_0_r. f_equal.
    rewrite IH. apply flat_map_ext_seq. intros k Hk.
    do 2 f_equal. lia.
Qed.

Lemma words_high_bits_frame d p fr :
  words_high_bits d p (fst fr) (seq 0 FRAME_LENGTH) = high_bits_of_frame d p fr.
Proof.
  rewrite words_high_bits_seq. unfold high_bits_of_frame, FRAME_LENGTH.
  apply flat_map_ext_seq. intros k _. now rewrite Nat.sub_0_r.
Qed.

Lemma skip_row_boundary_inv prev fr st f st' f' :
  skip_row_boundary prev fr st f = Ok (st', f') ->
  let extra := if row_changed prev fr then 202%nat else 0%nat in
  data f' = data f /\ pos f' = (pos f + 4 * extra)%nat /\
  (pos f' <= List.length (data f) \/ extra = 0)%nat /\
  st' = (fst st - Z.of_nat extra, snd st).
Proof.
  intros H extra. unfold skip_row_boundary in H. subst extra.
  destruct (row_changed prev fr).
  - unfold bind in H. rewrite skip_words_eq in H. unfold FRAME_LENGTH in *.
    change (101 * 2)%nat with 202%nat in H.
    change (202 =? 0)%nat with false in H. rewrite orb_false_r in H.
    destruct (Nat.leb_spec (pos f + 4 * 202) (List.length (data f))) as [L|L];
      [|discriminate].
    unfold ret in H. inversion H; subst. cbn [data pos].
    repeat split; auto.
  - inversion H; subst. destruct st'. cbn [fst snd].
    repeat split; auto; try lia. f_equal. lia.
Qed.

Lemma decode_frame_inv prev fr st f st' f' :
  decode_frame prev fr st f = Ok (st', f') ->
  let extra := if row_changed prev fr then 202%nat else 0%nat in
  data f' = data f /\
  pos f' = (pos f + 4 * (extra + 101))%nat /\
  (pos f' <= List.length (data f))%nat /\
  fst st' = fst st - Z.of_nat (extra + 101) /\
  snd st' = snd st ++ high_bits_of_frame (data f) (pos f + 4 * extra) fr.
Proof.
  intros H extra. unfold decode_frame, bind in H.
  destruct (skip_row_boundary prev fr st f) as [[st1 f1]|] eqn:E; [|discriminate].
  apply skip_row_boundary_inv in E as (D1 & P1 & _ & ->). fold extra in P1.
  apply frame_words_inv in H as (D2 & P2 & B2 & R2 & S2).
  rewrite words_high_bits_frame in S2. cbn [fst snd] in *.
  rewrite length_seq in *. unfold FRAME_LENGTH in *. rewrite D1, P1 in *.
  fold extra in R2.
  repeat split; auto; try lia.
  destruct B2 as [B2|B2]; [discriminate|lia].
Qed.

Lemma walk_frames_inv frames : forall prev st f st' f',
  walk_frames frames prev st f = Ok (st', f') ->
  data f' = data f /\
  pos f' = (pos f + 4 * words_consumed prev frames)%nat /\
  (frames = [] \/ pos f' <= List.length (data f))%nat /\
  fst st' = fst st - Z.of_nat (words_consumed prev frames) /\
  snd st' = snd st ++ flat_map (fun '(fr, start) => high_bits_of_frame (data f) start fr)
                               (combine frames (frame_starts (pos f) prev frames)).
Proof.
  induction frames as [|fr rest IH]; intros prev st f st' f' H;
    cbn [walk_frames words_consumed frame_starts combine flat_map] in *.
  - inversion H; subst. rewrite app_nil_r. repeat split; auto; lia.
  - unfold bind in H.
    destruct (decode_frame prev fr st f) as [[st1 f1]|] eqn:E; [|discriminate].
    apply decode_frame_inv in E as (D1 & P1 & B1 & R1 & S1).
    apply IH in H as (D2 & P2 & B2 & R2 & S2).
    rewrite D1, P1 in *. rewrite S1 in S2. rewrite R1 in R2.
    repeat split; auto; try lia.
    + right. destruct B2 as [->|B2]; [cbn [words_consumed] in P2|]; lia.
    + rewrite S2, <- app_assoc. do 2 f_equal.
      * destruct (row_changed prev fr); f_equal; lia.
      * destruct (row_changed prev fr); do 3 f_equal; lia.
Qed.

Lemma last_cons_default {A} (l : list A) : forall x d, last (x :: l) d = last l x.
Proof.
  induction l as [|y l IH]; intros x d; [reflexivity|].
  change (last (x :: y :: l) d) with (last (y :: l) d).
  rewrite !IH. reflexivity.
Qed.

Lemma walk_frames_app l1 : forall l2 prev st f,
  walk_frames (l1 ++ l2) prev st f =
  match walk_frames l1 prev st f with
  | Ok (st1, f1) => walk_frames l2 (last l1 prev) st1 f1
  | Err e => Err e
  end.
Proof.
  induction l1 as [|fr l1 IH]; intros l2 prev st f.
  - reflexivity.
  - cbn [app walk_frames]. unfold bind.
    destruct (decode_frame prev fr st f) as [[st1 f1]|]; [|reflexivity].
    rewrite IH. destruct (walk_frames l1 fr st1 f1) as [[st2 f2]|]; [|reflexivity].
    now rewrite last_cons_default.
Qed.

Lemma parse_config_packet_inv len frames f bits f' :
  parse_config_packet len frames f = Ok (bits, f') ->
  exists frame0 rest st,
    frames = frame0 :: rest /\ len mod 101 = 0 /\
    walk_frames frames frame0 (len, []) f = Ok (st, f') /\
    fst st = 202 /\ snd st = bits.
Proof.
  unfold parse_config_packet. unfold FRAME_LENGTH.
  change (Z.of_nat 101) with 101. change (2 * 101) with 202.
  destruct (Z.eqb_spec (len mod 101) 0) as [M|M]; [|discriminate].
  cbn [negb]. destruct frames as [|frame0 rest]; [discriminate|].
  unfold bind. destruct (walk_frames _ _ _ f) as [[st f1]|] eqn:E; [|discriminate].
  destruct (Z.eqb_spec (fst st) 202) as [R|R]; [|discriminate].
  cbn [negb]. intros H; inversion H; subst.
  exists frame0, rest, st. auto.
Qed.

(** The decoder returns on every payload that is long enough and
    announces 202 words more than the frames take. *)
Lemma decode_frame_ok prev fr st f :
  (pos f + 4 * ((if row_changed prev fr then 202 else 0) + 101)
   <= List.length (data f))%nat ->
  exists st',
    decode_frame prev fr st f
    = Ok (st', mkfile (data f)
                 (pos f + 4 * ((if row_changed prev fr then 202 else 0) + 101))).
Proof.
  intros L. unfold decode_frame, skip_row_boundary, bind.
  destruct (row_changed prev fr).
  - rewrite skip_words_eq. unfold FRAME_LENGTH in *.
    change (101 * 2)%nat with 202%nat.
    destruct (Nat.leb_spec (pos f + 4 * 202) (List.length (data f))); [|lia].
    cbn [orb]. unfold ret.
    destruct (frame_words_ok (seq 0 101) fr (fst st - Z.of_nat 202, snd st)
                (mkfile (data f) (pos f + 4 * 202))) as (st' & E).
    { cbn [data pos]. rewrite length_seq. lia. }
    exists st'. rewrite E. cbn [data pos]. rewrite length_seq. do 3 f_equal; lia.
  - unfold ret.
    destruct (frame_words_ok (seq 0 FRAME_LENGTH) fr st f) as (st' & E).
    { rewrite length_seq. unfold FRAME_LENGTH. lia. }
    exists st'. rewrite E. rewrite length_seq. unfold FRAME_LENGTH.
    do 3 f_equal; lia.
Qed.

Lemma walk_frames_ok frames : forall prev st f,
  (pos f + 4 * words_consumed prev frames <= List.length (data f))%nat ->
  exists st',
    walk_frames frames prev st f
    = Ok (st', mkfile (data f) (pos f + 4 * words_consumed prev frames)).
Proof.
  induction frames as [|fr rest IH]; intros prev st [d p] L;
    cbn [walk_frames words_consumed data pos] in *.
  - exists st. unfold ret. do 3 f_equal; lia.
  - unfold bind.
    destruct (decode_frame_ok prev fr st (mkfile d p)) as (st1 & E1).
    { cbn [data pos]. lia. }
    rewrite E1. cbn [data pos].
    destruct (IH fr st1 (mkfile d (p + 4 * ((if row_changed prev fr then 202 else 0) + 101))))
      as (st2 & E2).
    { cbn [data pos]. lia. }
    exists st2. rewrite E2. cbn [data pos]. do 3 f_equal; lia.
Qed.

Lemma words_consumed_multiple frames : forall prev,
  exists k, words_consumed prev frames = (101 * k)%nat.
Proof.
  induction frames as [|fr rest IH]; intros prev; cbn [words_consumed].
  - exists 0%nat. reflexivity.
  - destruct (IH fr) as (k & ->).
    destruct (row_changed prev fr); [exists (3 + k)%nat|exists (1 + k)%nat]; lia.
Qed.

Lemma parse_config_packet_returns frame0 rest f :
  let frames := frame0 :: rest in
  let n := words_consumed frame0 frames in
  (pos f + 4 * n <= List.length (data f))%nat ->
  parse_config_packet (Z.of_nat n + 202) frames f
  = Ok (expected_bits (data f) (pos f) frames, mkfile (data f) (pos f + 4 * n)).
Proof.
  intros frames n L.
  destruct (walk_frames_ok frames frame0 (Z.of_nat n + 202, []) f L) as (st & W).
  pose proof W as W0. apply walk_frames_inv in W0 as (_ & _ & _ & R & S).
  cbn [fst snd app] in R, S. fold n in R.
  unfold parse_config_packet, FRAME_LENGTH. change (Z.of_nat 101) with 101.
  destruct (words_consumed_multiple frames frame0) as (k & K). fold n in K.
  replace ((Z.of_nat n + 202) mod 101) with 0.
  2:{ rewrite K, Nat2Z.inj_mul. change (Z.of_nat 101) with 101.
      replace (101 * Z.of_nat k + 202) with ((Z.of_nat k + 2) * 101) by ring.
      now rewrite Z.mod_mul. }
  cbn [Z.eqb negb]. fold frames. unfold frames at 1. unfold bind. fold frames.
  rewrite W. replace (fst st) with (2 * 101) by lia. cbn [Z.eqb negb Z.mul Pos.mul Pos.eqb].
  unfold ret. now rewrite S.
Qed.

(** C2. Whenever [parse_config_packet] returns a bit list, the list is,
    frame by frame in frame-list order, word offset by word offset
    (0..100), bit offset by bit offset (0..31), one name for each bit
    equal to 1 of the 101 words read for the frame, bits 0..12 of word
    50 left out and bits 13..31 of word 50 kept; the 202 words dropped
    at a row boundary add nothing. *)
Theorem parse_config_packet_high_bits len frames f bits f' :
  parse_config_packet len frames f = Ok (bits, f') ->
  bits = expected_bits (data f) (pos f) frames /\
  (pos f' <= List.length (data f))%nat.
Proof.
  intros H.
  apply parse_config_packet_inv in H as (frame0 & rest & st & -> & _ & W & _ & <-).
  apply walk_frames_inv in W as (_ & _ & B & _ & S).
  cbn [snd app] in S. split; [exact S|].
  destruct B as [B|B]; [discriminate|exact B].
Qed.

Lemma parse_config_packet_high_bits_sample :
  exists bits,
    parse_config_packet 606 sample_frames (mkfile sample_payload 0)
      = Ok (bits, mkfile sample_payload 1616) /\
    bits = expected_bits sample_payload 0 sample_frames /\
    List.length bits = 20%nat /\
    hd_error bits = Some "bit_00000000_050_13"%string /\
    nth_error bits 19 = Some "bit_00020000_003_07"%string.
Proof.
  eexists. split; [vm_compute; reflexivity|].
  split; [|repeat split; reflexivity].
  match goal with |- ?b = _ =>
    apply (parse_config_packet_high_bits 606 sample_frames
             (mkfile sample_payload 0) b (mkfile sample_payload 1616))
  end.
  vm_compute; reflexivity.
Defined.

(** ** Row boundaries and the word counter *)

Lemma slice_17_23 (a : list Z) :
  List.length a = 32%nat ->
  slice 17 23 a = [nth 17 a 0; nth 18 a 0; nth 19 a 0; nth 20 a 0; nth 21 a 0; nth 22 a 0].
Proof.
  intros H. do 33 (destruct a as [|? a]; try discriminate). reflexivity.
Qed.

(** For 32-bit addresses the row-change test compares bits 17..22. *)
Lemma row_changed_bits (prev fr : frame) :
  List.length (snd prev) = 32%nat -> List.length (snd fr) = 32%nat ->
  row_changed prev fr = true <->
  exists i, (17 <= i <= 22)%nat /\ nth i (snd prev) 0 <> nth i (snd fr) 0.
Proof.
  intros La Lb. unfold row_changed. rewrite negb_true_iff.
  rewrite (slice_17_23 _ La), (slice_17_23 _ Lb).
  unfold list_Z_eqb. destruct (list_eq_dec Z.eq_dec _ _) as [E|N]; split.
  - discriminate.
  - intros (i & Hi & D). exfalso. apply D.
    injection E as E17 E18 E19 E20 E21 E22.
    assert (C : (i = 17 \/ i = 18 \/ i = 19 \/ i = 20 \/ i = 21 \/ i = 22)%nat) by lia.
    destruct C as [->|[->|[->|[->|[->| ->]]]]]; assumption.
  - intros _.
    destruct (Z.eq_dec (nth 17 (snd prev) 0) (nth 17 (snd fr) 0)) as [E17|];
      [|exists 17%nat; split; [lia|assumption]].
    destruct (Z.eq_dec (nth 18 (snd prev) 0) (nth 18 (snd fr) 0)) as [E18|];
      [|exists 18%nat; split; [lia|assumption]].
    destruct (Z.eq_dec (nth 19 (snd prev) 0) (nth 19 (snd fr) 0)) as [E19|];
      [|exists 19%nat; split; [lia|assumption]].
    destruct (Z.eq_dec (nth 20 (snd prev) 0) (nth 20 (snd fr) 0)) as [E20|];
      [|exists 20%nat; split; [lia|assumption]].
    destruct (Z.eq_dec (nth 21 (snd prev) 0) (nth 21 (snd fr) 0)) as [E21|];
      [|exists 21%nat; split; [lia|assumption]].
    destruct (Z.eq_dec (nth 22 (snd prev) 0) (nth 22 (snd fr) 0)) as [E22|];
      [|exists 22%nat; split; [lia|assumption]].
    exfalso. apply N. congruence.
  - reflexivity.
Qed.

Lemma row_changed_same fr : row_changed fr fr = false.
Proof.
  unfold row_changed, list_Z_eqb.
  destruct (list_eq_dec Z.eq_dec _ _) as [_|N]; [reflexivity|now destruct N].
Qed.

Lemma frame_starts_length frames : forall p prev,
  List.length (frame_starts p prev frames) = List.length frames.
Proof.
  induction frames as [|fr rest IH]; intros p prev; cbn [frame_starts List.length];
    [reflexivity|now rewrite IH].
Qed.

(** The first word of a frame sits 101 words after the first word of
    the frame before it in the list, and 202 more when the row test
    finds the two frames different. *)
Lemma frame_starts_step frames : forall p prev0 i prev fr,
  nth_error frames i = Some prev -> nth_error frames (S i) = Some fr ->
  nth (S i) (frame_starts p prev0 frames) 0%nat
  = (nth i (frame_starts p prev0 frames) 0 + 4 * 101
     + (if row_changed prev fr then 4 * 202 else 0))%nat.
Proof.
  induction frames as [|a rest IH]; intros p prev0 i prev fr Hi Hs;
    [destruct i; discriminate|].
  destruct i as [|i].
  - cbn [nth_error] in Hi, Hs. injection Hi as ->.
    destruct rest as [|b rest]; [discriminate|]. injection Hs as ->.
    cbn [frame_starts nth].
    destruct (row_changed prev0 prev), (row_changed prev fr); lia.
  - cbn [nth_error] in Hi. change (nth_error (a :: rest) (S (S i)))
      with (nth_error rest (S i)) in Hs.
    cbn [frame_starts nth]. now apply IH.
Qed.

Lemma frame_starts_last frames : forall p prev,
  frames <> [] ->
  (nth (List.length frames - 1) (frame_starts p prev frames) 0 + 4 * 101
   = p + 4 * words_consumed prev frames)%nat.
Proof.
  induction frames as [|a rest IH]; intros p prev N; [now destruct N|].
  destruct rest as [|b rest].
  - cbn [frame_starts words_consumed List.length Nat.sub nth].
    destruct (row_changed prev a); lia.
  - replace (List.length (a :: b :: rest) - 1)%nat
      with (S (List.length (b :: rest) - 1)) by (cbn [List.length]; lia).
    change (frame_starts p prev (a :: b :: rest))
      with ((if row_changed prev a then (p + 4 * 202)%nat else p)
            :: frame_starts ((if row_changed prev a then (p + 4 * 202)%nat else p)
                             + 4 * 101) a (b :: rest)).
    cbn [nth]. rewrite IH by discriminate.
    change (words_consumed prev (a :: b :: rest))
      with ((if row_changed prev a then 202 else 0) + 101
            + words_consumed a (b :: rest))%nat.
    destruct (row_changed prev a); lia.
Qed.

Lemma flat_map_combine_index {A B} (g : A -> nat -> list B) (l : list A) :
  forall (starts : list nat) k,
  List.length starts = List.length l ->
  flat_map (fun '(a, s) => g a s) (combine l starts)
  = flat_map (fun i => match nth_error l (i - k) with
                       | Some a => g a (nth (i - k) starts 0%nat)
                       | None => []
                       end)
             (seq k (List.length l)).
Proof.
  induction l as [|a l IH]; intros [|s starts] k L; cbn [List.length] in L;
    try discriminate; [reflexivity|].
  cbn [combine flat_map List.length seq]. rewrite Nat.sub_diag. cbn [nth_error nth].
  f_equal. rewrite (IH starts (S k)) by lia.
  apply flat_map_ext_seq. intros i Hi.
  replace (i - k)%nat with (S (i - S k)) by lia. reflexivity.
Qed.

Lemma words_consumed_cons prev fr rest :
  words_consumed prev (fr :: rest)
  = ((if row_changed prev fr then 202 else 0) + 101 + words_consumed fr rest)%nat.
Proof. reflexivity. Qed.

Lemma walk_frames_prefix frames prev st f st' f' k :
  walk_frames frames prev st f = Ok (st', f') ->
  exists stk fk, walk_frames (firstn k frames) prev st f = Ok (stk, fk).
Proof.
  intros W. rewrite <- (firstn_skipn k frames), walk_frames_app in W.
  destruct (walk_frames (firstn k frames) prev st f) as [[stk fk]|];
    [eauto|discriminate].
Qed.

(** The words passed once frame number [i] has been read end 101 words
    after that frame's first word. *)
Lemma frame_starts_prefix frames : forall p prev0 i a,
  nth_error frames i = Some a ->
  (nth i (frame_starts p prev0 frames) 0 + 4 * 101
   = p + 4 * words_consumed prev0 (firstn (S i) frames))%nat.
Proof.
  induction frames as [|a0 rest IH]; intros p prev0 i a Hi;
    [destruct i; discriminate|].
  destruct i as [|j].
  - cbn [firstn frame_starts nth words_consumed].
    destruct (row_changed prev0 a0); lia.
  - cbn [nth_error] in Hi.
    change (firstn (S (S j)) (a0 :: rest)) with (a0 :: firstn (S j) rest).
    rewrite words_consumed_cons. cbn [frame_starts nth].
    rewrite (IH _ _ _ _ Hi). destruct (row_changed prev0 a0); lia.
Qed.

(** C7. Frame by frame through the list given to
    [parse_config_packet]: the first frame's 101 words start where the
    cursor is; for every later frame, they start right after the 101
    words of the frame before it in the list when address bits 17..22 of
    the two frames are equal, and 202 words further when one of those
    bits differs, the 202 words in between giving no name.  From the end
    of the turn for one frame to the end of the turn for the next, the
    counter goes down by 101, and by 202 more when the bits differ.  The
    names returned are those of each frame's own 101 words, the cursor
    ends behind the last frame's words, and the words passed, skipped
    ones included, number the payload length less the 202 of the
    closing check. *)
Theorem row_boundary_skip len frames f bits f' :
  Forall (fun fr => List.length (snd fr) = 32%nat) frames ->
  parse_config_packet len frames f = Ok (bits, f') ->
  exists (frame0 : frame) (start : nat -> nat),
    hd_error frames = Some frame0 /\
    start 0%nat = pos f /\
    (forall i prev fr,
       nth_error frames i = Some prev -> nth_error frames (S i) = Some fr ->
       exists c1 bits1 f1 c2 bits2 f2,
         walk_frames (firstn (S i) frames) frame0 (len, []) f = Ok ((c1, bits1), f1) /\
         walk_frames (firstn (S (S i)) frames) frame0 (len, []) f
         = Ok ((c2, bits2), f2) /\
         pos f1 = (start i + 4 * 101)%nat /\ pos f2 = (start (S i) + 4 * 101)%nat /\
         ((exists k, (17 <= k <= 22)%nat /\ nth k (snd prev) 0 <> nth k (snd fr) 0) ->
          start (S i) = (pos f1 + 4 * 202)%nat /\ c2 = c1 - 202 - 101) /\
         ((forall k, (17 <= k <= 22)%nat -> nth k (snd prev) 0 = nth k (snd fr) 0) ->
          start (S i) = pos f1 /\ c2 = c1 - 101)) /\
    bits = flat_map (fun i => match nth_error frames i with
                              | Some fr => high_bits_of_frame (data f) (start i) fr
                              | None => []
                              end)
                    (seq 0 (List.length frames)) /\
    pos f' = (start (List.length frames - 1) + 4 * 101)%nat /\
    (pos f' <= List.length (data f))%nat /\
    Z.of_nat (pos f') = Z.of_nat (pos f) + 4 * (len - 202).
Proof.
  intros F32 H.
  apply parse_config_packet_inv in H as (frame0 & rest & st & E & _ & W & R & <-).
  pose proof W as W0.
  apply walk_frames_inv in W as (_ & P & B & C & Sb).
  cbn [fst snd app] in C, Sb.
  exists frame0, (fun i => nth i (frame_starts (pos f) frame0 frames) 0%nat).
  split; [now rewrite E|].
  split; [|split; [|split; [|split; [|split]]]].
  - subst frames. cbn [frame_starts nth]. now rewrite row_changed_same.
  - intros i prev fr Hi Hs.
    destruct (walk_frames_prefix _ _ _ _ _ _ (S i) W0) as ([c1 bits1] & f1 & W1).
    destruct (walk_frames_prefix _ _ _ _ _ _ (S (S i)) W0) as ([c2 bits2] & f2 & W2).
    exists c1, bits1, f1, c2, bits2, f2.
    split; [exact W1|]. split; [exact W2|].
    apply walk_frames_inv in W1 as (_ & P1 & _ & C1 & _).
    apply walk_frames_inv in W2 as (_ & P2 & _ & C2 & _).
    cbn [fst] in C1, C2.
    pose proof (frame_starts_prefix frames (pos f) frame0 i prev Hi) as Q1.
    pose proof (frame_starts_prefix frames (pos f) frame0 (S i) fr Hs) as Q2.
    pose proof (frame_starts_step frames (pos f) frame0 i prev fr Hi Hs) as St.
    rewrite Forall_forall in F32.
    pose proof (row_changed_bits prev fr (F32 _ (nth_error_In _ _ Hi))
                  (F32 _ (nth_error_In _ _ Hs))) as RC.
    split; [lia|]. split; [lia|]. split.
    + intros D. apply RC in D. rewrite D in St. lia.
    + intros Same. destruct (row_changed prev fr); [|lia].
      destruct (proj1 RC eq_refl) as (k & Hk & D). now destruct D; apply Same.
  - rewrite Sb.
    rewrite (flat_map_combine_index
               (fun fr s => high_bits_of_frame (data f) s fr) frames _ 0)
      by apply frame_starts_length.
    apply flat_map_ext_seq. intros i _. now rewrite Nat.sub_0_r.
  - rewrite frame_starts_last by (subst frames; discriminate). exact P.
  - destruct B as [B|B]; [subst frames; discriminate|exact B].
  - rewrite P. lia.
Qed.

Lemma row_boundary_skip_sample :
  exists start : nat -> nat,
    start 0%nat = 0%nat /\ start 1%nat = 1212%nat /\
    (exists c1 bits1 f1 c2 bits2 f2,
       walk_frames [sample_frame0] sample_frame0 (606, []) (mkfile sample_payload 0)
       = Ok ((c1, bits1), f1) /\
       walk_frames sample_frames sample_frame0 (606, []) (mkfile sample_payload 0)
       = Ok ((c2, bits2), f2) /\
       pos f1 = 404%nat /\ c2 = c1 - 202 - 101) /\
    expected_bits sample_payload 0 sample_frames
    = flat_map (fun i => match nth_error sample_frames i with
                         | Some fr => high_bits_of_frame sample_payload (start i) fr
                         | None => []
                         end)
               (seq 0 2) /\
    1616%nat = (start 1%nat + 4 * 101)%nat.
Proof.
  assert (H : parse_config_packet 606 sample_frames (mkfile sample_payload 0)
              = Ok (expected_bits sample_payload 0 sample_frames,
                    mkfile sample_payload 1616))
    by (vm_compute; reflexivity).
  assert (F : Forall (fun fr => List.length (snd fr) = 32%nat) sample_frames)
    by (repeat constructor).
  destruct (row_boundary_skip 606 sample_frames (mkfile sample_payload 0) _ _ F H)
    as (frame0 & start & H0 & S0 & Step & Bits & Last & _).
  injection H0 as <-.
  exists start. cbn [pos data] in *.
  destruct (Step 0%nat sample_frame0 sample_frame1 eq_refl eq_refl)
    as (c1 & bits1 & f1 & c2 & bits2 & f2 & W1 & W2 & P1 & P2 & D & _).
  destruct D as [D1 D2].
  { exists 17%nat. split; [lia|vm_compute; discriminate]. }
  rewrite S0 in P1. cbn in P1.
  assert (S1 : start 1%nat = 1212%nat) by (rewrite D1, P1; reflexivity).
  split; [exact S0|]. split; [exact S1|]. split.
  - exists c1, bits1, f1, c2, bits2, f2. repeat split; assumption.
  - split; assumption.
Defined.

(** C8. Once every frame has been walked, a counter other than 202 (the
    payload length less the words read) stops the decoder with the
    "not fully parsed" error and no bit list; a returned bit list means
    the words read number exactly the payload length less 202. *)
Theorem trailing_dummy_frames len frame0 rest f :
  len mod 101 = 0 ->
  let frames := frame0 :: rest in
  (forall st f1,
     walk_frames frames frame0 (len, []) f = Ok (st, f1) ->
     fst st = len - Z.of_nat (words_consumed frame0 frames) /\
     pos f1 = (pos f + 4 * words_consumed frame0 frames)%nat /\
     (fst st <> 2 * 101 -> parse_config_packet len frames f = Err IncompletePacket)) /\
  (forall bits f',
     parse_config_packet len frames f = Ok (bits, f') ->
     pos f' = (pos f + 4 * words_consumed frame0 frames)%nat /\
     len - Z.of_nat (words_consumed frame0 frames) = 2 * 101).
Proof.
  intros M frames. subst frames. split.
  - intros st f1 W. pose proof W as W0.
    apply walk_frames_inv in W as (_ & P & _ & R & _). cbn [fst] in R.
    repeat split; auto.
    intros N. unfold parse_config_packet, FRAME_LENGTH.
    change (Z.of_nat 101) with 101. rewrite M. cbn [Z.eqb negb].
    unfold bind. rewrite W0.
    destruct (Z.eqb_spec (fst st) (2 * 101)); [contradiction|reflexivity].
  - intros bits f' H.
    apply parse_config_packet_inv in H as (fr0 & rest0 & st & E & _ & W & R & _).
    injection E as <- <-.
    apply walk_frames_inv in W as (_ & P & _ & R' & _). cbn [fst] in R'.
    split; [exact P|lia].
Qed.

Lemma trailing_dummy_frames_sample :
  parse_config_packet 606 sample_frames (mkfile sample_payload 0)
    = Ok (expected_bits sample_payload 0 sample_frames, mkfile sample_payload 1616) /\
  1616%nat = (0 + 4 * words_consumed sample_frame0 sample_frames)%nat /\
  606 - Z.of_nat (words_consumed sample_frame0 sample_frames) = 2 * 101 /\
  parse_config_packet 707 sample_frames (mkfile sample_payload 0) = Err IncompletePacket.
Proof.
  assert (H : parse_config_packet 606 sample_frames (mkfile sample_payload 0)
              = Ok (expected_bits sample_payload 0 sample_frames,
                    mkfile sample_payload 1616))
    by (vm_compute; reflexivity).
  split; [exact H|].
  destruct (trailing_dummy_frames 606 sample_frame0
              [sample_frame1]
              (mkfile sample_payload 0) eq_refl) as [_ B].
  destruct (B _ _ H) as [P R].
  split; [exact P|]. split; [exact R|].
  destruct (trailing_dummy_frames 707 sample_frame0
              [sample_frame1]
              (mkfile sample_payload 0) eq_refl) as [A _].
  assert (W : exists st f1,
             walk_frames sample_frames sample_frame0 (707, [])
                         (mkfile sample_payload 0) = Ok (st, f1) /\ fst st = 303).
  { eexists. eexists. split; vm_compute; reflexivity. }
  destruct W as (st & f1 & W & R3).
  destruct (A _ _ W) as (_ & _ & E). apply E. rewrite R3. discriminate.
Defined.

Lemma word_observations_account len start offsets : forall c p n,
  p = (start + 4 * n)%nat -> c = len - Z.of_nat n ->
  Forall (fun o => counter_accounts len start o
                   /\ (snd o <= p + 4 * List.length offsets)%nat)
         (word_observations offsets c p).
Proof.
  induction offsets as [|wo rest IH]; intros c p n P C;
    cbn [word_observations List.length]; [constructor|].
  constructor; [|constructor].
  - split; [|cbn [snd]; lia]. exists n. cbn [words_owed]. repeat split; lia.
  - split; [|cbn [snd]; lia]. exists (S n). cbn [words_owed]. repeat split; lia.
  - eapply Forall_impl; [|apply (IH (c - 1) (p + 4)%nat (S n)); lia].
    intros o [A B]. split; [exact A|lia].
Qed.

Lemma skip_observations_account len start c p n :
  p = (start + 4 * n)%nat -> c = len - Z.of_nat n ->
  Forall (fun o => counter_accounts len start o /\ (snd o <= p + 4 * 202)%nat)
         (skip_observations c p).
Proof.
  intros P C. unfold skip_observations, FRAME_LENGTH.
  change (Z.of_nat (101 * 2)) with 202. change (101 * 2)%nat with 202%nat.
  constructor.
  - split; [|cbn [snd]; lia]. exists n. cbn [words_owed]. repeat split; lia.
  - apply Forall_map, Forall_forall. intros i Hi. apply in_seq in Hi.
    split; [|cbn [snd]; lia]. exists (n + S i)%nat. cbn [words_owed].
    repeat split; lia.
Qed.

Lemma walk_observations_account len start frames : forall prev c p n,
  p = (start + 4 * n)%nat -> c = len - Z.of_nat n ->
  Forall (fun o => counter_accounts len start o
                   /\ (snd o <= p + 4 * words_consumed prev frames)%nat)
         (walk_observations frames prev c p).
Proof.
  induction frames as [|fr rest IH]; intros prev c p n P C;
    [constructor|].
  cbn [walk_observations]. rewrite words_consumed_cons.
  unfold frame_observations, FRAME_LENGTH.
  change (Z.of_nat (101 * 2)) with 202. change (101 * 2)%nat with 202%nat.
  destruct (row_changed prev fr); rewrite !Forall_app; repeat split.
  - eapply Forall_impl; [|apply (skip_observations_account len start c p n P C)].
    intros o [A B]. split; [exact A|lia].
  - eapply Forall_impl;
      [|apply (word_observations_account len start (seq 0 101) (c - 202)
                 (p + 4 * 202)%nat (n + 202)%nat); lia].
    intros o [A B]. split; [exact A|]. rewrite length_seq in B. lia.
  - eapply Forall_impl;
      [|apply (IH fr (c - Z.of_nat (202 + 101)) (p + 4 * (202 + 101))%nat
                 (n + 202 + 101)%nat); lia].
    intros o [A B]. split; [exact A|lia].
  - eapply Forall_impl;
      [|apply (word_observations_account len start (seq 0 101) c p n); lia].
    intros o [A B]. split; [exact A|]. rewrite length_seq in B. lia.
  - eapply Forall_impl;
      [|apply (IH fr (c - Z.of_nat (0 + 101)) (p + 4 * (0 + 101))%nat
                 (n + 101)%nat); lia].
    intros o [A B]. split; [exact A|lia].
Qed.

Lemma observation_eq (pt : program_point) (c c' : Z) (p p' : nat) :
  c = c' -> p = p' -> (pt, c, p) = (pt, c', p').
Proof. now intros -> ->. Qed.

Lemma word_observations_last offsets : forall c p wo d,
  last (word_observations (offsets ++ [wo]) c p) d
  = (WordRead wo, c - Z.of_nat (S (List.length offsets)),
     (p + 4 * S (List.length offsets))%nat).
Proof.
  induction offsets as [|x rest IH]; intros c p wo d.
  - cbn [app word_observations last List.length].
    replace (c - Z.of_nat 1) with (c - 1) by lia.
    replace (p + 4 * 1)%nat with (p + 4)%nat by lia. reflexivity.
  - change (word_observations ((x :: rest) ++ [wo]) c p)
      with ((WordLowered x, c - 1, p) :: (WordRead x, c - 1, (p + 4)%nat)
            :: word_observations (rest ++ [wo]) (c - 1) (p + 4)).
    assert (N : word_observations (rest ++ [wo]) (c - 1) (p + 4) <> [])
      by (destruct rest; discriminate).
    destruct (word_observations (rest ++ [wo]) (c - 1) (p + 4)) as [|o os] eqn:E;
      [now destruct N|].
    change (last (_ :: _ :: o :: os) d) with (last (o :: os) d).
    rewrite <- E, IH. cbn [List.length]. apply observation_eq; lia.
Qed.

Lemma last_app_nonempty {A} (l1 l2 : list A) d :
  l2 <> [] -> last (l1 ++ l2) d = last l2 d.
Proof.
  intros N. induction l1 as [|a l1 IH]; [reflexivity|].
  cbn [app]. destruct (l1 ++ l2) eqn:E.
  - apply app_eq_nil in E as [_ ->]. now destruct N.
  - exact IH.
Qed.

Lemma frame_words_observations_last c p d :
  last (word_observations (seq 0 101) c p) d
  = (WordRead 100, c - 101, (p + 4 * 101)%nat).
Proof.
  change (seq 0 101) with (seq 0 100 ++ [100%nat]).
  rewrite word_observations_last, length_seq. reflexivity.
Qed.

(** After the last frame the last observation is the read of word 100,
    with the counter and the cursor the walk ends with. *)
Lemma walk_observations_last frames : forall prev c p d,
  frames <> [] ->
  last (walk_observations frames prev c p) d
  = (WordRead 100, c - Z.of_nat (words_consumed prev frames),
     (p + 4 * words_consumed prev frames)%nat).
Proof.
  induction frames as [|fr rest IH]; intros prev c p d N; [now destruct N|].
  cbn [walk_observations]. rewrite words_consumed_cons.
  unfold FRAME_LENGTH. change (101 * 2)%nat with 202%nat.
  destruct rest as [|fr2 rest].
  - cbn [walk_observations words_consumed]. rewrite app_nil_r.
    unfold frame_observations, FRAME_LENGTH.
    change (Z.of_nat (101 * 2)) with 202. change (101 * 2)%nat with 202%nat.
    destruct (row_changed prev fr).
    + rewrite last_app_nonempty by discriminate.
      rewrite frame_words_observations_last. apply observation_eq; lia.
    + rewrite frame_words_observations_last. apply observation_eq; lia.
  - rewrite last_app_nonempty.
    + rewrite IH by discriminate.
      destruct (row_changed prev fr); apply observation_eq; lia.
    + cbn [walk_observations]. unfold frame_observations.
      destruct (row_changed fr fr2); discriminate.
Qed.




(** ** Unsupported devices *)

Lemma family_of_none part :
  contains "xc7a" part = false -> contains "xc7k" part = false ->
  contains "xc7s" part = false -> contains "xc7z" part = false ->
  family_of part = None.
Proof. intros Ha Hk Hs Hz. unfold family_of. now rewrite Ha, Hk, Hs, Hz. Qed.

(** A part identifier with none of the four family substrings gets no
    frame list, but in two ways: without xc7 in it, [get_high_bits]
    turns it down with its unsupported-device report; with xc7 in it,
    [get_frame_list] is called and stops on the unassigned [family]. *)
Lemma build_frames_without_family xray_dir fs part :
  contains "xc7a" part = false -> contains "xc7k" part = false ->
  contains "xc7s" part = false -> contains "xc7z" part = false ->
  build_frames xray_dir fs part
  = Err (if contains "xc7" part then FamilyUnbound else UnsupportedDevice).
Proof.
  intros Ha Hk Hs Hz. unfold build_frames, get_frame_list.
  rewrite (family_of_none _ Ha Hk Hs Hz). now destruct (contains "xc7" part).
Qed.

(** C9. The identifier xc6slx4 is turned down with the
    unsupported-device report of [get_high_bits], as the claim says.  A
    Virtex-7 identifier is not: it holds xc7 and none of xc7a, xc7k,
    xc7s, xc7z, so it passes the Series-7 test, and [get_frame_list]
    then stops on its unassigned variable [family], whatever the
    descriptor files are.  A bitstream whose header names the part
    7vx485tffg1761 ends [get_high_bits] that way. *)
Theorem virtex7_part_unbound_family xray_dir fs :
  build_frames xray_dir fs "xc6slx4" = Err UnsupportedDevice /\
  (exists len f',
     find_config_packet (mkfile virtex7_bitstream 0)
     = Ok (Done ("xc7vx485tffg1761-1"%string, len), f')) /\
  contains "xc7" "xc7vx485tffg1761-1" = true /\
  family_of "xc7vx485tffg1761-1" = None /\
  get_frame_list xray_dir fs "xc7vx485tffg1761-1" = Err FamilyUnbound /\
  get_high_bits xray_dir fs virtex7_bitstream = Err FamilyUnbound /\
  FamilyUnbound <> UnsupportedDevice.
Proof.
  split; [reflexivity|].
  split; [do 2 eexists; vm_compute; reflexivity|].
  split; [reflexivity|]. split; [reflexivity|]. split; [reflexivity|].
  split; [|discriminate].
  unfold get_high_bits.
  assert (F : find_config_packet (mkfile virtex7_bitstream 0)
              = Ok (Done ("xc7vx485tffg1761-1"%string, 202),
                    mkfile virtex7_bitstream (List.length virtex7_bitstream)))
    by (vm_compute; reflexivity).
  rewrite F. reflexivity.
Qed.

(** ** Order on strings *)

Lemma string_leb_refl s : String.leb s s = true.
Proof.
  unfold String.leb.
  assert (E : String.compare s s = Eq).
  { induction s as [|c s IH]; [reflexivity|]. cbn [String.compare].
    unfold Ascii.compare. now rewrite N.compare_refl. }
  now rewrite E.
Qed.

Lemma string_leb_trans a : forall b c,
  String.leb a b = true -> String.leb b c = true -> String.leb a c = true.
Proof.
  unfold String.leb.
  induction a as [|x a IH]; intros [|y b] [|z c]; cbn [String.compare];
    try reflexivity; try discriminate.
  unfold Ascii.compare.
  destruct (N.compare_spec (N_of_ascii x) (N_of_ascii y)) as [Exy|Lxy|Gxy];
    destruct (N.compare_spec (N_of_ascii y) (N_of_ascii z)) as [Eyz|Lyz|Gyz];
    destruct (N.compare_spec (N_of_ascii x) (N_of_ascii z)) as [Exz|Lxz|Gxz];
    try reflexivity; try discriminate; try lia.
  apply IH.
Qed.

Lemma string_ltb_leb a b : String.ltb a b = true -> String.leb a b = true.
Proof. unfold String.ltb, String.leb. now destruct (String.compare a b). Qed.

Lemma string_not_ltb_leb a b : String.ltb a b = false -> String.leb b a = true.
Proof.
  unfold String.ltb, String.leb. rewrite (String.compare_antisym a b).
  now destruct (String.compare b a).
Qed.

Lemma string_leb_neq_ltb a b :
  String.leb a b = true -> a <> b -> String.ltb a b = true.
Proof.
  unfold String.ltb, String.leb. destruct (String.compare a b) eqn:E; auto.
  apply String.compare_eq_iff in E. contradiction.
Qed.

(** ** [sorted] *)

Lemma frame_ltb_hex_le a b : frame_ltb a b = true -> hex_le a b.
Proof.
  unfold frame_ltb, hex_le. destruct (String.eqb_spec (fst a) (fst b)) as [E|N].
  - intros _. rewrite E. apply string_leb_refl.
  - apply string_ltb_leb.
Qed.

Lemma not_frame_ltb_hex_le a b : frame_ltb a b = false -> hex_le b a.
Proof.
  unfold frame_ltb, hex_le. destruct (String.eqb_spec (fst a) (fst b)) as [E|N].
  - intros _. rewrite E. apply string_leb_refl.
  - apply string_not_ltb_leb.
Qed.

Lemma insert_frame_perm x l : Permutation (insert_frame x l) (x :: l).
Proof.
  induction l as [|y l IH]; cbn [insert_frame]; [reflexivity|].
  destruct (frame_ltb y x); [|reflexivity].
  rewrite IH. apply perm_swap.
Qed.

Lemma sorted_perm l : Permutation (sorted l) l.
Proof.
  induction l as [|x l IH]; cbn [sorted fold_right]; [reflexivity|].
  fold (sorted l). rewrite insert_frame_perm. now constructor.
Qed.

Lemma insert_frame_sorted x l :
  StronglySorted hex_le l -> StronglySorted hex_le (insert_frame x l).
Proof.
  induction 1 as [|y l S IH F]; cbn [insert_frame].
  - repeat constructor.
  - destruct (frame_ltb y x) eqn:E.
    + constructor; [assumption|].
      rewrite Forall_forall in *. intros z Hz.
      apply (Permutation_in _ (insert_frame_perm x l)) in Hz.
      destruct Hz as [<-|Hz]; [now apply frame_ltb_hex_le|now apply F].
    + apply not_frame_ltb_hex_le in E.
      constructor; [constructor; assumption|].
      constructor; [assumption|].
      rewrite Forall_forall in *. intros z Hz.
      unfold hex_le in *. eapply string_leb_trans; [exact E|now apply F].
Qed.

Lemma sorted_is_sorted l : StronglySorted hex_le (sorted l).
Proof.
  induction l as [|x l IH]; cbn [sorted fold_right]; [constructor|].
  now apply insert_frame_sorted.
Qed.

(** Without two equal keys a sorted list is strictly sorted. *)
Lemma sorted_nodup_strict l :
  StronglySorted hex_le l -> NoDup (map fst l) -> StronglySorted hex_lt l.
Proof.
  induction 1 as [|y l S IH F]; intros N; [constructor|].
  cbn [map] in N. inversion N as [|? ? Hy N']; subst.
  constructor; [now apply IH|].
  rewrite Forall_forall in *. intros z Hz.
  apply string_leb_neq_ltb; [now apply F|].
  intros E. apply Hy. rewrite E. now apply in_map.
Qed.

(** ** Hexadecimal form of an address *)

Lemma append_nil_r s : (s ++ "")%string = s.
Proof. induction s as [|c s IH]; cbn; [reflexivity|now rewrite IH]. Qed.

Lemma append_assoc (a b c : string) : ((a ++ b) ++ c = a ++ (b ++ c))%string.
Proof. induction a as [|x a IH]; cbn; [reflexivity|now rewrite IH]. Qed.

Lemma hex_fixed_length k n : String.length (hex_fixed k n) = k.
Proof. induction k as [|k IH]; cbn [hex_fixed String.length]; congruence. Qed.

Lemma hex_fixed_snoc j : forall n,
  (hex_fixed j (n / 16) ++ String (hex_digit (n mod 16)) "")%string
  = hex_fixed (S j) n.
Proof.
  induction j as [|j IH]; intros n.
  - cbn [hex_fixed append]. change (Z.of_nat 0) with 0.
    now rewrite Z.pow_0_r, Z.div_1_r.
  - change (hex_fixed (S j) (n / 16))
      with (String (hex_digit ((n / 16 / 16 ^ Z.of_nat j) mod 16)) (hex_fixed j (n / 16))).
    cbn [append]. rewrite IH.
    change (hex_fixed (S (S j)) n)
      with (String (hex_digit ((n / 16 ^ Z.of_nat (S j)) mod 16)) (hex_fixed (S j) n)).
    rewrite Z.div_div by lia.
    rewrite Nat2Z.inj_succ, Z.pow_succ_r by lia. reflexivity.
Qed.

(** [hex_digits] writes the shortest hexadecimal numeral: its first
    digit is not zero unless the number is. *)
Lemma hex_digits_min fuel : forall n acc k,
  0 <= n < 16 ^ Z.of_nat (S k) -> (k <= fuel)%nat ->
  exists j, (j <= k)%nat /\
    hex_digits fuel n acc = (hex_fixed (S j) n ++ acc)%string /\
    n < 16 ^ Z.of_nat (S j) /\ (n = 0 \/ 16 ^ Z.of_nat j <= n).
Proof.
  induction fuel as [|fuel IH]; intros n acc k B L.
  - assert (k = 0%nat) by lia. subst k. exists 0%nat.
    cbn [hex_digits hex_fixed append]. change (Z.of_nat 0) with 0.
    rewrite Z.pow_0_r, Z.div_1_r. repeat split; auto; lia.
  - cbn [hex_digits]. destruct (Z.eqb_spec (n / 16) 0) as [E|E].
    + apply Z.div_small_iff in E; [|lia]. exists 0%nat.
      cbn [hex_fixed append]. change (Z.of_nat 0) with 0. change (Z.of_nat 1) with 1.
      rewrite Z.pow_0_r, Z.div_1_r. repeat split; auto; lia.
    + assert (N16 : 16 <= n).
      { destruct (Z.lt_ge_cases n 16) as [S|S]; [|exact S].
        exfalso. apply E. apply Z.div_small. lia. }
      destruct k as [|k].
      { change (Z.of_nat 1) with 1 in B. lia. }
      rewrite Nat2Z.inj_succ, Z.pow_succ_r in B by lia.
      destruct (IH (n / 16) (String (hex_digit (n mod 16)) acc) k) as (j & J & H & U & Lo).
      { split; [apply Z.div_pos; lia|apply Z.div_lt_upper_bound; lia]. }
      { lia. }
      exists (S j). split; [lia|]. split; [|split].
      * rewrite H. rewrite <- (hex_fixed_snoc (S j)), append_assoc. reflexivity.
      * rewrite Nat2Z.inj_succ, Z.pow_succ_r by lia.
        pose proof (Z.mul_div_le n 16). pose proof (Z.mod_pos_bound n 16).
        pose proof (Z.div_mod n 16). lia.
      * right. rewrite Nat2Z.inj_succ, Z.pow_succ_r by lia.
        destruct Lo as [Z0|Lo]; [contradiction|].
        pose proof (Z.mul_div_le n 16). lia.
Qed.

Lemma hex_digit_not_stripped d :
  1 <= d <= 15 -> char_in (hex_digit d) "0x" = false.
Proof.
  intros H.
  assert (C : d = 1 \/ d = 2 \/ d = 3 \/ d = 4 \/ d = 5 \/ d = 6 \/ d = 7 \/ d = 8
              \/ d = 9 \/ d = 10 \/ d = 11 \/ d = 12 \/ d = 13 \/ d = 14 \/ d = 15)
    by lia.
  repeat (destruct C as [->|C]; [reflexivity|]). subst. reflexivity.
Qed.

Lemma hex_fixed_pad d : forall j n,
  0 <= n < 16 ^ Z.of_nat j ->
  hex_fixed (d + j) n
  = (string_of_list_ascii (repeat "0"%char d) ++ hex_fixed j n)%string.
Proof.
  induction d as [|d IH]; intros j n B; [reflexivity|].
  cbn [Nat.add hex_fixed repeat string_of_list_ascii append].
  rewrite IH by assumption. f_equal.
  rewrite Z.div_small; [reflexivity|].
  split; [lia|]. apply Z.lt_le_trans with (16 ^ Z.of_nat j); [lia|].
  apply Z.pow_le_mono_r; lia.
Qed.

Lemma lstrip_0x_numeral c rest :
  char_in c "0x" = false -> lstrip "0x" ("0x" ++ String c rest) = String c rest.
Proof.
  intros H.
  change (lstrip "0x" ("0x" ++ String c rest))
    with (if char_in c "0x" then lstrip "0x" rest else String c rest).
  now rewrite H.
Qed.

(** The address string of [get_frame_list] is the 8-digit numeral. *)
Lemma py_hex_fixed v :
  0 <= v < 16 ^ 8 -> rjust 8 "0" (lstrip "0x" (py_hex v)) = hex_fixed 8 v.
Proof.
  intros B. destruct (Z.eq_dec v 0) as [->|NZ]; [reflexivity|].
  unfold py_hex. destruct (Z.ltb_spec v 0) as [?|_]; [lia|].
  rewrite Z.abs_eq by lia.
  destruct (hex_digits_min (Z.to_nat (Z.log2 v)) v "" (Z.to_nat (Z.log2 v)))
    as (j & _ & H & U & Lo); [|lia|].
  { split; [lia|]. rewrite Nat2Z.inj_succ, Z2Nat.id by apply Z.log2_nonneg.
    destruct (Z.log2_spec v) as [_ Hi]; [lia|].
    apply Z.lt_le_trans with (2 ^ Z.succ (Z.log2 v)); [exact Hi|].
    apply Z.pow_le_mono_l. lia. }
  destruct Lo as [?|Lo]; [contradiction|].
  rewrite H, append_nil_r.
  assert (J : (j < 8)%nat).
  { destruct (Nat.lt_ge_cases j 8) as [?|G]; [assumption|]. exfalso.
    assert (16 ^ 8 <= 16 ^ Z.of_nat j) by (apply Z.pow_le_mono_r; lia). lia. }
  assert (D : 1 <= (v / 16 ^ Z.of_nat j) mod 16 <= 15).
  { rewrite Nat2Z.inj_succ, Z.pow_succ_r in U by lia.
    assert (P : 0 < 16 ^ Z.of_nat j) by (apply Z.pow_pos_nonneg; lia).
    assert (1 <= v / 16 ^ Z.of_nat j) by (apply Z.div_le_lower_bound; lia).
    assert (v / 16 ^ Z.of_nat j < 16) by (apply Z.div_lt_upper_bound; lia).
    rewrite Z.mod_small; lia. }
  change (hex_fixed (S j) v)
    with (String (hex_digit ((v / 16 ^ Z.of_nat j) mod 16)) (hex_fixed j v)).
  rewrite (lstrip_0x_numeral _ _ (hex_digit_not_stripped _ D)).
  change (String (hex_digit ((v / 16 ^ Z.of_nat j) mod 16)) (hex_fixed j v))
    with (hex_fixed (S j) v).
  unfold rjust. rewrite hex_fixed_length.
  rewrite <- hex_fixed_pad by lia. f_equal. lia.
Qed.

Lemma hex_digit_code d :
  0 <= d < 16 ->
  N_of_ascii (hex_digit d) = Z.to_N (if d <? 10 then 48 + d else 87 + d).
Proof.
  intros B. unfold hex_digit.
  destruct (d <? 10); apply N_ascii_embedding; lia.
Qed.

Lemma hex_digit_compare x y :
  0 <= x < 16 -> 0 <= y < 16 ->
  Ascii.compare (hex_digit x) (hex_digit y) = Z.compare x y.
Proof.
  intros Bx By. unfold Ascii.compare.
  rewrite !hex_digit_code by assumption.
  destruct (Z.ltb_spec x 10), (Z.ltb_spec y 10);
    destruct (Z.compare_spec x y);
    first [apply N.compare_eq_iff | apply N.compare_lt_iff | apply N.compare_gt_iff];
    lia.
Qed.

(** Strings of [k] hexadecimal digits compare as the numbers they
    write. *)
Lemma hex_fixed_compare k : forall a b,
  0 <= a -> 0 <= b ->
  String.compare (hex_fixed k a) (hex_fixed k b)
  = Z.compare (a mod 16 ^ Z.of_nat k) (b mod 16 ^ Z.of_nat k).
Proof.
  induction k as [|k IH]; intros a b Ha Hb.
  - change (Z.of_nat 0) with 0. now rewrite Z.pow_0_r, !Z.mod_1_r.
  - cbn [hex_fixed String.compare].
    assert (P : 0 < 16 ^ Z.of_nat k) by (apply Z.pow_pos_nonneg; lia).
    rewrite hex_digit_compare by (apply Z.mod_pos_bound; lia).
    rewrite IH by assumption.
    rewrite Nat2Z.inj_succ, Z.pow_succ_r by lia.
    rewrite (Z.mul_comm 16), !Z.rem_mul_r by lia.
    pose proof (Z.mod_pos_bound a (16 ^ Z.of_nat k) P).
    pose proof (Z.mod_pos_bound b (16 ^ Z.of_nat k) P).
    set (a0 := a mod 16 ^ Z.of_nat k) in *. set (b0 := b mod 16 ^ Z.of_nat k) in *.
    set (da := (a / 16 ^ Z.of_nat k) mod 16). set (db := (b / 16 ^ Z.of_nat k) mod 16).
    set (p := 16 ^ Z.of_nat k) in *.
    destruct (Z.compare_spec da db) as [E|L|G].
    + rewrite E. destruct (Z.compare_spec a0 b0); symmetry;
        first [apply Z.compare_eq_iff | apply Z.compare_lt_iff | apply Z.compare_gt_iff];
        lia.
    + symmetry. apply Z.compare_lt_iff. nia.
    + symmetry. apply Z.compare_gt_iff. nia.
Qed.

(** ** The address accumulator *)

Lemma set_nth_length {A} (v : A) l : forall i, List.length (set_nth i v l) = List.length l.
Proof.
  induction l as [|x l IH]; intros [|i]; cbn [set_nth List.length]; auto.
Qed.

Lemma set_nth_Forall {A} (P : A -> Prop) (v : A) l : forall i,
  P v -> Forall P l -> Forall P (set_nth i v l).
Proof.
  induction l as [|x l IH]; intros [|i] Hv F; cbn [set_nth]; auto;
    inversion F; subst; constructor; auto.
Qed.

Lemma land_1_is_bit a : is_bit (Z.land a 1).
Proof.
  change 1 with (Z.ones 1). rewrite Z.land_ones by lia.
  change (2 ^ 1) with 2. pose proof (Z.mod_pos_bound a 2). unfold is_bit. lia.
Qed.

Lemma set_field_wf lo width n addr :
  List.length addr = 32%nat -> Forall is_bit addr ->
  List.length (set_field lo width n addr) = 32%nat /\
  Forall is_bit (set_field lo width n addr).
Proof.
  unfold set_field. generalize (seq 0 width). intros idx. revert addr.
  induction idx as [|i idx IH]; intros addr L F; cbn [fold_left]; [auto|].
  apply IH.
  - now rewrite set_nth_length.
  - apply set_nth_Forall; [apply land_1_is_bit|assumption].
Qed.

Lemma set_slice_wf vals addr :
  List.length vals = 3%nat -> Forall is_bit vals ->
  List.length addr = 32%nat -> Forall is_bit addr ->
  List.length (set_slice 23 26 vals addr) = 32%nat /\
  Forall is_bit (set_slice 23 26 vals addr).
Proof.
  intros Lv Fv L F. unfold set_slice. split.
  - rewrite !length_app, length_firstn, length_skipn. lia.
  - destruct (Forall_firstn_skipn _ 23 addr F) as [F1 _].
    destruct (Forall_firstn_skipn _ 26 addr F) as [_ F2].
    apply Forall_app. split; [assumption|]. apply Forall_app. now split.
Qed.

Lemma with_addr_wf b addr :
  builder_wf b -> List.length addr = 32%nat -> Forall is_bit addr ->
  builder_wf (with_addr b addr).
Proof. intros (_ & _ & Ff) L F. repeat split; assumption. Qed.

Lemma emit_frames_wf num_frames b : builder_wf b -> builder_wf (emit_frames num_frames b).
Proof.
  unfold emit_frames. generalize (seq 0 (Z.to_nat num_frames)). intros minors.
  revert b. induction minors as [|m minors IH]; intros b W; cbn [fold_left]; [assumption|].
  apply IH. destruct W as (L & F & Ff).
  destruct (set_field_wf 0 7 (Z.of_nat m) (curr_addr b) L F) as [L' F'].
  repeat split; cbn [curr_addr frames_of]; auto.
  apply Forall_app. split; [assumption|].
  constructor; [|constructor]. repeat split; assumption.
Qed.

Lemma set_quoted_number_wf lo width line b b' :
  builder_wf b -> set_quoted_number lo width line b = Ok b' -> builder_wf b'.
Proof.
  intros W. unfold set_quoted_number.
  destruct (odd_items _) as [|num rest].
  - intros H; inversion H; subst; assumption.
  - destruct (py_int num) as [n|]; cbn [rbind]; [|discriminate].
    intros H; inversion H; subst.
    destruct W as (L & F & Ff).
    destruct (set_field_wf lo width n (curr_addr b) L F).
    apply with_addr_wf; auto. repeat split; assumption.
Qed.

Lemma three_bits_wf x y z :
  is_bit x -> is_bit y -> is_bit z ->
  List.length (rev [x; y; z]) = 3%nat /\ Forall is_bit (rev [x; y; z]).
Proof.
  intros Hx Hy Hz. split; [reflexivity|].
  change (rev [x; y; z]) with [z; y; x]. auto.
Qed.

Lemma process_line_wf b line b' :
  builder_wf b -> process_line b line = Ok b' -> builder_wf b'.
Proof.
  intros W. unfold process_line.
  assert (B0 : is_bit 0) by (left; reflexivity).
  assert (B1 : is_bit 1) by (right; reflexivity).
  assert (W1 : builder_wf (on_half line b)).
  { unfold on_half. destruct (negb _); [assumption|].
    assert (W' : builder_wf (if contains "top" line
                             then with_addr b (set_nth 22 0 (curr_addr b)) else b)).
    { destruct (contains "top" line); [|assumption].
      destruct W as (L & F & Ff). apply with_addr_wf; [repeat split; assumption| |].
      - now rewrite set_nth_length.
      - now apply set_nth_Forall. }
    destruct (contains "bottom" line); [|assumption].
    destruct W' as (L & F & Ff). apply with_addr_wf; [repeat split; assumption| |].
    - now rewrite set_nth_length.
    - now apply set_nth_Forall. }
  destruct (on_row line (on_half line b)) as [b2|] eqn:E2; cbn [rbind]; [|discriminate].
  assert (W2 : builder_wf b2).
  { unfold on_row in E2. destruct (negb _).
    - inversion E2; subst; assumption.
    - eapply set_quoted_number_wf; eassumption. }
  assert (W3 : builder_wf (on_bus line b2)).
  { unfold on_bus. destruct (negb _); [assumption|].
    assert (S : forall c x y z, is_bit x -> is_bit y -> is_bit z ->
                builder_wf c ->
                builder_wf (with_addr c (set_slice 23 26 (rev [x; y; z]) (curr_addr c)))).
    { intros c x y z Hx Hy Hz (L & F & Ff).
      destruct (three_bits_wf x y z Hx Hy Hz) as [Lv Fv].
      destruct (set_slice_wf _ _ Lv Fv L F).
      apply with_addr_wf; auto. repeat split; assumption. }
    destruct (contains "CLB_IO_CLK" line), (contains "BLOCK_RAM" line),
      (contains "CFG_CLB" line); auto. }
  destruct (on_col line (on_bus line b2)) as [b4|] eqn:E4; cbn [rbind]; [|discriminate].
  assert (W4 : builder_wf b4).
  { unfold on_col in E4. destruct (negb _).
    - inversion E4; subst; assumption.
    - eapply set_quoted_number_wf; eassumption. }
  destruct (on_frame_count line b4) as [b5|] eqn:E5; cbn [rbind]; [|discriminate].
  assert (W5 : builder_wf b5).
  { unfold on_frame_count in E5. destruct (negb _).
    - inversion E5; subst; assumption.
    - destruct (contains "}" line); [inversion E5; subst; assumption|].
      destruct (nth_error _ 1) as [count|]; [|discriminate].
      destruct (py_int count) as [n|]; cbn [rbind] in E5; [|discriminate].
      inversion E5; subst. now apply emit_frames_wf. }
  intros H; inversion H; subst.
  destruct W5 as (L & F & Ff). repeat split; assumption.
Qed.

Lemma process_lines_wf lines : forall b b',
  builder_wf b -> process_lines b lines = Ok b' -> builder_wf b'.
Proof.
  induction lines as [|line lines IH]; intros b b' W H; cbn [process_lines] in H.
  - inversion H; subst; assumption.
  - destruct (process_line b line) as [b1|] eqn:E; cbn [rbind] in H; [|discriminate].
    eapply IH; [|eassumption]. eapply process_line_wf; eassumption.
Qed.

Lemma frame_wf_hex fr :
  frame_wf fr ->
  0 <= bits_to_int (snd fr) < 2 ^ 32 /\
  fst fr = hex_fixed 8 (bits_to_int (snd fr)).
Proof.
  intros (H & L & F).
  pose proof (bits_value_bound _ F) as B. rewrite L in B.
  rewrite bits_to_int_value. change (Z.of_nat 32) with 32 in B.
  split; [assumption|].
  rewrite H. unfold frame_addr_hex. rewrite bits_to_int_value.
  apply py_hex_fixed. change (16 ^ 8) with (2 ^ 32). assumption.
Qed.

(** ** Order of the frame list *)

Lemma StronglySorted_weaken {A} (R R' : A -> A -> Prop) l :
  (forall a b, In a l -> In b l -> R a b -> R' a b) ->
  StronglySorted R l -> StronglySorted R' l.
Proof.
  intros W S. induction S as [|x l S IH F]; [constructor|].
  constructor.
  - apply IH. intros a b Ha Hb. apply W; now right.
  - rewrite Forall_forall in *. intros y Hy.
    apply W; [now left|now right|now apply F].
Qed.

Lemma get_frame_list_wf xray_dir fs part frames :
  get_frame_list xray_dir fs part = Ok frames ->
  exists b, frames = sorted (frames_of b) /\ Forall frame_wf frames.
Proof.
  unfold get_frame_list. destruct (family_of part) as [family|]; [|discriminate].
  destruct (fs _) as [lines|]; [|discriminate].
  destruct (process_lines _ lines) as [b|] eqn:E; cbn [rbind]; [|discriminate].
  intros H; inversion H; subst. exists b. split; [reflexivity|].
  apply process_lines_wf in E.
  - destruct E as (_ & _ & Ff). rewrite Forall_forall in *.
    intros fr Hfr. apply Ff. eapply Permutation_in; [apply sorted_perm|exact Hfr].
  - repeat split; cbn [curr_addr frames_of]; [|constructor].
    apply Forall_forall. intros x Hx. apply repeat_spec in Hx. now left.
Qed.

(** C6, as the code has it. The frame list returned by
    [get_frame_list] is sorted in ascending, not necessarily strict,
    order of the 8-hex-digit address string; string order and numeric
    order of the 32-bit address coincide on its entries; and the order
    is strict whenever no two entries share an address string. *)
Theorem get_frame_list_sorted xray_dir fs part frames :
  get_frame_list xray_dir fs part = Ok frames ->
  StronglySorted hex_le frames /\
  (forall fr, In fr frames ->
     0 <= bits_to_int (snd fr) < 2 ^ 32 /\
     fst fr = hex_fixed 8 (bits_to_int (snd fr))) /\
  (forall a b, In a frames -> In b frames ->
     String.compare (fst a) (fst b)
     = Z.compare (bits_to_int (snd a)) (bits_to_int (snd b))) /\
  StronglySorted (fun a b => bits_to_int (snd a) <= bits_to_int (snd b)) frames /\
  (NoDup (map fst frames) ->
     StronglySorted hex_lt frames /\
     StronglySorted (fun a b => bits_to_int (snd a) < bits_to_int (snd b)) frames).
Proof.
  intros H. apply get_frame_list_wf in H as (b & -> & W).
  set (frames := sorted (frames_of b)) in *.
  pose proof (sorted_is_sorted (frames_of b)) as S. fold frames in S.
  rewrite Forall_forall in W.
  assert (C : forall x y, In x frames -> In y frames ->
              String.compare (fst x) (fst y)
              = Z.compare (bits_to_int (snd x)) (bits_to_int (snd y))).
  { intros x y Hx Hy.
    destruct (frame_wf_hex _ (W _ Hx)) as [Bx ->].
    destruct (frame_wf_hex _ (W _ Hy)) as [By ->].
    rewrite hex_fixed_compare by lia.
    change (16 ^ Z.of_nat 8) with (2 ^ 32). now rewrite !Z.mod_small. }
  split; [exact S|]. split; [intros fr Hfr; now apply frame_wf_hex, W|].
  split; [exact C|]. split.
  - apply (StronglySorted_weaken hex_le); [|exact S].
    intros x y Hx Hy. unfold hex_le, String.leb. rewrite (C _ _ Hx Hy).
    destruct (Z.compare_spec (bits_to_int (snd x)) (bits_to_int (snd y)));
      [lia|lia|discriminate].
  - intros N. pose proof (sorted_nodup_strict _ S N) as St.
    split; [exact St|].
    apply (StronglySorted_weaken hex_lt); [|exact St].
    intros x y Hx Hy. unfold hex_lt, String.ltb. rewrite (C _ _ Hx Hy).
    destruct (Z.compare_spec (bits_to_int (snd x)) (bits_to_int (snd y)));
      [discriminate|lia|discriminate].
Qed.

Lemma get_frame_list_sorted_small :
  exists frames,
    get_frame_list "xray" (one_file descriptor_small) "xc7a35t" = Ok frames /\
    map fst frames
      = ["00c20000"; "00c20001"; "00c20080"; "00c20081"; "00c20082"]%string /\
    StronglySorted hex_le frames /\
    StronglySorted hex_lt frames /\
    StronglySorted (fun a b => bits_to_int (snd a) < bits_to_int (snd b)) frames.
Proof.
  eexists. split; [vm_compute; reflexivity|].
  split; [reflexivity|].
  match goal with |- StronglySorted hex_le ?l /\ _ =>
    destruct (get_frame_list_sorted "xray" (one_file descriptor_small) "xc7a35t" l)
      as (S & _ & _ & _ & St)
  end.
  - vm_compute; reflexivity.
  - split; [exact S|]. apply St.
    cbn [map fst]. repeat constructor; cbn [In]; intuition discriminate.
Defined.

(** A descriptor whose only column announces 129 frames: minor address
    128 does not fit the 7 minor bits and gives the address of minor 0
    again, so the list opens with the same address twice. *)
Lemma frame_list_not_strictly_sorted :
  exists frames,
    get_frame_list "xray" (one_file descriptor_129) "xc7a35t" = Ok frames /\
    List.length frames = 129%nat /\
    option_map fst (nth_error frames 0) = Some "00c20000"%string /\
    option_map fst (nth_error frames 1) = Some "00c20000"%string /\
    ~ StronglySorted hex_lt frames /\
    ~ NoDup (map fst frames).
Proof.
  eexists. split; [vm_compute; reflexivity|].
  split; [reflexivity|]. split; [reflexivity|]. split; [reflexivity|]. split.
  - intros S. apply StronglySorted_inv in S as [_ F].
    apply Forall_inv in F. vm_compute in F. discriminate.
  - intros N. cbn [map fst] in N. apply NoDup_cons_iff in N as [N _].
    apply N. left. reflexivity.
Qed.

(* ================================================================== *)
(** * Further properties of the code *)

(** ** Length-prefixed header fields *)

Lemma byte_val_of_Z z : 0 <= z < 256 -> byte_val (byte_of_Z z) = z.
Proof.
  intros B. unfold byte_of_Z, byte_val.
  destruct (Byte.of_N (Z.to_N z)) as [b|] eqn:E.
  - apply Byte.to_of_N in E. rewrite E. lia.
  - apply Byte.of_N_None_iff in E. lia.
Qed.

Lemma chr_byte_val b : chr (byte_val b) = ascii_of_byte b.
Proof.
  unfold chr, byte_val. rewrite N2Z.id. symmetry. apply ascii_of_byte_via_N.
Qed.

Lemma chars_at_step d p n b :
  nth_error d p = Some b ->
  chars_at d p (S n) = String (ascii_of_byte b) (chars_at d (S p) n).
Proof.
  intros H. unfold chars_at. rewrite (skipn_nth_error _ _ _ H). reflexivity.
Qed.

(** [read_chars n] returns the next [n] bytes as characters, or raises
    when fewer are left. *)
Lemma read_chars_eq n : forall f,
  read_chars n f =
  if (n =? 0)%nat || (pos f + n <=? List.length (data f))%nat
  then Ok (chars_at (data f) (pos f) n, mkfile (data f) (pos f + n))
  else Err TruncatedStream.
Proof.
  induction n as [|n IH]; intros [d p]; cbn [read_chars data pos Nat.eqb orb].
  - unfold ret, chars_at. rewrite Nat.add_0_r. reflexivity.
  - unfold bind. rewrite read_ord_eq. cbn [data pos].
    destruct (nth_error d p) as [b|] eqn:E.
    + assert (L : (p < List.length d)%nat) by (apply nth_error_Some; congruence).
      rewrite IH. cbn [data pos].
      destruct (Nat.leb_spec (p + S n) (List.length d)) as [L1|L1].
      * replace ((n =? 0)%nat || (S p + n <=? List.length d)%nat) with true.
        2:{ symmetry. apply orb_true_iff. right. apply Nat.leb_le. lia. }
        unfold ret. rewrite (chars_at_step _ _ _ _ E), chr_byte_val.
        do 3 f_equal. lia.
      * replace ((n =? 0)%nat || (S p + n <=? List.length d)%nat) with false.
        { reflexivity. }
        symmetry. apply orb_false_iff. split.
        -- apply Nat.eqb_neq. lia.
        -- apply Nat.leb_gt. lia.
    + apply nth_error_None in E.
      destruct (Nat.leb_spec (p + S n) (List.length d)); [lia|reflexivity].
Qed.

(** The two length bytes are read most significant first. *)
Lemma field_length_value b0 b1 :
  bits_to_int (flat_map byte_bits (rev [byte_val b0; byte_val b1]))
  = 256 * byte_val b0 + byte_val b1.
Proof.
  cbn [rev app flat_map]. rewrite app_nil_r, bits_to_int_value.
  rewrite bits_value_app, !byte_bits_value.
  unfold byte_bits. cbn [seq map List.length]. change (2 ^ Z.of_nat 8) with 256. ring.
Qed.

Lemma read_bytes_ascii_eq f :
  read_bytes_ascii f =
  match nth_error (data f) (pos f), nth_error (data f) (S (pos f)) with
  | Some b0, Some b1 =>
      let n := Z.to_nat (256 * byte_val b0 + byte_val b1) in
      if (pos f + 2 + n <=? List.length (data f))%nat
      then Ok (chars_at (data f) (pos f + 2) n, mkfile (data f) (pos f + 2 + n))
      else Err TruncatedStream
  | _, _ => Err TruncatedStream
  end.
Proof.
  destruct f as [d p]. unfold read_bytes_ascii, bind. cbn [data pos].
  rewrite read_ord_eq. cbn [data pos].
  destruct (nth_error d p) as [b0|] eqn:E0; [|reflexivity].
  rewrite read_ord_eq. cbn [data pos].
  destruct (nth_error d (S p)) as [b1|] eqn:E1; [|reflexivity].
  assert (L : (S p < List.length d)%nat) by (apply nth_error_Some; congruence).
  rewrite field_length_value, read_chars_eq. cbn [data pos].
  set (n := Z.to_nat (256 * byte_val b0 + byte_val b1)).
  replace (S (S p)) with (p + 2)%nat by lia.
  destruct (Nat.leb_spec (p + 2 + n) (List.length d)) as [L1|L1].
  - now rewrite orb_true_r.
  - destruct n; [lia|]. reflexivity.
Qed.

Lemma encode_field_length_bytes (bs : list byte) :
  Z.of_nat (List.length bs) < 65536 ->
  256 * byte_val (byte_of_Z (Z.of_nat (List.length bs) / 256))
  + byte_val (byte_of_Z (Z.of_nat (List.length bs) mod 256))
  = Z.of_nat (List.length bs).
Proof.
  intros L. set (n := Z.of_nat (List.length bs)).
  assert (0 <= n < 65536) by lia.
  rewrite !byte_val_of_Z.
  - pose proof (Z.div_mod n 256). lia.
  - apply Z.mod_pos_bound. lia.
  - split; [apply Z.div_pos; lia|apply Z.div_lt_upper_bound; lia].
Qed.

Lemma nth_error_after {A} (pre l : list A) k :
  nth_error (pre ++ l) (List.length pre + k) = nth_error l k.
Proof. induction pre as [|x pre IH]; [reflexivity|exact IH]. Qed.

Lemma skipn_after {A} (pre l : list A) k :
  skipn (List.length pre + k) (pre ++ l) = skipn k l.
Proof. induction pre as [|x pre IH]; [reflexivity|exact IH]. Qed.

Lemma read_encoded_field pre bs post :
  Z.of_nat (List.length bs) < 65536 ->
  read_bytes_ascii (mkfile (pre ++ encode_field bs ++ post) (List.length pre))
  = Ok (string_of_list_byte bs,
        mkfile (pre ++ encode_field bs ++ post)
               (List.length pre + List.length (encode_field bs))).
Proof.
  intros L. rewrite read_bytes_ascii_eq. cbn [data pos].
  rewrite <- (Nat.add_0_r (List.length pre)) at 1.
  replace (S (List.length pre)) with (List.length pre + 1)%nat by lia.
  rewrite !nth_error_after.
  unfold encode_field at 1 2. cbn [app nth_error]. cbv zeta.
  rewrite encode_field_length_bytes by assumption. rewrite Nat2Z.id.
  destruct (Nat.leb_spec (List.length pre + 2 + List.length bs)
              (List.length (pre ++ encode_field bs ++ post))) as [L1|L1].
  2:{ rewrite !length_app in L1. unfold encode_field in L1. cbn [List.length] in L1. lia. }
  unfold chars_at. rewrite skipn_after.
  unfold encode_field at 1. cbn [app skipn].
  rewrite firstn_app, firstn_all, Nat.sub_diag. cbn [firstn]. rewrite app_nil_r.
  do 3 f_equal. unfold encode_field. cbn [List.length]. lia.
Qed.

Lemma string_of_list_byte_length l :
  String.length (string_of_list_byte l) = List.length l.
Proof.
  unfold string_of_list_byte.
  induction l as [|b l IH]; cbn [map string_of_list_ascii String.length List.length];
    congruence.
Qed.

Lemma chars_at_length d p n :
  (p + n <= List.length d)%nat -> String.length (chars_at d p n) = n.
Proof.
  intros L. unfold chars_at.
  rewrite string_of_list_byte_length, length_firstn, length_skipn. lia.
Qed.

(** X1. A field written as two length bytes (most significant first)
    followed by that many bytes is read back by [read_bytes_ascii] as
    the string of those bytes, and the cursor is left just behind the
    field. *)
Theorem read_bytes_ascii_round_trip pre bs post :
  Z.of_nat (List.length bs) < 65536 ->
  read_bytes_ascii (mkfile (pre ++ encode_field bs ++ post) (List.length pre))
  = Ok (string_of_list_byte bs,
        mkfile (pre ++ encode_field bs ++ post)
               (List.length pre + 2 + List.length bs)).
Proof.
  intros L. rewrite read_encoded_field by assumption.
  do 3 f_equal. unfold encode_field. cbn [List.length]. lia.
Qed.

Lemma read_bytes_ascii_round_trip_7a35t :
  read_bytes_ascii
    (mkfile ([x62] ++ encode_field [x37; x61; x33; x35; x74; x00] ++ [xff]) 1)
  = Ok (String "7" (String "a" (String "3" (String "5" (String "t"
          (String "000" EmptyString))))),
        mkfile ([x62] ++ encode_field [x37; x61; x33; x35; x74; x00] ++ [xff]) 9).
Proof.
  apply (read_bytes_ascii_round_trip [x62] [x37; x61; x33; x35; x74; x00] [xff]).
  reflexivity.
Defined.

(** X2. [read_bytes_ascii] either returns a string and leaves the cursor
    two bytes plus the string's length further, inside the file, or
    stops with the end-of-file failure; the string's length is the
    number announced by the two length bytes. *)
Theorem read_bytes_ascii_outcome f :
  (exists s b0 b1,
     nth_error (data f) (pos f) = Some b0 /\
     nth_error (data f) (S (pos f)) = Some b1 /\
     Z.of_nat (String.length s) = 256 * byte_val b0 + byte_val b1 /\
     (pos f + 2 + String.length s <= List.length (data f))%nat /\
     read_bytes_ascii f
     = Ok (s, mkfile (data f) (pos f + 2 + String.length s))) \/
  read_bytes_ascii f = Err TruncatedStream.
Proof.
  rewrite read_bytes_ascii_eq.
  destruct (nth_error (data f) (pos f)) as [b0|]; [|now right].
  destruct (nth_error (data f) (S (pos f))) as [b1|]; [|now right].
  cbv zeta. set (n := Z.to_nat (256 * byte_val b0 + byte_val b1)).
  destruct (Nat.leb_spec (pos f + 2 + n) (List.length (data f))) as [L|L];
    [|now right].
  left. exists (chars_at (data f) (pos f + 2) n), b0, b1.
  rewrite chars_at_length by lia.
  repeat split; auto.
  unfold n. rewrite Z2Nat.id; [reflexivity|].
  unfold byte_val. lia.
Qed.

(** ** The header *)

Lemma read_field_at d p pre bs post :
  d = pre ++ encode_field bs ++ post -> p = List.length pre ->
  Z.of_nat (List.length bs) < 65536 ->
  read_bytes_ascii (mkfile d p)
  = Ok (string_of_list_byte bs, mkfile d (p + 2 + List.length bs)).
Proof.
  intros -> -> L. rewrite read_encoded_field by assumption.
  do 3 f_equal. unfold encode_field. cbn [List.length]. lia.
Qed.

Lemma string_of_list_byte_app a b :
  string_of_list_byte (a ++ b)
  = (string_of_list_byte a ++ string_of_list_byte b)%string.
Proof.
  unfold string_of_list_byte.
  induction a as [|x a IH]; cbn [app map string_of_list_ascii append];
    [reflexivity|now rewrite IH].
Qed.

Lemma drop_last_snoc s c : drop_last (s ++ String c "") = s.
Proof.
  induction s as [|x s IH]; [reflexivity|].
  cbn [append drop_last]. rewrite IH.
  destruct s; reflexivity.
Qed.

Lemma list_byte_of_string_length s :
  List.length (list_byte_of_string s) = String.length s.
Proof.
  unfold list_byte_of_string.
  induction s as [|c s IH]; cbn [list_ascii_of_string map List.length String.length];
    congruence.
Qed.

Lemma encode_field_length bs : List.length (encode_field bs) = (2 + List.length bs)%nat.
Proof. reflexivity. Qed.

(** X3. On a header laid out as a first field, the field "a", a design
    field, one separator byte and the part-name field ending in a
    terminator byte, [find_config_packet]'s header reader returns the
    part name without its terminator, rewritten to xc<name>-1 when it
    starts with the digit 7, and leaves the cursor at the first byte
    after the header; an empty part name stops it with an index
    error. *)
Theorem read_part_name_round_trip field1 design sep name terminator rest :
  Z.of_nat (List.length field1) < 65536 ->
  Z.of_nat (List.length design) < 65536 ->
  Z.of_nat (String.length name) + 1 < 65536 ->
  let header := encode_header field1 design sep name terminator in
  read_part_name (mkfile (header ++ rest) 0)
  = match name with
    | EmptyString => Err IndexError
    | _ => Ok (normalize_part name, mkfile (header ++ rest) (List.length header))
    end.
Proof.
  intros L1 L3 L4 header.
  set (e1 := encode_field field1).
  set (e2 := encode_field (list_byte_of_string "a")).
  set (e3 := encode_field design).
  set (e4 := encode_field (list_byte_of_string name ++ [terminator])).
  assert (D : header ++ rest = e1 ++ e2 ++ e3 ++ [sep] ++ e4 ++ rest).
  { unfold header, encode_header. fold e1 e2 e3 e4. now rewrite <- !app_assoc. }
  assert (Hlen : List.length header
                 = (List.length e1 + List.length e2 + List.length e3 + 1
                    + List.length e4)%nat).
  { unfold header, encode_header. fold e1 e2 e3 e4. rewrite !length_app.
    cbn [List.length]. lia. }
  set (d := header ++ rest) in *.
  assert (Q1 : List.length e1 = (2 + List.length field1)%nat) by reflexivity.
  assert (Q2 : List.length e2 = 3%nat) by reflexivity.
  assert (Q3 : List.length e3 = (2 + List.length design)%nat) by reflexivity.
  assert (Q4 : List.length e4 = (3 + String.length name)%nat).
  { unfold e4. rewrite encode_field_length, length_app, list_byte_of_string_length.
    cbn [List.length]. lia. }
  unfold read_part_name, bind.
  rewrite (read_field_at d 0 [] field1 (e2 ++ e3 ++ [sep] ++ e4 ++ rest))
    by (auto; exact D).
  rewrite (read_field_at d _ e1 (list_byte_of_string "a") (e3 ++ [sep] ++ e4 ++ rest));
    [|exact D|reflexivity|reflexivity].
  change (string_of_list_byte (list_byte_of_string "a")) with "a"%string.
  cbn [String.eqb Ascii.eqb Bool.eqb negb andb].
  rewrite (read_field_at d _ (e1 ++ e2) design ([sep] ++ e4 ++ rest));
    [|rewrite D; now rewrite <- !app_assoc
     |rewrite length_app, Q1, Q2; cbn [List.length list_byte_of_string
                                       list_ascii_of_string map]; lia
     |assumption].
  set (p3 := (0 + 2 + List.length field1 + 2
              + List.length (list_byte_of_string "a") + 2 + List.length design)%nat).
  assert (P3 : p3 = List.length (e1 ++ e2 ++ e3)).
  { unfold p3. rewrite !length_app, Q1, Q2, Q3.
    cbn [List.length list_byte_of_string list_ascii_of_string map]. lia. }
  assert (S3 : nth_error d p3 = Some sep).
  { rewrite D, P3.
    replace (e1 ++ e2 ++ e3 ++ [sep] ++ e4 ++ rest)
      with ((e1 ++ e2 ++ e3) ++ [sep] ++ e4 ++ rest) by now rewrite <- !app_assoc.
    rewrite <- (Nat.add_0_r (List.length (e1 ++ e2 ++ e3))).
    rewrite nth_error_after. reflexivity. }
  unfold read1 at 1. cbn [data pos]. rewrite S3.
  rewrite (read_field_at d _ (e1 ++ e2 ++ e3 ++ [sep])
             (list_byte_of_string name ++ [terminator]) rest).
  2:{ rewrite D. now rewrite <- !app_assoc. }
  2:{ rewrite P3, !length_app. cbn [List.length]. lia. }
  2:{ rewrite length_app, list_byte_of_string_length. cbn [List.length]. lia. }
  rewrite string_of_list_byte_app, string_of_list_byte_of_string.
  change (string_of_list_byte [terminator])
    with (String (ascii_of_byte terminator) "").
  rewrite drop_last_snoc.
  destruct name as [|c name']; [reflexivity|].
  assert (E : (S p3 + 2 + List.length (list_byte_of_string (String c name') ++ [terminator]))%nat
              = List.length header).
  { rewrite Hlen, P3, !length_app, Q1, Q2, Q3, Q4, list_byte_of_string_length.
    cbn [List.length]. lia. }
  rewrite E. unfold normalize_part.
  destruct (Ascii.eqb_spec c "7") as [->|N].
  - reflexivity.
  - unfold ret. f_equal. f_equal.
    destruct c as [[] [] [] [] [] [] [] []]; try reflexivity.
    exfalso. apply N. reflexivity.
Qed.

Lemma read_part_name_round_trip_sample :
  read_part_name (mkfile (encode_header [x2e] [x64] x62 "7a35t" x00 ++ [xff; xff]) 0)
  = Ok ("xc7a35t-1"%string,
        mkfile (encode_header [x2e] [x64] x62 "7a35t" x00 ++ [xff; xff]) 18).
Proof.
  apply (read_part_name_round_trip [x2e] [x64] x62 "7a35t" x00 [xff; xff]);
    reflexivity.
Defined.

(** X4. A file whose second header field is not the single letter a is
    turned down with the unrecognized-format failure, whatever
    follows. *)
Theorem unrecognized_second_field field1 second rest :
  Z.of_nat (List.length field1) < 65536 ->
  Z.of_nat (List.length second) < 65536 ->
  string_of_list_byte second <> "a"%string ->
  find_config_packet (mkfile (encode_field field1 ++ encode_field second ++ rest) 0)
  = Err UnrecognizedFormat.
Proof.
  intros L1 L2 N.
  unfold find_config_packet, find_config_packet_fuel, bind, read_part_name, bind.
  rewrite (read_field_at _ 0 [] field1 (encode_field second ++ rest));
    [|reflexivity|reflexivity|assumption].
  rewrite (read_field_at _ _ (encode_field field1) second rest);
    [|reflexivity|reflexivity|assumption].
  apply String.eqb_neq in N. rewrite N. reflexivity.
Qed.

Lemma unrecognized_second_field_b :
  find_config_packet
    (mkfile (encode_field [x2e] ++ encode_field [x62] ++ [x00; x01; x64]) 0)
  = Err UnrecognizedFormat.
Proof.
  apply (unrecognized_second_field [x2e] [x62] [x00; x01; x64]);
    [reflexivity|reflexivity|discriminate].
Defined.

(** ** The synchronisation word *)

Lemma byte_val_bounds (b : byte) : 0 <= byte_val b < 256.
Proof.
  unfold byte_val. pose proof (Byte.to_N_bounded b). lia.
Qed.

Lemma byte_val_inj a b : byte_val a = byte_val b -> a = b.
Proof.
  unfold byte_val. intros H. apply N2Z.inj in H.
  pose proof (Byte.of_to_N a) as Ha. rewrite H, Byte.of_to_N in Ha. congruence.
Qed.

Lemma word_at_four d p b0 b1 b2 b3 :
  firstn 4 (skipn p d) = [b0; b1; b2; b3] ->
  bits_to_int (word_at d p)
  = byte_val b0 * 2 ^ 24 + byte_val b1 * 2 ^ 16 + byte_val b2 * 2 ^ 8 + byte_val b3.
Proof.
  intros H. unfold word_at. rewrite H. cbn [map rev app flat_map].
  rewrite app_nil_r, bits_to_int_value, !bits_value_app, !byte_bits_value.
  unfold byte_bits. cbn [seq map List.length]. change (Z.of_nat 8) with 8. ring.
Qed.

Lemma firstn4_skipn {A} (d : list A) p :
  (p + 4 <= List.length d)%nat ->
  exists b0 b1 b2 b3, firstn 4 (skipn p d) = [b0; b1; b2; b3].
Proof.
  intros L.
  assert (H : List.length (firstn 4 (skipn p d)) = 4%nat)
    by (rewrite length_firstn, length_skipn; lia).
  destruct (firstn 4 (skipn p d)) as [|b0 [|b1 [|b2 [|b3 [|]]]]]; try discriminate.
  eauto.
Qed.

(** A word has the value 0xAA995566 exactly when its bytes are AA 99 55
    66. *)
Lemma sync_word_bytes d p :
  (p + 4 <= List.length d)%nat ->
  bits_to_int (word_at d p) = SYNC_WORD <->
  firstn 4 (skipn p d) = [xaa; x99; x55; x66].
Proof.
  intros L. split.
  - intros H. destruct (firstn4_skipn d p L) as (b0 & b1 & b2 & b3 & E).
    rewrite (word_at_four _ _ _ _ _ _ E) in H. unfold SYNC_WORD in H.
    pose proof (byte_val_bounds b0). pose proof (byte_val_bounds b1).
    pose proof (byte_val_bounds b2). pose proof (byte_val_bounds b3).
    assert (byte_val b0 = byte_val xaa) by (change (byte_val xaa) with 170; lia).
    assert (byte_val b1 = byte_val x99) by (change (byte_val x99) with 153; lia).
    assert (byte_val b2 = byte_val x55) by (change (byte_val x55) with 85; lia).
    assert (byte_val b3 = byte_val x66) by (change (byte_val x66) with 102; lia).
    rewrite E. f_equal; [|f_equal; [|f_equal; [|f_equal]]]; now apply byte_val_inj.
  - intros E. rewrite (word_at_four _ _ _ _ _ _ E). reflexivity.
Qed.

Lemma sync_search_found fuel : forall f f',
  sync_search fuel f = Ok (Done tt, f') ->
  data f' = data f /\ (pos f + 4 <= pos f')%nat /\
  (pos f' <= List.length (data f))%nat /\
  firstn 4 (skipn (pos f' - 4) (data f)) = [xaa; x99; x55; x66].
Proof.
  induction fuel as [|k IH]; intros f f' H; cbn [sync_search] in H; [discriminate|].
  unfold bind in H. destruct (sync_step f) as [[b f1]|] eqn:E; [|discriminate].
  pose proof (sync_step_progress _ _ _ E) as (D & P & B).
  destruct b.
  - inversion H; subst f1. clear H.
    rewrite sync_step_eq in E.
    destruct (nth_error (data f) (pos f)) as [x|]; [|discriminate].
    destruct (byte_val x =? 170); [|discriminate].
    destruct (Nat.leb_spec (pos f + 4) (List.length (data f))) as [L|L]; [|discriminate].
    inversion E as [[W F]]. cbn [data pos].
    repeat split; auto; try lia.
    replace (pos f + 4 - 4)%nat with (pos f) by lia.
    apply sync_word_bytes; [assumption|]. now apply Z.eqb_eq.
  - apply IH in H as (D' & P' & B' & W). rewrite D in *.
    repeat split; auto; lia.
Qed.

Lemma sync_search_skips_at skip : forall pre post fuel d,
  d = pre ++ skip ++ [xaa; x99; x55; x66] ++ post ->
  Forall (fun b => b <> xaa) skip ->
  (List.length skip < fuel)%nat ->
  sync_search fuel (mkfile d (List.length pre))
  = Ok (Done tt, mkfile d (List.length pre + List.length skip + 4)).
Proof.
  induction skip as [|b skip IH]; intros pre post fuel d D F L.
  - destruct fuel as [|fuel]; [cbn in L; lia|].
    assert (N : nth_error d (List.length pre) = Some xaa).
    { rewrite D, <- (Nat.add_0_r (List.length pre)), nth_error_after. reflexivity. }
    assert (B : (List.length pre + 4 <= List.length d)%nat).
    { rewrite D, !length_app. cbn [List.length]. lia. }
    assert (W : bits_to_int (word_at d (List.length pre)) = SYNC_WORD).
    { apply sync_word_bytes; [assumption|].
      rewrite D, <- (Nat.add_0_r (List.length pre)), skipn_after. reflexivity. }
    cbn [sync_search]. unfold bind. rewrite sync_step_eq. cbn [data pos].
    rewrite N, W. change (byte_val xaa =? 170) with true. cbv iota.
    destruct (Nat.leb_spec (List.length pre + 4) (List.length d)); [|lia].
    change (SYNC_WORD =? SYNC_WORD) with true. cbv iota.
    unfold ret. do 3 f_equal. cbn [List.length]. lia.
  - destruct fuel as [|fuel]; [cbn in L; lia|].
    apply Forall_cons_iff in F as [Hb F'].
    assert (N : nth_error d (List.length pre) = Some b).
    { rewrite D, <- (Nat.add_0_r (List.length pre)), nth_error_after. reflexivity. }
    cbn [sync_search]. unfold bind. rewrite sync_step_eq. cbn [data pos].
    rewrite N.
    destruct (Z.eqb_spec (byte_val b) 170) as [E|E].
    { exfalso. apply Hb. apply byte_val_inj. exact E. }
    specialize (IH (pre ++ [b]) post fuel d).
    rewrite length_app in IH. cbn [List.length] in IH.
    replace (S (List.length pre)) with (List.length pre + 1)%nat by lia.
    rewrite IH.
    + do 3 f_equal. cbn [List.length]. lia.
    + rewrite D, <- !app_assoc. reflexivity.
    + assumption.
    + cbn [List.length] in L. lia.
Qed.

Lemma sync_search_skips skip pre post fuel :
  Forall (fun b => b <> xaa) skip ->
  (List.length skip < fuel)%nat ->
  sync_search fuel
    (mkfile (pre ++ skip ++ [xaa; x99; x55; x66] ++ post) (List.length pre))
  = Ok (Done tt,
        mkfile (pre ++ skip ++ [xaa; x99; x55; x66] ++ post)
               (List.length pre + List.length skip + 4)).
Proof. intros F L. now apply (sync_search_skips_at skip pre post). Qed.

(** X5. When the synchronisation search ends, the four bytes just
    before the cursor are AA 99 55 66; and a sync word that is preceded,
    from the place the search starts, only by bytes other than 0xAA is
    found, the cursor being left right behind it. *)
Theorem sync_search_finds_sync_word :
  (forall fuel f f',
     sync_search fuel f = Ok (Done tt, f') ->
     data f' = data f /\ (pos f + 4 <= pos f' <= List.length (data f))%nat /\
     firstn 4 (skipn (pos f' - 4) (data f)) = [xaa; x99; x55; x66]) /\
  (forall pre skip post fuel,
     Forall (fun b => b <> xaa) skip -> (List.length skip < fuel)%nat ->
     sync_search fuel
       (mkfile (pre ++ skip ++ [xaa; x99; x55; x66] ++ post) (List.length pre))
     = Ok (Done tt,
           mkfile (pre ++ skip ++ [xaa; x99; x55; x66] ++ post)
                  (List.length pre + List.length skip + 4))).
Proof.
  split.
  - intros fuel f f' H. apply sync_search_found in H as (D & P & B & W).
    repeat split; auto; lia.
  - intros pre skip post fuel F L. now apply sync_search_skips.
Qed.

Lemma sync_search_finds_sync_word_sample :
  sync_search 5 (mkfile ([x00] ++ [xff; xff; x00; xbb] ++ [xaa; x99; x55; x66] ++ [x20]) 1)
  = Ok (Done tt,
        mkfile ([x00] ++ [xff; xff; x00; xbb] ++ [xaa; x99; x55; x66] ++ [x20]) 9).
Proof.
  apply (proj2 sync_search_finds_sync_word [x00] [xff; xff; x00; xbb] [x20] 5%nat).
  - repeat constructor; discriminate.
  - cbn. lia.
Defined.

(** ** Outcomes of [find_config_packet] *)

Lemma read_bytes_ascii_err f e : read_bytes_ascii f = Err e -> e = TruncatedStream.
Proof.
  rewrite read_bytes_ascii_eq.
  destruct (nth_error (data f) (pos f)); [|congruence].
  destruct (nth_error (data f) (S (pos f))); [|congruence].
  cbv zeta. destruct (_ <=? _)%nat; congruence.
Qed.

Lemma read_part_name_err f e :
  read_part_name f = Err e ->
  e = TruncatedStream \/ e = UnrecognizedFormat \/ e = IndexError.
Proof.
  unfold read_part_name, bind.
  destruct (read_bytes_ascii f) as [[s1 f1]|e1] eqn:E1.
  2:{ intros H; inversion H; subst. left. eapply read_bytes_ascii_err, E1. }
  destruct (read_bytes_ascii f1) as [[s2 f2]|e2] eqn:E2.
  2:{ intros H; inversion H; subst. left. eapply read_bytes_ascii_err, E2. }
  destruct (negb (s2 =? "a")%string).
  { unfold raise. intros H; inversion H. auto. }
  destruct (read_bytes_ascii f2) as [[s3 f3]|e3] eqn:E3.
  2:{ intros H; inversion H; subst. left. eapply read_bytes_ascii_err, E3. }
  destruct (read1 f3) as [[s4 f4]|e4] eqn:E4.
  2:{ unfold read1 in E4. destruct (nth_error _ _); discriminate. }
  destruct (read_bytes_ascii f4) as [[s5 f5]|e5] eqn:E5.
  2:{ intros H; inversion H; subst. left. eapply read_bytes_ascii_err, E5. }
  destruct (drop_last s5) as [|c s].
  { unfold raise. intros H; inversion H. auto. }
  destruct (c =? "7")%char; discriminate.
Qed.

Lemma sync_search_err fuel : forall f e,
  sync_search fuel f = Err e -> e = TruncatedStream.
Proof.
  induction fuel as [|k IH]; intros f e; cbn [sync_search]; [discriminate|].
  unfold bind. rewrite sync_step_eq.
  destruct (nth_error (data f) (pos f)) as [b|]; [|congruence].
  destruct (byte_val b =? 170).
  - destruct (_ <=? _)%nat; [|congruence].
    destruct (_ =? SYNC_WORD); [discriminate|apply IH].
  - apply IH.
Qed.

Lemma read_words_err n : forall f e, read_words n f = Err e -> e = TruncatedStream.
Proof.
  induction n as [|n IH]; intros f e; cbn [read_words]; [discriminate|].
  unfold bind. rewrite parse_word_eq.
  destruct (_ <=? _)%nat; [|congruence].
  destruct (read_words n _) as [[ws f2]|e2] eqn:E; [discriminate|].
  intros H; inversion H; subst. eapply IH, E.
Qed.

Lemma scan_packets_err fuel : forall flag f e,
  scan_packets fuel flag f = Err e -> e = TruncatedStream.
Proof.
  induction fuel as [|k IH]; intros flag f e; cbn [scan_packets]; [discriminate|].
  unfold bind, scan_step, bind. rewrite parse_word_eq.
  destruct (_ <=? _)%nat; [|congruence].
  destruct (is_type2 _ && flag); [discriminate|].
  destruct (is_type1 _).
  - destruct (read_words _ _) as [[ws f2]|e2] eqn:E.
    + apply IH.
    + intros H; inversion H; subst. eapply read_words_err, E.
  - apply IH.
Qed.

(** X6. [find_config_packet] always comes to an end.  It returns a part
    name and a payload length, or it stops for one of three reasons: the
    file ended (the only way the two searches can fail), the second
    header field is not a, or the part name is empty. *)
Theorem find_config_packet_outcome f :
  (exists part len f', find_config_packet f = Ok (Done (part, len), f')) \/
  find_config_packet f = Err TruncatedStream \/
  find_config_packet f = Err UnrecognizedFormat \/
  find_config_packet f = Err IndexError.
Proof.
  destruct (find_config_packet f) as [[[[part len]|] f']|e] eqn:E.
  - left. eauto.
  - exfalso. eapply find_config_packet_terminates, E.
  - right. unfold find_config_packet, find_config_packet_fuel, bind in E.
    destruct (read_part_name f) as [[part f0]|e0] eqn:E0.
    + destruct (sync_search _ f0) as [[[[]|] fs]|e1] eqn:E1.
      * destruct (scan_packets _ false fs) as [[[len|] f2]|e2] eqn:E2;
          try discriminate.
        inversion E; subst. apply scan_packets_err in E2. subst. auto.
      * discriminate.
      * inversion E; subst. apply sync_search_err in E1. subst. auto.
    + inversion E; subst. apply read_part_name_err in E0.
      destruct E0 as [->|[->| ->]]; auto.
Qed.

(** ** The packet scan, from the stream to the length *)

Lemma word_at_inside d pre a post :
  d = pre ++ a ++ post -> List.length a = 4%nat ->
  word_at d (List.length pre) = word_at a 0.
Proof.
  intros -> L. unfold word_at.
  rewrite <- (Nat.add_0_r (List.length pre)), skipn_after. cbn [skipn].
  rewrite firstn_app, L. cbn [Nat.sub firstn]. rewrite app_nil_r.
  reflexivity.
Qed.

Lemma type1_not_type2 w : is_type1 w = true -> is_type2 w = false.
Proof.
  unfold is_type1, is_type2. rewrite list_Z_eqb_eq. intros ->. reflexivity.
Qed.

Lemma scan_step_setup flag d p :
  (p + 4 <= List.length d)%nat ->
  fdri_write_setup (word_at d p) = true ->
  scan_step flag (mkfile d p) = Ok (KeepScanning true, mkfile d (p + 4)).
Proof.
  intros L S1.
  destruct (fdri_write_setup_inv _ S1) as (T1 & Op & Ad & Le).
  unfold scan_step, bind. rewrite parse_word_eq. cbn [data pos].
  destruct (Nat.leb_spec (p + 4) (List.length d)); [|lia].
  rewrite (type1_not_type2 _ T1), T1, Le, Op, Ad. reflexivity.
Qed.

Lemma scan_step_type2 d p :
  (p + 4 <= List.length d)%nat ->
  is_type2 (word_at d p) = true ->
  scan_step true (mkfile d p)
  = Ok (InConfigData (packet_2_length (word_at d p)), mkfile d (p + 4)).
Proof.
  intros L T2. unfold scan_step, bind. rewrite parse_word_eq. cbn [data pos].
  destruct (Nat.leb_spec (p + 4) (List.length d)); [|lia].
  rewrite T2. reflexivity.
Qed.

(** The FDRI write setup followed by a Type-2 header ends the scan in
    two turns, whatever the flag was. *)
Lemma scan_packets_pair fuel flag d p :
  (p + 8 <= List.length d)%nat ->
  fdri_write_setup (word_at d p) = true ->
  is_type2 (word_at d (p + 4)) = true ->
  scan_packets (S (S fuel)) flag (mkfile d p)
  = Ok (Done (packet_2_length (word_at d (p + 4))), mkfile d (p + 8)).
Proof.
  intros L S1 T2. cbn [scan_packets]. unfold bind.
  rewrite (scan_step_setup flag d p) by (auto; lia).
  rewrite (scan_step_type2 d (p + 4)) by (auto; lia).
  unfold ret. do 3 f_equal. lia.
Qed.

(** X7. A file in which the header reader stops at some offset, followed
    from there by padding free of 0xAA bytes, the sync word, a word that
    is the FDRI write setup and a Type-2 header, makes
    [find_config_packet] return the part name and the low 27 bits of the
    Type-2 word, the cursor resting on the first payload byte. *)
Theorem find_config_packet_returns_length d pre part padding a b payload :
  d = pre ++ padding ++ [xaa; x99; x55; x66] ++ a ++ b ++ payload ->
  read_part_name (mkfile d 0) = Ok (part, mkfile d (List.length pre)) ->
  Forall (fun x => x <> xaa) padding ->
  List.length a = 4%nat -> List.length b = 4%nat ->
  fdri_write_setup (word_at a 0) = true ->
  is_type2 (word_at b 0) = true ->
  find_config_packet (mkfile d 0)
  = Ok (Done (part, bits_to_int (word_at b 0) mod 2 ^ 27),
        mkfile d (List.length pre + List.length padding + 12)).
Proof.
  intros D R F La Lb S1 T2.
  unfold find_config_packet, find_config_packet_fuel, bind. rewrite R.
  rewrite (sync_search_skips_at padding pre (a ++ b ++ payload) _ d D F).
  2:{ unfold remaining. cbn [data pos]. rewrite D, !length_app. lia. }
  set (p := (List.length pre + List.length padding + 4)%nat).
  assert (Wa : word_at d p = word_at a 0).
  { replace p with (List.length (pre ++ padding ++ [xaa; x99; x55; x66])).
    - apply (word_at_inside d _ a (b ++ payload)); [|assumption].
      rewrite D, <- !app_assoc. reflexivity.
    - unfold p. rewrite !length_app. cbn [List.length]. lia. }
  assert (Wb : word_at d (p + 4) = word_at b 0).
  { replace (p + 4)%nat with (List.length (pre ++ padding ++ [xaa; x99; x55; x66] ++ a)).
    - apply (word_at_inside d _ b payload); [|assumption].
      rewrite D, <- !app_assoc. reflexivity.
    - unfold p. rewrite !length_app, La. cbn [List.length]. lia. }
  assert (L : (p + 8 <= List.length d)%nat).
  { unfold p. rewrite D, !length_app, La, Lb. cbn [List.length]. lia. }
  assert (Fu : exists k, S (remaining (mkfile d 0)) = S (S k)).
  { unfold remaining. cbn [data pos]. exists (List.length d - 1)%nat. lia. }
  destruct Fu as (k & ->).
  rewrite (scan_packets_pair k false d p L); [|now rewrite Wa|now rewrite Wb].
  rewrite Wb.
  assert (H27 : packet_2_length (word_at b 0) = bits_to_int (word_at b 0) mod 2 ^ 27)
    by apply (proj1 (header_fields_of_value b 0)).
  rewrite H27.
  replace (p + 8)%nat with (List.length pre + List.length padding + 12)%nat
    by (unfold p; lia).
  reflexivity.
Qed.

Lemma find_config_packet_returns_length_sample :
  let d := sample_header ++ [xff; xff; xff; xff] ++ [xaa; x99; x55; x66]
           ++ [x30; x00; x40; x00] ++ [x50; x00; x00; xca] ++ [] in
  find_config_packet (mkfile d 0)
  = Ok (Done ("xc7a35t-1"%string, 202), mkfile d (List.length sample_header + 4 + 12)).
Proof.
  intros d.
  apply (find_config_packet_returns_length d sample_header
           "xc7a35t-1"%string [xff; xff; xff; xff]
           [x30; x00; x40; x00] [x50; x00; x00; xca] []).
  - reflexivity.
  - reflexivity.
  - repeat constructor; discriminate.
  - reflexivity.
  - reflexivity.
  - reflexivity.
  - reflexivity.
Defined.

(** ** Every outcome of the decoder *)

Lemma frame_words_truncated offsets fr : forall st f,
  (pos f <= List.length (data f) < pos f + 4 * List.length offsets)%nat ->
  frame_words offsets fr st f = Err TruncatedStream.
Proof.
  induction offsets as [|wo rest IH]; intros st f B; cbn [frame_words List.length] in *.
  - lia.
  - unfold bind. rewrite parse_word_eq.
    destruct (Nat.leb_spec (pos f + 4) (List.length (data f))) as [L|L]; [|reflexivity].
    apply IH. cbn [data pos]. lia.
Qed.

Lemma decode_frame_truncated prev fr st f :
  (pos f <= List.length (data f)
   < pos f + 4 * ((if row_changed prev fr then 202 else 0) + 101))%nat ->
  decode_frame prev fr st f = Err TruncatedStream.
Proof.
  intros B. unfold decode_frame, skip_row_boundary, bind.
  destruct (row_changed prev fr).
  - rewrite skip_words_eq. unfold FRAME_LENGTH. change (101 * 2)%nat with 202%nat.
    change (202 =? 0)%nat with false. rewrite orb_false_r.
    destruct (Nat.leb_spec (pos f + 4 * 202) (List.length (data f))) as [L|L];
      [|reflexivity].
    unfold ret. apply frame_words_truncated. cbn [data pos]. rewrite length_seq. lia.
  - unfold ret. apply frame_words_truncated. rewrite length_seq.
    unfold FRAME_LENGTH. lia.
Qed.

Lemma walk_frames_truncated frames : forall prev st f,
  (pos f <= List.length (data f) < pos f + 4 * words_consumed prev frames)%nat ->
  walk_frames frames prev st f = Err TruncatedStream.
Proof.
  induction frames as [|fr rest IH]; intros prev st f B;
    cbn [walk_frames words_consumed] in *; [lia|].
  unfold bind.
  set (m := ((if row_changed prev fr then 202 else 0) + 101)%nat) in *.
  destruct (Nat.le_gt_cases (pos f + 4 * m) (List.length (data f))) as [L|L].
  - destruct (decode_frame_ok prev fr st f L) as (st1 & E). fold m in E.
    rewrite E. apply IH. cbn [data pos]. lia.
  - rewrite decode_frame_truncated; [reflexivity|]. fold m. lia.
Qed.

(** X8. [parse_config_packet] has five outcomes, tried in this order: a
    length that is no multiple of 101 is malformed; an empty frame list
    is an index error; a file that ends before the words of all frames
    (101 each, 202 more at each row change) is truncated; a length other
    than those words plus 202 is incomplete; otherwise the named high
    bits are returned and the cursor has moved over exactly those
    words. *)
Theorem parse_config_packet_outcome len frames f :
  (pos f <= List.length (data f))%nat ->
  parse_config_packet len frames f =
  if negb (len mod 101 =? 0) then Err MalformedPacket
  else match frames with
       | [] => Err IndexError
       | frame0 :: _ =>
           let n := words_consumed frame0 frames in
           if (pos f + 4 * n <=? List.length (data f))%nat then
             if len - Z.of_nat n =? 202
             then Ok (expected_bits (data f) (pos f) frames,
                      mkfile (data f) (pos f + 4 * n))
             else Err IncompletePacket
           else Err TruncatedStream
       end.
Proof.
  intros B. unfold parse_config_packet, FRAME_LENGTH.
  change (Z.of_nat 101) with 101. change (2 * 101) with 202.
  destruct (negb (len mod 101 =? 0)); [reflexivity|].
  destruct frames as [|frame0 rest]; [reflexivity|].
  cbv zeta. set (frames := frame0 :: rest). set (n := words_consumed frame0 frames).
  unfold bind.
  destruct (Nat.leb_spec (pos f + 4 * n) (List.length (data f))) as [L|L].
  - destruct (walk_frames_ok frames frame0 (len, []) f L) as (st & W).
    fold n in W. rewrite W.
    apply walk_frames_inv in W as (_ & _ & _ & R & S).
    cbn [fst snd app] in R, S. fold n in R. rewrite R.
    destruct (len - Z.of_nat n =? 202); cbn [negb]; [|reflexivity].
    unfold ret. now rewrite S.
  - rewrite walk_frames_truncated; [reflexivity|]. fold n. lia.
Qed.

Lemma parse_config_packet_outcome_sample :
  parse_config_packet 606 sample_frames (mkfile sample_payload 0)
  = Ok (expected_bits sample_payload 0 sample_frames, mkfile sample_payload 1616) /\
  parse_config_packet 607 sample_frames (mkfile sample_payload 0) = Err MalformedPacket /\
  parse_config_packet 606 [] (mkfile sample_payload 0) = Err IndexError /\
  parse_config_packet 606 sample_frames (mkfile sample_payload 4) = Err TruncatedStream /\
  parse_config_packet 707 sample_frames (mkfile sample_payload 0) = Err IncompletePacket.
Proof.
  split; [|split; [|split; [|split]]].
  - rewrite (parse_config_packet_outcome 606 sample_frames (mkfile sample_payload 0));
      [reflexivity|cbn; lia].
  - rewrite (parse_config_packet_outcome 607 sample_frames (mkfile sample_payload 0));
      [reflexivity|cbn; lia].
  - rewrite (parse_config_packet_outcome 606 [] (mkfile sample_payload 0));
      [reflexivity|cbn; lia].
  - rewrite (parse_config_packet_outcome 606 sample_frames (mkfile sample_payload 4));
      [reflexivity|cbn; lia].
  - rewrite (parse_config_packet_outcome 707 sample_frames (mkfile sample_payload 0));
      [reflexivity|cbn; lia].
Defined.

(** ** Names of the high bits *)

Lemma below_forallb (P : nat -> bool) n :
  forallb P (seq 0 n) = true -> forall k, (k < n)%nat -> P k = true.
Proof.
  intros H k Hk. rewrite forallb_forall in H. apply H, in_seq. lia.
Qed.

Lemma word_offset_text_length wo :
  (wo < 101)%nat -> String.length (rjust 3 "0" (py_str wo)) = 3%nat.
Proof.
  intros H. apply Nat.eqb_eq.
  revert wo H. apply (below_forallb
    (fun k => (String.length (rjust 3 "0" (py_str k)) =? 3)%nat)).
  vm_compute. reflexivity.
Qed.

Lemma bit_offset_text_length bo :
  (bo < 32)%nat -> String.length (rjust 2 "0" (py_str bo)) = 2%nat.
Proof.
  intros H. apply Nat.eqb_eq.
  revert bo H. apply (below_forallb
    (fun k => (String.length (rjust 2 "0" (py_str k)) =? 2)%nat)).
  vm_compute. reflexivity.
Qed.

Lemma word_offset_text_inj a b :
  (a < 101)%nat -> (b < 101)%nat ->
  rjust 3 "0" (py_str a) = rjust 3 "0" (py_str b) -> a = b.
Proof.
  intros Ha Hb E.
  assert (T : forallb (fun x => forallb (fun y =>
                implb (rjust 3 "0" (py_str x) =? rjust 3 "0" (py_str y))%string
                      (x =? y)%nat) (seq 0 101)) (seq 0 101) = true)
    by (vm_compute; reflexivity).
  pose proof (below_forallb _ _ (below_forallb _ _ T a Ha) b Hb) as I.
  cbv beta in I. apply String.eqb_eq in E. rewrite E in I.
  now apply Nat.eqb_eq.
Qed.

Lemma bit_offset_text_inj a b :
  (a < 32)%nat -> (b < 32)%nat ->
  rjust 2 "0" (py_str a) = rjust 2 "0" (py_str b) -> a = b.
Proof.
  intros Ha Hb E.
  assert (T : forallb (fun x => forallb (fun y =>
                implb (rjust 2 "0" (py_str x) =? rjust 2 "0" (py_str y))%string
                      (x =? y)%nat) (seq 0 32)) (seq 0 32) = true)
    by (vm_compute; reflexivity).
  pose proof (below_forallb _ _ (below_forallb _ _ T a Ha) b Hb) as I.
  cbv beta in I. apply String.eqb_eq in E. rewrite E in I.
  now apply Nat.eqb_eq.
Qed.

Lemma append_inj_length (a : string) : forall a' b b',
  String.length a = String.length a' ->
  (a ++ b = a' ++ b')%string -> a = a' /\ b = b'.
Proof.
  induction a as [|x a IH]; intros [|x' a'] b b' L E; cbn in L; try discriminate.
  - auto.
  - cbn [append] in E. injection E as -> E.
    destruct (IH a' b b') as [-> ->]; [lia|assumption|auto].
Qed.

Lemma string_length_append (a b : string) :
  String.length (a ++ b) = (String.length a + String.length b)%nat.
Proof. induction a as [|x a IH]; cbn; [reflexivity|now rewrite IH]. Qed.

(** X9. The name written for a bit has eleven characters besides the
    frame address, and names the bit without ambiguity: for frame
    addresses of one length, word offsets below 101 and bit offsets
    below 32, two equal names have the same address, word offset and
    bit offset. *)
Theorem bit_name_injective h h' wo wo' bo bo' :
  (wo < 101)%nat -> (wo' < 101)%nat -> (bo < 32)%nat -> (bo' < 32)%nat ->
  String.length (bit_name h wo bo) = (String.length h + 11)%nat /\
  (String.length h = String.length h' ->
   bit_name h wo bo = bit_name h' wo' bo' ->
   h = h' /\ wo = wo' /\ bo = bo').
Proof.
  intros Hw Hw' Hb Hb'. split.
  - unfold bit_name. rewrite !string_length_append.
    rewrite (word_offset_text_length _ Hw), (bit_offset_text_length _ Hb).
    cbn [String.length]. lia.
  - intros L E. unfold bit_name in E. cbn [append] in E.
    injection E as E.
    apply append_inj_length in E as [-> E]; [|assumption].
    cbn [append] in E. injection E as E.
    apply append_inj_length in E as [W E].
    2:{ now rewrite !word_offset_text_length. }
    cbn [append] in E. injection E as E.
    repeat split.
    + now apply word_offset_text_inj.
    + now apply bit_offset_text_inj.
Qed.

Lemma bit_name_injective_sample :
  String.length (bit_name "00020027" 3 7) = 19%nat /\
  (bit_name "00020027" 3 7 = bit_name "00020027" 3 7 ->
   "00020027"%string = "00020027"%string /\ 3%nat = 3%nat /\ 7%nat = 7%nat).
Proof.
  destruct (bit_name_injective "00020027" "00020027" 3 3 7 7) as [L I];
    try (cbn; lia).
  split; [exact L|]. intros E. apply I; [reflexivity|exact E].
Defined.

(** ** Fields of the address accumulator *)

Lemma nth_set_nth {A} (d v : A) l : forall i j,
  nth j (set_nth i v l) d
  = if (j =? i)%nat && (i <? List.length l)%nat then v else nth j l d.
Proof.
  induction l as [|x l IH]; intros i j.
  - cbn [set_nth List.length]. destruct i; rewrite andb_false_r; reflexivity.
  - destruct i as [|i], j as [|j]; cbn [set_nth nth List.length]; try reflexivity.
    rewrite IH. reflexivity.
Qed.

Lemma set_field_succ lo width n addr :
  set_field lo (S width) n addr
  = set_nth (lo + width) (Z.land (Z.shiftr n (Z.of_nat width)) 1)
            (set_field lo width n addr).
Proof.
  unfold set_field. rewrite seq_S, fold_left_app. reflexivity.
Qed.

Lemma set_field_length lo width n addr :
  List.length (set_field lo width n addr) = List.length addr.
Proof.
  induction width as [|w IH]; [reflexivity|].
  now rewrite set_field_succ, set_nth_length.
Qed.

Lemma set_field_nth lo width n addr j :
  (lo + width <= List.length addr)%nat ->
  nth j (set_field lo width n addr) 0
  = if (lo <=? j)%nat && (j <? lo + width)%nat
    then Z.b2z (Z.testbit n (Z.of_nat (j - lo)))
    else nth j addr 0.
Proof.
  induction width as [|w IH]; intros L.
  - cbn [set_field fold_left seq].
    destruct (Nat.leb_spec lo j), (Nat.ltb_spec j (lo + 0)); cbn [andb];
      try reflexivity; lia.
  - rewrite set_field_succ, nth_set_nth, set_field_length, IH by lia.
    rewrite land_shiftr_bit by lia.
    destruct (Nat.eqb_spec j (lo + w)) as [->|N].
    + replace (lo + w - lo)%nat with w by lia.
      destruct (Nat.ltb_spec (lo + w) (List.length addr)); [|lia].
      destruct (Nat.leb_spec lo (lo + w)); [|lia].
      destruct (Nat.ltb_spec (lo + w) (lo + S w)); [|lia]. reflexivity.
    + cbn [andb].
      destruct (Nat.leb_spec lo j); cbn [andb]; [|reflexivity].
      destruct (Nat.ltb_spec j (lo + w)), (Nat.ltb_spec j (lo + S w));
        try reflexivity; lia.
Qed.

(** X10. Writing a number into a field of the address (row: bits
    17..21, column: bits 7..16, minor: bits 0..6) keeps the length of
    the address, puts the number's binary digits, least significant
    first, on the bits of the field and leaves every other bit as it
    was; digits of the number beyond the field's width are dropped. *)
Theorem set_field_writes_field lo width n addr :
  (lo + width <= List.length addr)%nat ->
  List.length (set_field lo width n addr) = List.length addr /\
  (forall j, (lo <= j < lo + width)%nat ->
     nth j (set_field lo width n addr) 0 = Z.b2z (Z.testbit n (Z.of_nat (j - lo)))) /\
  (forall j, (j < lo \/ lo + width <= j)%nat ->
     nth j (set_field lo width n addr) 0 = nth j addr 0) /\
  set_field lo width (n mod 2 ^ Z.of_nat width) addr = set_field lo width n addr.
Proof.
  intros L. split; [apply set_field_length|]. split; [|split].
  - intros j Hj. rewrite set_field_nth by assumption.
    destruct (Nat.leb_spec lo j), (Nat.ltb_spec j (lo + width)); cbn [andb];
      try reflexivity; lia.
  - intros j Hj. rewrite set_field_nth by assumption.
    destruct (Nat.leb_spec lo j), (Nat.ltb_spec j (lo + width)); cbn [andb];
      try reflexivity; lia.
  - apply (nth_ext _ _ 0 0); [now rewrite !set_field_length|].
    intros j _. rewrite !set_field_nth by assumption.
    destruct (Nat.leb_spec lo j), (Nat.ltb_spec j (lo + width)); cbn [andb];
      try reflexivity.
    f_equal. apply Z.mod_pow2_bits_low. lia.
Qed.

Lemma set_field_writes_field_row5 :
  let addr := set_field 17 5 5 (repeat 0 32) in
  List.length addr = 32%nat /\
  nth 17 addr 0 = 1 /\ nth 18 addr 0 = 0 /\ nth 19 addr 0 = 1 /\
  nth 22 addr 0 = nth 22 (repeat 0 32) 0 /\
  set_field 17 5 (37 mod 2 ^ Z.of_nat 5) (repeat 0 32) = set_field 17 5 37 (repeat 0 32).
Proof.
  intros addr.
  destruct (set_field_writes_field 17 5 5 (repeat 0 32)) as (L & F & O & _);
    [cbn; lia|].
  destruct (set_field_writes_field 17 5 37 (repeat 0 32)) as (_ & _ & _ & M);
    [cbn; lia|].
  split; [exact L|].
  split; [exact (F 17%nat ltac:(lia))|].
  split; [exact (F 18%nat ltac:(lia))|].
  split; [exact (F 19%nat ltac:(lia))|].
  split; [exact (O 22%nat ltac:(lia))|exact M].
Defined.

(** ** Emitting the frames of a column *)

Lemma set_field_overwrite lo width n m addr :
  (lo + width <= List.length addr)%nat ->
  set_field lo width n (set_field lo width m addr) = set_field lo width n addr.
Proof.
  intros L. apply (nth_ext _ _ 0 0); [now rewrite !set_field_length|].
  intros j _. rewrite !set_field_nth by (rewrite ?set_field_length; assumption).
  now destruct ((lo <=? j)%nat && (j <? lo + width)%nat).
Qed.

Lemma emit_fold minors : forall b,
  (7 <= List.length (curr_addr b))%nat ->
  let r := fold_left
             (fun b minor_addr =>
                let addr := set_field 0 7 (Z.of_nat minor_addr) (curr_addr b) in
                mkbuilder (frames_of b ++ [(frame_addr_hex addr, addr)]) addr
                          (curr_scope b))
             minors b in
  frames_of r = frames_of b ++ map (minor_frame (curr_addr b)) minors /\
  curr_scope r = curr_scope b /\
  curr_addr r = match rev minors with
                | [] => curr_addr b
                | m :: _ => set_field 0 7 (Z.of_nat m) (curr_addr b)
                end.
Proof.
  induction minors as [|m minors IH]; intros b L r.
  - subst r. cbn [fold_left map rev]. rewrite app_nil_r. auto.
  - subst r. cbn [fold_left].
    set (a := set_field 0 7 (Z.of_nat m) (curr_addr b)).
    set (b1 := mkbuilder (frames_of b ++ [(frame_addr_hex a, a)]) a (curr_scope b)).
    destruct (IH b1) as (F & S & A).
    { cbn [curr_addr b1]. unfold a. now rewrite set_field_length. }
    cbv zeta in F, S, A. rewrite F, S, A. cbn [frames_of curr_scope curr_addr b1].
    split; [|split; [reflexivity|]].
    + rewrite <- app_assoc. cbn [app map]. do 2 f_equal.
      apply map_ext. intros m'. unfold minor_frame, a.
      now rewrite set_field_overwrite by (cbn; lia).
    + cbn [rev]. destruct (rev minors) as [|m' rest]; cbn [app]; [reflexivity|].
      unfold a. apply set_field_overwrite. cbn. lia.
Qed.

(** X11. A frame count N appends N frames to the frame list, none when N
    is zero or negative: the frame for minor address m is the
    accumulator with m written into bits 0..6, in both its forms.  The
    frames already listed and the scope depth are kept, and the
    accumulator is left with minor address N - 1. *)
Theorem emit_frames_minor_addresses n b :
  (7 <= List.length (curr_addr b))%nat ->
  frames_of (emit_frames n b)
  = frames_of b ++ map (minor_frame (curr_addr b)) (seq 0 (Z.to_nat n)) /\
  curr_scope (emit_frames n b) = curr_scope b /\
  (n <= 0 -> emit_frames n b = b) /\
  (0 < n -> curr_addr (emit_frames n b) = set_field 0 7 (n - 1) (curr_addr b)).
Proof.
  intros L. destruct (emit_fold (seq 0 (Z.to_nat n)) b L) as (F & S & A).
  cbv zeta in F, S, A. fold (emit_frames n b) in F, S, A.
  split; [exact F|]. split; [exact S|]. split.
  - intros N. unfold emit_frames. replace (Z.to_nat n) with 0%nat by lia.
    reflexivity.
  - intros P. rewrite A.
    destruct (Z.to_nat n) as [|k] eqn:K; [lia|].
    rewrite seq_S, rev_app_distr. cbn [rev app Nat.add].
    f_equal. lia.
Qed.

Lemma emit_frames_minor_addresses_three :
  let b := mkbuilder [] (repeat 0 32) 9 in
  map fst (frames_of (emit_frames 3 b))
    = ["00000000"; "00000001"; "00000002"]%string /\
  curr_scope (emit_frames 3 b) = 9 /\
  curr_addr (emit_frames 3 b) = set_field 0 7 (3 - 1) (repeat 0 32).
Proof.
  intros b.
  destruct (emit_frames_minor_addresses 3 b) as (F & S & _ & A); [cbn; lia|].
  split; [rewrite F; reflexivity|]. split; [exact S|]. apply A. lia.
Defined.

(** ** What reading the descriptor keeps *)

Lemma on_half_keeps line b :
  frames_of (on_half line b) = frames_of b /\
  curr_scope (on_half line b) = curr_scope b.
Proof.
  unfold on_half. destruct (negb _); [auto|].
  destruct (contains "top" line), (contains "bottom" line); auto.
Qed.

Lemma on_bus_keeps line b :
  frames_of (on_bus line b) = frames_of b /\
  curr_scope (on_bus line b) = curr_scope b.
Proof.
  unfold on_bus. destruct (negb _); [auto|].
  destruct (contains "CLB_IO_CLK" line), (contains "BLOCK_RAM" line),
    (contains "CFG_CLB" line); auto.
Qed.

Lemma set_quoted_number_keeps lo width line b b' :
  set_quoted_number lo width line b = Ok b' ->
  frames_of b' = frames_of b /\ curr_scope b' = curr_scope b.
Proof.
  unfold set_quoted_number. destruct (odd_items _) as [|num rest].
  - intros H; inversion H; auto.
  - destruct (py_int num); cbn [rbind]; [|discriminate].
    intros H; inversion H; auto.
Qed.

Lemma on_frame_count_grows line b b' :
  builder_wf b -> on_frame_count line b = Ok b' ->
  curr_scope b' = curr_scope b /\
  exists new, frames_of b' = frames_of b ++ new /\
    (new <> [] -> curr_scope b = FRAME_COUNT_SCOPE /\ contains "}" line = false).
Proof.
  intros W. unfold on_frame_count.
  destruct (Z.eqb_spec (curr_scope b) FRAME_COUNT_SCOPE) as [E|E]; cbn [negb].
  2:{ intros H; inversion H; subst. split; [reflexivity|].
      exists []. rewrite app_nil_r. split; [reflexivity|congruence]. }
  destruct (contains "}" line) eqn:C.
  { intros H; inversion H; subst. split; [reflexivity|].
    exists []. rewrite app_nil_r. split; [reflexivity|congruence]. }
  destruct (nth_error _ 1) as [count|]; [|discriminate].
  destruct (py_int count) as [n|]; cbn [rbind]; [|discriminate].
  intros H; inversion H; subst.
  destruct W as (L & _).
  destruct (emit_fold (seq 0 (Z.to_nat n)) b) as (F & S & _); [lia|].
  cbv zeta in F, S. fold (emit_frames n b) in F, S.
  split; [exact S|]. eexists. split; [exact F|auto].
Qed.

Lemma process_line_grows b line b' :
  builder_wf b -> process_line b line = Ok b' ->
  curr_scope b'
  = curr_scope b + (if contains "{" line then 1 else 0)
    - (if contains "}" line then 1 else 0) /\
  exists new, frames_of b' = frames_of b ++ new /\
    (new <> [] -> curr_scope b = FRAME_COUNT_SCOPE /\ contains "}" line = false).
Proof.
  intros W H. pose proof H as H0. unfold process_line in H.
  pose proof (on_half_keeps line b) as [F1 S1].
  assert (W1 : builder_wf (on_half line b)).
  { unfold on_half. destruct (negb _); [assumption|].
    destruct W as (L & F & Ff).
    assert (B0 : is_bit 0) by (left; reflexivity).
    assert (B1 : is_bit 1) by (right; reflexivity).
    destruct (contains "top" line), (contains "bottom" line);
      repeat split; cbn [with_addr curr_addr frames_of];
      rewrite ?set_nth_length; auto using set_nth_Forall. }
  destruct (on_row line (on_half line b)) as [b2|] eqn:E2; cbn [rbind] in H;
    [|discriminate].
  assert (K2 : frames_of b2 = frames_of b /\ curr_scope b2 = curr_scope b
               /\ builder_wf b2).
  { unfold on_row in E2. destruct (negb _).
    - inversion E2; subst. auto.
    - pose proof (set_quoted_number_keeps _ _ _ _ _ E2) as [Fa Sa].
      pose proof (set_quoted_number_wf _ _ _ _ _ W1 E2).
      repeat split; try congruence; apply H1. }
  destruct K2 as (F2 & S2 & W2).
  pose proof (on_bus_keeps line b2) as [F3 S3].
  assert (W3 : builder_wf (on_bus line b2)).
  { unfold on_bus. destruct (negb _); [assumption|].
    assert (S : forall c x y z, is_bit x -> is_bit y -> is_bit z ->
                builder_wf c ->
                builder_wf (with_addr c (set_slice 23 26 (rev [x; y; z]) (curr_addr c)))).
    { intros c x y z Hx Hy Hz (L & F & Ff).
      destruct (three_bits_wf x y z Hx Hy Hz) as [Lv Fv].
      destruct (set_slice_wf _ _ Lv Fv L F).
      apply with_addr_wf; auto. repeat split; assumption. }
    assert (B0 : is_bit 0) by (left; reflexivity).
    assert (B1 : is_bit 1) by (right; reflexivity).
    destruct (contains "CLB_IO_CLK" line), (contains "BLOCK_RAM" line),
      (contains "CFG_CLB" line); auto. }
  destruct (on_col line (on_bus line b2)) as [b4|] eqn:E4; cbn [rbind] in H;
    [|discriminate].
  assert (K4 : frames_of b4 = frames_of b /\ curr_scope b4 = curr_scope b
               /\ builder_wf b4).
  { unfold on_col in E4. destruct (negb _).
    - inversion E4; subst. repeat split; try congruence; apply W3.
    - pose proof (set_quoted_number_keeps _ _ _ _ _ E4) as [Fa Sa].
      pose proof (set_quoted_number_wf _ _ _ _ _ W3 E4).
      repeat split; try congruence; apply H1. }
  destruct K4 as (F4 & S4 & W4).
  destruct (on_frame_count line b4) as [b5|] eqn:E5; cbn [rbind] in H;
    [|discriminate].
  apply on_frame_count_grows in E5 as (S5 & new & F5 & N5); [|assumption].
  inversion H; subst b'. unfold on_scope. cbn [curr_scope frames_of].
  rewrite S5, S4, F5, F4. split.
  - destruct (contains "{" line), (contains "}" line); lia.
  - exists new. split; [reflexivity|]. rewrite <- S4. exact N5.
Qed.

(** X13. A line of the descriptor never removes or reorders the frames
    already listed: it can only append, and it appends only when it is
    read at scope depth 9 and holds no closing brace.  The scope depth
    goes up by one if the line holds an opening brace and down by one if
    it holds a closing brace. *)
Theorem process_line_appends_only b line b' :
  builder_wf b -> process_line b line = Ok b' ->
  curr_scope b'
  = curr_scope b + (if contains "{" line then 1 else 0)
    - (if contains "}" line then 1 else 0) /\
  exists new, frames_of b' = frames_of b ++ new /\
    (new <> [] -> curr_scope b = 9 /\ contains "}" line = false).
Proof.
  intros W H. destruct (process_line_grows b line b' W H) as (S & new & F & N).
  split; [exact S|]. exists new. split; [exact F|exact N].
Qed.

Lemma initial_builder_wf : builder_wf initial_builder.
Proof.
  repeat split; cbn [initial_builder curr_addr frames_of]; [|constructor].
  apply Forall_forall. intros x Hx. apply repeat_spec in Hx. now left.
Qed.

Lemma process_line_appends_only_sample :
  let b := mkbuilder [] (repeat 0 32) 9 in
  exists b',
    process_line b "  frame_count: 2" = Ok b' /\
    curr_scope b' = 9 + 0 - 0 /\
    map fst (frames_of b') = ["00000000"; "00000001"]%string.
Proof.
  intros b. eexists. split; [vm_compute; reflexivity|].
  match goal with |- curr_scope ?x = _ /\ _ =>
    destruct (process_line_appends_only b "  frame_count: 2" x) as (S & _)
  end.
  - apply initial_builder_wf.
  - vm_compute; reflexivity.
  - split; [exact S|reflexivity].
Defined.

(** ** Reserved bits *)

Section AddressInvariant.

(** A property of addresses that every write of [get_frame_list]
    keeps. *)
Variable P : list Z -> Prop.
Hypothesis P_set_nth : forall a v, P a -> P (set_nth 22 v a).
Hypothesis P_set_field :
  forall a lo w n, (lo + w <= 26)%nat -> P a -> P (set_field lo w n a).
Hypothesis P_set_slice :
  forall a vals, List.length vals = 3%nat -> P a -> P (set_slice 23 26 vals a).

Lemma emit_frames_keeps n b : addresses_keep P b -> addresses_keep P (emit_frames n b).
Proof.
  unfold emit_frames. generalize (seq 0 (Z.to_nat n)). intros minors. revert b.
  induction minors as [|m minors IH]; intros b K; cbn [fold_left]; [assumption|].
  apply IH. destruct K as [Ka Kf].
  assert (Pa : P (set_field 0 7 (Z.of_nat m) (curr_addr b)))
    by (apply P_set_field; [lia|assumption]).
  split; cbn [curr_addr frames_of]; [assumption|].
  apply Forall_app. split; [assumption|]. constructor; [assumption|constructor].
Qed.

Lemma set_quoted_number_keeps_addresses lo width line b b' :
  (lo + width <= 26)%nat -> addresses_keep P b ->
  set_quoted_number lo width line b = Ok b' -> addresses_keep P b'.
Proof.
  intros L [Ka Kf]. unfold set_quoted_number.
  destruct (odd_items _) as [|num rest].
  - intros H; inversion H; subst. now split.
  - destruct (py_int num) as [n|]; cbn [rbind]; [|discriminate].
    intros H; inversion H; subst. split; cbn [with_addr curr_addr frames_of];
      [now apply P_set_field|assumption].
Qed.

Lemma process_line_keeps_addresses b line b' :
  addresses_keep P b -> process_line b line = Ok b' -> addresses_keep P b'.
Proof.
  intros K. unfold process_line.
  assert (K1 : addresses_keep P (on_half line b)).
  { unfold on_half. destruct (negb _); [assumption|]. destruct K as [Ka Kf].
    destruct (contains "top" line), (contains "bottom" line);
      split; cbn [with_addr curr_addr frames_of]; auto. }
  destruct (on_row line (on_half line b)) as [b2|] eqn:E2; cbn [rbind]; [|discriminate].
  assert (K2 : addresses_keep P b2).
  { unfold on_row in E2. destruct (negb _).
    - inversion E2; subst; assumption.
    - eapply (set_quoted_number_keeps_addresses 17 5); [lia|exact K1|exact E2]. }
  assert (K3 : addresses_keep P (on_bus line b2)).
  { unfold on_bus. destruct (negb _); [assumption|]. destruct K2 as [Ka Kf].
    destruct (contains "CLB_IO_CLK" line), (contains "BLOCK_RAM" line),
      (contains "CFG_CLB" line);
      split; cbn [with_addr curr_addr frames_of]; auto 6. }
  destruct (on_col line (on_bus line b2)) as [b4|] eqn:E4; cbn [rbind]; [|discriminate].
  assert (K4 : addresses_keep P b4).
  { unfold on_col in E4. destruct (negb _).
    - inversion E4; subst; assumption.
    - eapply (set_quoted_number_keeps_addresses 7 10); [lia|exact K3|exact E4]. }
  destruct (on_frame_count line b4) as [b5|] eqn:E5; cbn [rbind]; [|discriminate].
  assert (K5 : addresses_keep P b5).
  { unfold on_frame_count in E5. destruct (negb _).
    - inversion E5; subst; assumption.
    - destruct (contains "}" line); [inversion E5; subst; assumption|].
      destruct (nth_error _ 1) as [count|]; [|discriminate].
      destruct (py_int count) as [n|]; cbn [rbind] in E5; [|discriminate].
      inversion E5; subst. now apply emit_frames_keeps. }
  intros H; inversion H; subst. exact K5.
Qed.

Lemma process_lines_keep_addresses lines : forall b b',
  addresses_keep P b -> process_lines b lines = Ok b' -> addresses_keep P b'.
Proof.
  induction lines as [|line lines IH]; intros b b' K H; cbn [process_lines] in H.
  - inversion H; subst; assumption.
  - destruct (process_line b line) as [b1|] eqn:E; cbn [rbind] in H; [|discriminate].
    eapply IH; [|eassumption]. eapply process_line_keeps_addresses; eassumption.
Qed.

End AddressInvariant.

Lemma nth_set_slice_high vals l j :
  List.length vals = 3%nat -> List.length l = 32%nat -> (26 <= j)%nat ->
  nth j (set_slice 23 26 vals l) 0 = nth j l 0.
Proof.
  intros Lv Ll Hj. unfold set_slice.
  rewrite app_nth2 by (rewrite length_firstn; lia).
  rewrite length_firstn, Ll. change (Nat.min 23 32) with 23%nat.
  rewrite app_nth2 by lia. rewrite Lv, nth_skipn. f_equal. lia.
Qed.

Lemma reserved_kept_set_nth a v :
  List.length a = 32%nat /\ reserved_bits_zero a ->
  List.length (set_nth 22 v a) = 32%nat /\ reserved_bits_zero (set_nth 22 v a).
Proof.
  intros [L R]. split; [now rewrite set_nth_length|].
  intros j Hj. rewrite nth_set_nth.
  destruct (Nat.eqb_spec j 22); [lia|]. cbn [andb]. now apply R.
Qed.

Lemma reserved_kept_set_field a lo w n :
  (lo + w <= 26)%nat ->
  List.length a = 32%nat /\ reserved_bits_zero a ->
  List.length (set_field lo w n a) = 32%nat /\ reserved_bits_zero (set_field lo w n a).
Proof.
  intros B [L R]. split; [now rewrite set_field_length|].
  intros j Hj. rewrite set_field_nth by lia.
  destruct (Nat.ltb_spec j (lo + w)); [lia|]. rewrite andb_false_r. now apply R.
Qed.

Lemma reserved_kept_set_slice a vals :
  List.length vals = 3%nat ->
  List.length a = 32%nat /\ reserved_bits_zero a ->
  List.length (set_slice 23 26 vals a) = 32%nat
  /\ reserved_bits_zero (set_slice 23 26 vals a).
Proof.
  intros Lv [L R]. split.
  - unfold set_slice. rewrite !length_app, length_firstn, length_skipn. lia.
  - intros j Hj. rewrite nth_set_slice_high by assumption. now apply R.
Qed.

Lemma bits_value_zero l : (forall j, nth j l 0 = 0) -> bits_value l = 0.
Proof.
  induction l as [|b l IH]; intros H; cbn [bits_value]; [reflexivity|].
  rewrite IH; [|intros j; apply (H (S j))].
  pose proof (H 0%nat) as H0. cbn [nth] in H0. lia.
Qed.

Lemma reserved_value_bound l :
  Forall is_bit l -> reserved_bits_zero l -> 0 <= bits_value l < 2 ^ 26.
Proof.
  intros F R. rewrite <- (firstn_skipn 26 l), bits_value_app.
  rewrite (bits_value_zero (skipn 26 l)).
  2:{ intros j. rewrite nth_skipn. apply R. lia. }
  destruct (Forall_firstn_skipn _ 26 l F) as [F1 _].
  pose proof (bits_value_bound _ F1) as B.
  assert (2 ^ Z.of_nat (List.length (firstn 26 l)) <= 2 ^ 26).
  { apply Z.pow_le_mono_r; [lia|]. rewrite length_firstn. lia. }
  lia.
Qed.

(** X12. Every frame of the list returned by [get_frame_list] has a
    32-bit address whose reserved bits 26..31 are zero: as a number the
    address is below 2^26. *)
Theorem get_frame_list_reserved_bits xray_dir fs part frames :
  get_frame_list xray_dir fs part = Ok frames ->
  forall fr, In fr frames ->
    List.length (snd fr) = 32%nat /\
    (forall j, (26 <= j)%nat -> nth j (snd fr) 0 = 0) /\
    0 <= bits_to_int (snd fr) < 2 ^ 26.
Proof.
  intros H fr Hfr.
  pose proof (get_frame_list_wf _ _ _ _ H) as (b0 & _ & W).
  rewrite Forall_forall in W. destruct (W _ Hfr) as (_ & _ & Fb).
  unfold get_frame_list in H.
  destruct (family_of part) as [family|]; [|discriminate].
  destruct (fs _) as [lines|]; [|discriminate].
  destruct (process_lines _ lines) as [b|] eqn:E; cbn [rbind] in H; [|discriminate].
  inversion H; subst frames. clear H.
  apply (process_lines_keep_addresses
           (fun a => List.length a = 32%nat /\ reserved_bits_zero a)) in E.
  - destruct E as [_ Ff]. rewrite Forall_forall in Ff.
    apply (Permutation_in _ (sorted_perm (frames_of b))) in Hfr.
    destruct (Ff _ Hfr) as [L R].
    split; [exact L|]. split; [exact R|].
    rewrite bits_to_int_value. now apply reserved_value_bound.
  - apply reserved_kept_set_nth.
  - apply reserved_kept_set_field.
  - apply reserved_kept_set_slice.
  - split; cbn [curr_addr frames_of]; [|constructor].
    split; [reflexivity|]. intros j _.
    destruct (Nat.lt_ge_cases j 32) as [Lj|Lj].
    + now rewrite nth_repeat_lt.
    + now rewrite nth_overflow by (rewrite repeat_length; lia).
Qed.

Lemma get_frame_list_reserved_bits_small :
  exists frames fr,
    get_frame_list "xray" (one_file descriptor_small) "xc7a35t" = Ok frames /\
    nth_error frames 4 = Some fr /\
    fst fr = "00c20082"%string /\
    List.length (snd fr) = 32%nat /\
    (forall j, (26 <= j)%nat -> nth j (snd fr) 0 = 0) /\
    0 <= bits_to_int (snd fr) < 2 ^ 26.
Proof.
  eexists. eexists. split; [vm_compute; reflexivity|].
  split; [reflexivity|]. split; [reflexivity|].
  eapply (get_frame_list_reserved_bits "xray" (one_file descriptor_small) "xc7a35t").
  - vm_compute; reflexivity.
  - do 4 right. left. reflexivity.
Defined.

(** X14. The list returned by [get_frame_list] holds exactly the frames
    appended while the lines of the part's descriptor were read, each as
    often as it was appended: sorting only reorders them. *)
Theorem get_frame_list_keeps_all_frames xray_dir fs part frames :
  get_frame_list xray_dir fs part = Ok frames ->
  exists family lines b,
    family_of part = Some family /\
    fs (xray_dir ++ "/" ++ family ++ "/" ++ part ++ "/part.json")%string = Some lines /\
    process_lines initial_builder lines = Ok b /\
    Permutation (frames_of b) frames /\
    List.length frames = List.length (frames_of b).
Proof.
  unfold get_frame_list. destruct (family_of part) as [family|]; [|discriminate].
  destruct (fs _) as [lines|] eqn:Efs; [|discriminate].
  fold initial_builder.
  destruct (process_lines initial_builder lines) as [b|] eqn:E; cbn [rbind];
    [|discriminate].
  intros H; inversion H; subst frames.
  exists family, lines, b. repeat split; auto.
  - symmetry. apply sorted_perm.
  - apply Permutation_length, sorted_perm.
Qed.

Lemma get_frame_list_keeps_all_frames_small :
  exists frames b,
    get_frame_list "xray" (one_file descriptor_small) "xc7a35t" = Ok frames /\
    process_lines initial_builder descriptor_small = Ok b /\
    Permutation (frames_of b) frames /\
    List.length frames = 5%nat.
Proof.
  eexists. eexists. split; [vm_compute; reflexivity|].
  match goal with |- _ /\ Permutation _ ?l /\ _ =>
    destruct (get_frame_list_keeps_all_frames "xray" (one_file descriptor_small)
                "xc7a35t" l) as (fam & lines & b & _ & Efs & Ep & Pm & Ln)
  end.
  - vm_compute; reflexivity.
  - unfold one_file in Efs. inversion Efs; subst lines.
    split; [vm_compute; reflexivity|].
    assert (Eb : Ok b = process_lines initial_builder descriptor_small)
      by (symmetry; exact Ep).
    vm_compute in Eb. inversion Eb; subst b.
    split; [exact Pm|reflexivity].
Defined.

(** ** Families and the Series-7 test *)

Lemma prefix_shorter a b : forall s,
  prefix (a ++ b) s = true -> prefix a s = true.
Proof.
  induction a as [|x a IH]; intros s H; [destruct s; reflexivity|].
  destruct s as [|y s]; cbn [append prefix] in *; [discriminate|].
  destruct (ascii_dec x y); [now apply IH|discriminate].
Qed.

Lemma contains_shorter a b s :
  contains (a ++ b) s = true -> contains a s = true.
Proof.
  induction s as [|y s IH]; cbn [contains]; intros H.
  - apply orb_true_iff in H as [H|H]; [|discriminate].
    apply prefix_shorter in H. now rewrite H.
  - apply orb_true_iff in H as [H|H].
    + apply prefix_shorter in H. now rewrite H.
    + rewrite (IH H). apply orb_true_r.
Qed.

(** X15. A part identifier for which [get_frame_list] finds a family
    always passes the Series-7 test of [get_high_bits], so that test
    never turns down a part of a known family; the family is one of the
    four names, and when several family codes occur in the identifier
    the one tested last decides: xc7z before xc7s, xc7s before xc7k,
    xc7k before xc7a. *)
Theorem family_implies_series7 part family :
  family_of part = Some family ->
  contains "xc7" part = true /\
  (family = "artix7" \/ family = "kintex7" \/ family = "spartan7"
   \/ family = "zynq7")%string /\
  (forall xray_dir fs,
     build_frames xray_dir fs part = get_frame_list xray_dir fs part) /\
  (contains "xc7z" part = true -> family = "zynq7"%string) /\
  (contains "xc7z" part = false -> contains "xc7s" part = true ->
   family = "spartan7"%string) /\
  (contains "xc7z" part = false -> contains "xc7s" part = false ->
   contains "xc7k" part = true -> family = "kintex7"%string) /\
  (contains "xc7z" part = false -> contains "xc7s" part = false ->
   contains "xc7k" part = false ->
   contains "xc7a" part = true /\ family = "artix7"%string).
Proof.
  intros H.
  assert (X : contains "xc7" part = true).
  { unfold family_of in H.
    destruct (contains "xc7z" part) eqn:Z;
      [exact (contains_shorter "xc7" "z" part Z)|].
    destruct (contains "xc7s" part) eqn:S;
      [exact (contains_shorter "xc7" "s" part S)|].
    destruct (contains "xc7k" part) eqn:K;
      [exact (contains_shorter "xc7" "k" part K)|].
    destruct (contains "xc7a" part) eqn:A;
      [exact (contains_shorter "xc7" "a" part A)|discriminate]. }
  split; [exact X|]. unfold family_of in H.
  split; [|split; [|split; [|split; [|split]]]].
  - destruct (contains "xc7z" part), (contains "xc7s" part),
      (contains "xc7k" part), (contains "xc7a" part);
      inversion H; auto.
  - intros xray_dir fs. unfold build_frames. now rewrite X.
  - intros Z. rewrite Z in H. now inversion H.
  - intros Z S. rewrite Z, S in H. now inversion H.
  - intros Z S K. rewrite Z, S, K in H. now inversion H.
  - intros Z S K. rewrite Z, S, K in H.
    destruct (contains "xc7a" part); [|discriminate]. now inversion H.
Qed.

Lemma family_implies_series7_zynq :
  contains "xc7" "xc7z020" = true /\
  build_frames "xray" (one_file descriptor_small) "xc7z020"
  = get_frame_list "xray" (one_file descriptor_small) "xc7z020".
Proof.
  destruct (family_implies_series7 "xc7z020" "zynq7" eq_refl) as (X & _ & B & _).
  split; [exact X|apply B].
Defined.


(* ================================================================== *)
(** * ll_sample_bits.py *)

(** ** Drawing the sample *)

Lemma ll_bit_eqb_eq a b : ll_bit_eqb a b = true <-> a = b.
Proof.
  unfold ll_bit_eqb. destruct (list_eq_dec string_dec a b); split; congruence.
Qed.

Lemma choice_some {A} r (l : list A) :
  l <> [] -> exists x, choice r l = Ok x /\ In x l.
Proof.
  intros N. unfold choice. destruct l as [|y l]; [contradiction|].
  destruct (nth_error (y :: l) (r mod List.length (y :: l))) as [x|] eqn:E.
  - exists x. split; [reflexivity|]. eapply nth_error_In, E.
  - apply nth_error_None in E.
    pose proof (Nat.mod_upper_bound r (List.length (y :: l))) as B.
    cbn [List.length] in *. lia.
Qed.

Lemma py_remove_in x l :
  In x l -> exists l', py_remove x l = Ok l' /\ Permutation l (x :: l').
Proof.
  induction l as [|y l IH]; intros H; [contradiction|]. cbn [py_remove].
  destruct (ll_bit_eqb y x) eqn:E.
  - apply ll_bit_eqb_eq in E. subst y. exists l. split; reflexivity.
  - destruct H as [H|H].
    + subst y. assert (T : ll_bit_eqb x x = true) by now apply ll_bit_eqb_eq.
      congruence.
    + destruct (IH H) as (l' & R & P). rewrite R. cbn [rbind].
      exists (y :: l'). split; [reflexivity|].
      rewrite P. apply perm_swap.
Qed.

Lemma sample_loop_spec draws fuel : forall i num_bits ll_bits fault_bits,
  num_bits - Z.of_nat (List.length fault_bits) <= Z.of_nat fuel ->
  num_bits <= Z.of_nat (List.length fault_bits + List.length ll_bits) ->
  exists fault_bits' ll_bits',
    sample_loop fuel draws i num_bits ll_bits fault_bits
    = Ok (Done (fault_bits', ll_bits')) /\
    Z.of_nat (List.length fault_bits')
    = Z.max (Z.of_nat (List.length fault_bits)) num_bits /\
    Permutation (List.concat fault_bits' ++ ll_bits') (List.concat fault_bits ++ ll_bits) /\
    (Forall (fun e => exists b, e = [b]) fault_bits ->
     Forall (fun e => exists b, e = [b]) fault_bits').
Proof.
  induction fuel as [|k IH]; intros i num_bits ll_bits fault_bits F B;
    cbn [sample_loop];
    destruct (Z.ltb_spec (Z.of_nat (List.length fault_bits)) num_bits) as [L|L].
  - lia.
  - exists fault_bits, ll_bits. repeat split; auto. lia.
  - assert (N : ll_bits <> []).
    { intros ->. cbn [List.length] in B. lia. }
    destruct (choice_some (draws i) ll_bits N) as (x & C & Hx).
    destruct (py_remove_in x ll_bits Hx) as (ll' & R & P).
    rewrite C. cbn [rbind]. rewrite R. cbn [rbind].
    assert (Len : List.length ll_bits = S (List.length ll')).
    { apply Permutation_length in P. exact P. }
    destruct (IH (S i) num_bits ll' (fault_bits ++ [[x]])) as (fb & lb & E & Ln & Pm & Sg).
    { rewrite length_app. cbn [List.length]. lia. }
    { rewrite length_app. cbn [List.length]. lia. }
    exists fb, lb. split; [exact E|]. split; [|split].
    + rewrite Ln, length_app. cbn [List.length]. lia.
    + rewrite Pm, concat_app. cbn [List.concat app]. rewrite <- app_assoc. cbn [app].
      apply Permutation_app_head. symmetry. exact P.
    + intros S0. apply Sg. apply Forall_app. split; [exact S0|].
      constructor; [eauto|constructor].
  - exists fault_bits, ll_bits. repeat split; auto. lia.
Qed.

(** X16. [write_bit_list] always ends and never raises.  It draws as
    many addresses as asked for, all of them when more are asked for
    than there are and none for a negative number; each drawn address
    is wrapped in a list of its own; the addresses drawn and those left
    in the caller's list are together the original list, so that a list
    without repetition gives a sample without repetition. *)
Theorem write_bit_list_sample draws ll_bits num_bits ll_file :
  exists fault_bits ll_bits',
    write_bit_list draws ll_bits num_bits ll_file
    = Ok (Done (fault_bits_path ll_file, fault_bits, ll_bits')) /\
    Z.of_nat (List.length fault_bits)
    = Z.max 0 (Z.min num_bits (Z.of_nat (List.length ll_bits))) /\
    Forall (fun e => exists b, e = [b]) fault_bits /\
    Permutation (List.concat fault_bits ++ ll_bits') ll_bits /\
    (NoDup ll_bits -> NoDup (List.concat fault_bits)).
Proof.
  unfold write_bit_list.
  set (n := if num_bits >? Z.of_nat (List.length ll_bits)
            then Z.of_nat (List.length ll_bits) else num_bits).
  assert (Hn : n = Z.min num_bits (Z.of_nat (List.length ll_bits))).
  { unfold n. destruct (Z.gtb_spec num_bits (Z.of_nat (List.length ll_bits))); lia. }
  destruct (sample_loop_spec draws (List.length ll_bits) 0 n ll_bits [])
    as (fb & lb & E & Ln & Pm & Sg).
  { cbn [List.length]. lia. }
  { cbn [List.length]. lia. }
  exists fb, lb. rewrite E. cbn [List.length List.concat app] in *.
  split; [reflexivity|]. split; [lia|]. split; [now apply Sg|].
  split; [exact Pm|].
  intros N. apply (Permutation_NoDup (Permutation_sym Pm)) in N.
  eapply NoDup_app_remove_r, N.
Qed.

Lemma write_bit_list_sample_two :
  let ll_bits := [["00400a1f"; "100"; "07"]; ["00020027"; "001"; "05"];
                  ["00020027"; "001"; "06"]]%string in
  exists fault_bits ll_bits',
    write_bit_list (fun i => i) ll_bits 2 "a/b/design.ll"
    = Ok (Done ("design_ll_sample_bits.json"%string, fault_bits, ll_bits')) /\
    Z.of_nat (List.length fault_bits) = 2 /\
    NoDup (List.concat fault_bits).
Proof.
  intros ll_bits.
  destruct (write_bit_list_sample (fun i => i) ll_bits 2 "a/b/design.ll")
    as (fb & lb & E & Ln & _ & _ & Nd).
  exists fb, lb. split; [exact E|]. split; [exact Ln|].
  apply Nd. unfold ll_bits.
  repeat constructor; cbn [In]; intuition discriminate.
Defined.

(** ** The name of the output file *)

Lemma split_on_nonempty sep s : split_on sep s <> [].
Proof.
  destruct s as [|c s]; cbn [split_on]; [discriminate|].
  destruct (c =? sep)%char; [discriminate|].
  destruct (split_on sep s); discriminate.
Qed.

Lemma split_on_free sep s : char_in sep s = false -> split_on sep s = [s].
Proof.
  induction s as [|c s IH]; cbn [char_in split_on]; intros H; [reflexivity|].
  apply orb_false_iff in H as [H1 H2].
  rewrite Ascii.eqb_sym, H1, (IH H2). reflexivity.
Qed.

Lemma split_on_first sep a b :
  char_in sep a = false ->
  split_on sep (a ++ String sep b) = a :: split_on sep b.
Proof.
  induction a as [|c a IH]; cbn [char_in append split_on]; intros H.
  - now rewrite Ascii.eqb_refl.
  - apply orb_false_iff in H as [H1 H2].
    rewrite Ascii.eqb_sym, H1, (IH H2). reflexivity.
Qed.

Lemma split_on_last sep file : forall dir,
  char_in sep file = false ->
  exists h t, split_on sep (dir ++ String sep file) = h :: t /\ t <> [] /\
              last t EmptyString = file.
Proof.
  intros dir F. induction dir as [|c dir IH]; cbn [append split_on].
  - rewrite Ascii.eqb_refl, (split_on_free _ _ F).
    exists EmptyString, [file]. repeat split; [discriminate].
  - destruct IH as (h & t & E & N & L). rewrite E.
    destruct (c =? sep)%char.
    + exists EmptyString, (h :: t). repeat split; [discriminate|].
      destruct t; [contradiction|exact L].
    + exists (String c h), t. auto.
Qed.

Lemma pieces_free c sep s :
  char_in c s = false ->
  Forall (fun piece => char_in c piece = false) (split_on sep s).
Proof.
  induction s as [|x s IH]; cbn [char_in split_on]; intros H.
  - repeat constructor.
  - apply orb_false_iff in H as [H1 H2]. specialize (IH H2).
    destruct (x =? sep)%char; [constructor; [reflexivity|exact IH]|].
    destruct (split_on sep s) as [|h t]; [repeat constructor; cbn; now rewrite H1|].
    inversion IH; subst. constructor; [|assumption].
    cbn [char_in]. now rewrite H1.
Qed.

Lemma pieces_without_sep sep s :
  Forall (fun piece => char_in sep piece = false) (split_on sep s).
Proof.
  induction s as [|x s IH]; cbn [split_on].
  - repeat constructor.
  - destruct (Ascii.eqb_spec x sep) as [E|N]; [constructor; [reflexivity|exact IH]|].
    assert (X : (sep =? x)%char = false) by (apply Ascii.eqb_neq; congruence).
    destruct (split_on sep s) as [|h t]; [repeat constructor; cbn; now rewrite X|].
    inversion IH; subst. constructor; [|assumption].
    cbn [char_in]. now rewrite X.
Qed.

Lemma Forall_last {A} (Q : A -> Prop) l d : Forall Q l -> Q d -> Q (last l d).
Proof.
  induction 1 as [|x l Hx F IH]; intros Hd; [exact Hd|].
  destruct l; [exact Hx|]. now apply IH.
Qed.

(** X17. The sample is written to a file named after the input file
    alone: the directories of the input path and everything from the
    first dot of its last component are dropped, so the name holds no
    slash and, before its suffix _ll_sample_bits.json, no dot; for
    dir/base.ext the name is base_ll_sample_bits.json. *)
Theorem fault_bits_path_base_name :
  (forall ll_file,
     char_in "/" (fault_bits_path ll_file) = false /\
     char_in "." (ll_filename ll_file) = false) /\
  (forall dir file,
     char_in "/" file = false ->
     fault_bits_path (dir ++ String "/" file) = fault_bits_path file) /\
  (forall base ext,
     char_in "/" base = false -> char_in "/" ext = false ->
     char_in "." base = false ->
     fault_bits_path (base ++ String "." ext)
     = (base ++ "_ll_sample_bits.json")%string).
Proof.
  split; [|split].
  - intros ll_file. unfold fault_bits_path, ll_filename.
    set (file := last (split_on "/" ll_file) EmptyString).
    assert (Ff : char_in "/" file = false).
    { apply (Forall_last (fun piece => char_in "/" piece = false));
        [apply pieces_without_sep|reflexivity]. }
    pose proof (pieces_free "/" "." file Ff) as P1.
    pose proof (pieces_without_sep "." file) as P2.
    destruct (split_on "." file) as [|h t] eqn:E;
      [exfalso; eapply split_on_nonempty, E|].
    cbn [hd]. inversion P1; subst. inversion P2; subst. split; [|assumption].
    clear - H1. induction h as [|c h IH]; [reflexivity|].
    cbn [char_in append] in *. apply orb_false_iff in H1 as [A B].
    now rewrite A, (IH B).
  - intros dir file F. unfold fault_bits_path, ll_filename.
    destruct (split_on_last "/" file dir F) as (h & t & E & N & L).
    rewrite E. rewrite (split_on_free _ _ F). cbn [last].
    destruct t; [contradiction|]. rewrite L. reflexivity.
  - intros base ext Fb Fe Db. unfold fault_bits_path, ll_filename.
    assert (F : char_in "/" (base ++ String "." ext) = false).
    { clear Db. induction base as [|c b IH]; cbn [char_in append] in *.
      - exact Fe.
      - apply orb_false_iff in Fb as [A B]. now rewrite A, (IH B). }
    rewrite (split_on_free _ _ F). cbn [last].
    rewrite (split_on_first _ _ _ Db). reflexivity.
Qed.

Lemma fault_bits_path_base_name_sample :
  fault_bits_path ("a/b" ++ String "/" "design.ll") = fault_bits_path "design.ll" /\
  fault_bits_path ("design" ++ String "." "ll") = "design_ll_sample_bits.json"%string.
Proof.
  destruct fault_bits_path_base_name as (_ & D & B).
  split; [apply D; reflexivity|apply B; reflexivity].
Defined.

(** ** Decimal numerals *)

Lemma digit_not_space c : is_digit c = true -> is_int_space c = false.
Proof.
  destruct c as [[] [] [] [] [] [] [] []]; try reflexivity; discriminate.
Qed.

Lemma lstrip_digits s : all_digits s = true -> lstrip_int_space s = s.
Proof.
  destruct s as [|c s]; [reflexivity|]. cbn [all_digits lstrip_int_space].
  intros H. apply andb_true_iff in H as [H _].
  now rewrite (digit_not_space _ H).
Qed.

Lemma rstrip_digits s : all_digits s = true -> rstrip_int_space s = s.
Proof.
  induction s as [|c s IH]; [reflexivity|]. cbn [all_digits rstrip_int_space].
  intros H. apply andb_true_iff in H as [Hc Hs]. rewrite (IH Hs).
  destruct s; [now rewrite (digit_not_space _ Hc)|reflexivity].
Qed.

Lemma all_digits_app a b :
  all_digits (a ++ b) = all_digits a && all_digits b.
Proof.
  induction a as [|c a IH]; cbn [append all_digits]; [reflexivity|].
  now rewrite IH, andb_assoc.
Qed.

Lemma all_digits_zeros n : all_digits (zeros n) = true.
Proof. induction n as [|n IH]; [reflexivity|exact IH]. Qed.

Lemma all_digits_uint d :
  all_digits (DecimalString.NilEmpty.string_of_uint d) = true.
Proof. induction d; cbn; auto. Qed.

Lemma all_digits_py_str n : all_digits (py_str n) = true.
Proof.
  unfold py_str, DecimalString.NilZero.string_of_uint.
  destruct (Nat.to_uint n); try apply all_digits_uint. reflexivity.
Qed.

(** Reading the digits of a numeral adds them to the value read so
    far. *)
Lemma int_digits_uint d : forall acc,
  0 <= acc ->
  int_digits (DecimalString.NilEmpty.string_of_uint d) acc true
  = Some (Z.of_nat (Nat.of_uint_acc d (Z.to_nat acc))).
Proof.
  induction d; intros acc A;
    cbn [DecimalString.NilEmpty.string_of_uint int_digits Nat.of_uint_acc];
    [f_equal; lia|..];
    change (is_digit _) with true; cbv iota;
    match goal with
    | |- context [digit_value ?c] =>
        let v := eval vm_compute in (digit_value c) in
        change (digit_value c) with v
    end;
    rewrite IHd by lia; do 3 f_equal;
    rewrite Nat.tail_mul_spec; lia.
Qed.

Lemma int_digits_first_digit c rest acc :
  is_digit c = true ->
  int_digits (String c rest) acc false = int_digits (String c rest) acc true.
Proof. intros H. cbn [int_digits]. now rewrite H. Qed.

Lemma int_digits_zeros n s b :
  int_digits (zeros n ++ s) 0 b
  = int_digits s 0 (b || negb (n =? 0)%nat).
Proof.
  revert b. induction n as [|n IH]; intros b.
  - cbn. now rewrite orb_false_r.
  - change (zeros (S n) ++ s)%string with (String "0" (zeros n ++ s)).
    cbn [int_digits]. change (is_digit "0") with true. cbv iota.
    change (10 * 0 + digit_value "0") with 0.
    rewrite IH. cbn [Nat.eqb negb orb]. now rewrite orb_true_r.
Qed.

Lemma py_int_digits s :
  all_digits s = true ->
  py_int s = match int_digits s 0 false with
             | Some n => Ok n
             | None => Err ValueError
             end.
Proof.
  intros D. unfold py_int. rewrite (lstrip_digits _ D), (rstrip_digits _ D).
  destruct s as [|c rest]; [reflexivity|].
  cbn [all_digits] in D. apply andb_true_iff in D as [Dc _].
  destruct c as [[] [] [] [] [] [] [] []]; try discriminate; reflexivity.
Qed.

Lemma py_str_value n :
  int_digits (py_str n) 0 true = Some (Z.of_nat n).
Proof.
  unfold py_str, DecimalString.NilZero.string_of_uint.
  pose proof (DecimalNat.Unsigned.of_to n) as R. unfold Nat.of_uint in R.
  destruct (Nat.to_uint n) eqn:E;
    try (rewrite int_digits_uint by lia; change (Z.to_nat 0) with 0%nat;
         now rewrite R).
  cbn in R. subst. reflexivity.
Qed.

Lemma py_str_nonempty n : exists c rest, py_str n = String c rest /\ is_digit c = true.
Proof.
  pose proof (all_digits_py_str n) as D.
  pose proof (py_str_value n) as V.
  destruct (py_str n) as [|c rest] eqn:E.
  - unfold py_str, DecimalString.NilZero.string_of_uint in E.
    destruct (Nat.to_uint n); discriminate.
  - cbn [all_digits] in D. apply andb_true_iff in D as [Dc _]. eauto.
Qed.

Lemma rjust_zeros k s : rjust k "0" s = (zeros (k - String.length s) ++ s)%string.
Proof. reflexivity. Qed.

(** [int] reads back what [str] and [rjust] write. *)
Lemma py_int_padded k n : py_int (rjust k "0" (py_str n)) = Ok (Z.of_nat n).
Proof.
  rewrite rjust_zeros, py_int_digits.
  2:{ now rewrite all_digits_app, all_digits_zeros, all_digits_py_str. }
  rewrite int_digits_zeros. cbn [orb].
  destruct (py_str_nonempty n) as (c & rest & E & Dc).
  assert (V : int_digits (py_str n) 0 (negb (k - String.length (py_str n) =? 0)%nat)
              = Some (Z.of_nat n)).
  { destruct (negb _); [apply py_str_value|].
    rewrite E, int_digits_first_digit by assumption. rewrite <- E. apply py_str_value. }
  now rewrite V.
Qed.

(** ** Lines of the logic-location file *)

Lemma py_split_blank s : all_space s = true -> py_split s = [].
Proof.
  unfold py_split. induction s as [|c s IH]; [reflexivity|].
  cbn [all_space split_words]. intros H. apply andb_true_iff in H as [Hc Hs].
  rewrite Hc. auto.
Qed.

Lemma parse_ll_lines_app pre post : forall ll_bits,
  parse_ll_lines (pre ++ post) ll_bits
  = rbind (parse_ll_lines pre ll_bits) (parse_ll_lines post).
Proof.
  induction pre as [|line pre IH]; intros ll_bits; [reflexivity|].
  cbn [app parse_ll_lines]. destruct (parse_ll_line line) as [r|e]; cbn [rbind].
  - apply IH.
  - reflexivity.
Qed.

Lemma parse_ll_lines_raise pre line post ll_bits seen e :
  parse_ll_lines pre ll_bits = Ok seen ->
  parse_ll_line line = Err e ->
  parse_ll_lines (pre ++ line :: post) ll_bits = Err e.
Proof.
  intros P E. rewrite parse_ll_lines_app, P. cbn [rbind parse_ll_lines].
  now rewrite E.
Qed.

Lemma zeros_length n : String.length (zeros n) = n.
Proof. induction n as [|n IH]; [reflexivity|]. cbn. f_equal. exact IH. Qed.

Lemma rjust_length k s :
  String.length (rjust k "0" s) = Nat.max k (String.length s).
Proof. rewrite rjust_zeros, string_length_append, zeros_length. lia. Qed.

Lemma py_str_Z_nonneg n : 0 <= n -> py_str_Z n = py_str (Z.to_nat n).
Proof.
  intros H. unfold py_str_Z. destruct (Z.ltb_spec n 0); [lia|reflexivity].
Qed.

(** The line of a slice bit, once split into its fields. *)
Lemma parse_ll_line_fields line t1 a h off blk rest n :
  py_split line = "Bit"%string :: t1 :: (a ++ String "x" h)%string :: off :: blk :: rest ->
  contains "SLICE" blk = true ->
  char_in "x" a = false -> char_in "x" h = false ->
  py_int off = Ok n -> 0 <= n ->
  parse_ll_line line
  = Ok (Some [h; rjust 3 "0" (py_str (Z.to_nat (n / 32)));
              rjust 2 "0" (py_str (Z.to_nat (n mod 32)))]).
Proof.
  intros S B Ha Hh I N. unfold parse_ll_line. rewrite S. cbn [nth_error].
  change (negb ("Bit" =? "Bit")%string) with false. cbv iota.
  rewrite B. cbn [negb]. rewrite I. cbn [rbind].
  rewrite (split_on_first _ _ _ Ha), (split_on_free _ _ Hh). cbn [nth_error].
  rewrite !py_str_Z_nonneg; [reflexivity|..].
  - apply Z.mod_pos_bound. lia.
  - apply Z.div_pos; lia.
Qed.

(** X18. A line of white space only, the empty last line of a file for
    one, makes [parse_ll_file] raise IndexError, whatever the lines
    before it gave and whatever follows. *)
Theorem parse_ll_file_blank_line fs ll_file pre line post seen :
  fs ll_file = Some (pre ++ line :: post) ->
  parse_ll_lines pre [] = Ok seen ->
  all_space line = true ->
  parse_ll_file fs ll_file = Err IndexError.
Proof.
  intros F P B. unfold parse_ll_file. rewrite F.
  apply (parse_ll_lines_raise _ _ _ _ _ _ P).
  unfold parse_ll_line. now rewrite (py_split_blank _ B).
Qed.

(** X19. A line whose first field is [Bit] and which has fewer than
    five fields makes [parse_ll_file] raise IndexError. *)
Theorem parse_ll_file_short_bit_line fs ll_file pre line post seen fields :
  fs ll_file = Some (pre ++ line :: post) ->
  parse_ll_lines pre [] = Ok seen ->
  py_split line = "Bit"%string :: fields ->
  (List.length fields < 4)%nat ->
  parse_ll_file fs ll_file = Err IndexError.
Proof.
  intros F P S L. unfold parse_ll_file. rewrite F.
  apply (parse_ll_lines_raise _ _ _ _ _ _ P).
  unfold parse_ll_line. rewrite S. cbn [nth_error].
  change (negb ("Bit" =? "Bit")%string) with false. cbv iota.
  destruct fields as [|f1 [|f2 [|f3 [|f4 fields]]]]; cbn [List.length] in L;
    try reflexivity. lia.
Qed.

(** X20. A line whose first field is not [Bit], and a [Bit] line whose
    fifth field does not contain [SLICE], add nothing: the file gives
    the addresses it gives without the line. *)
Theorem parse_ll_file_passes_over fs ll_file pre line post :
  fs ll_file = Some (pre ++ line :: post) ->
  (exists first fields, py_split line = first :: fields /\ first <> "Bit"%string) \/
  (exists t1 t2 t3 blk fields,
     py_split line = "Bit"%string :: t1 :: t2 :: t3 :: blk :: fields /\
     contains "SLICE" blk = false) ->
  parse_ll_file fs ll_file = parse_ll_lines (pre ++ post) [].
Proof.
  intros F H. unfold parse_ll_file. rewrite F.
  assert (E : parse_ll_line line = Ok None).
  { unfold parse_ll_line.
    destruct H as [(first & fields & S & N)|(t1 & t2 & t3 & blk & fields & S & C)];
      rewrite S; cbn [nth_error].
    - apply String.eqb_neq in N. now rewrite N.
    - change (negb ("Bit" =? "Bit")%string) with false. cbv iota.
      now rewrite C. }
  rewrite !parse_ll_lines_app.
  destruct (parse_ll_lines pre []) as [seen|e]; cbn [rbind parse_ll_lines];
    [|reflexivity].
  now rewrite E.
Qed.

(** X21. The line of a slice bit gives the address after the [x] of
    its third field and, from the offset [n] of its fourth field, the
    word offset [n // 32] written on three characters at least and the
    bit offset [n % 32] written on two; [int] reads both numbers
    back. *)
Theorem parse_ll_line_bit line t1 a h off blk rest n :
  py_split line = "Bit"%string :: t1 :: (a ++ String "x" h)%string :: off :: blk :: rest ->
  contains "SLICE" blk = true ->
  char_in "x" a = false -> char_in "x" h = false ->
  py_int off = Ok n -> 0 <= n ->
  exists w b,
    parse_ll_line line = Ok (Some [h; w; b]) /\
    py_int w = Ok (n / 32) /\ py_int b = Ok (n mod 32) /\
    (3 <= String.length w)%nat /\ String.length b = 2%nat.
Proof.
  intros S B Ha Hh I N.
  exists (rjust 3 "0" (py_str (Z.to_nat (n / 32)))),
         (rjust 2 "0" (py_str (Z.to_nat (n mod 32)))).
  pose proof (Z.mod_pos_bound n 32 ltac:(lia)) as M.
  assert (D : 0 <= n / 32) by (apply Z.div_pos; lia).
  split; [now apply (parse_ll_line_fields _ t1 a h off blk rest)|].
  rewrite !py_int_padded, !Z2Nat.id by lia.
  split; [reflexivity|]. split; [reflexivity|]. split.
  - rewrite rjust_length. lia.
  - apply bit_offset_text_length. lia.
Qed.

(** X22. The address read from the line of a slice bit at offset
    [32 * wo + bo] of its frame, [bo] below 32, is the one
    [parse_config_packet] prints for bit [bo] of word [wo] of that
    frame: joined by underscores after [bit_], the three fields are the
    name of the bit. *)
Theorem ll_address_names_bit line t1 a h off blk rest wo bo :
  py_split line = "Bit"%string :: t1 :: (a ++ String "x" h)%string :: off :: blk :: rest ->
  contains "SLICE" blk = true ->
  char_in "x" a = false -> char_in "x" h = false ->
  py_int off = Ok (32 * Z.of_nat wo + Z.of_nat bo) -> (bo < 32)%nat ->
  exists w b,
    parse_ll_line line = Ok (Some [h; w; b]) /\
    ("bit_" ++ h ++ "_" ++ w ++ "_" ++ b)%string = bit_name h wo bo.
Proof.
  intros S B Ha Hh I L.
  exists (rjust 3 "0" (py_str wo)), (rjust 2 "0" (py_str bo)).
  split; [|reflexivity].
  rewrite (parse_ll_line_fields _ t1 a h off blk rest _ S B Ha Hh I) by lia.
  replace ((32 * Z.of_nat wo + Z.of_nat bo) / 32) with (Z.of_nat wo)
    by (apply (Z.div_unique _ 32 _ (Z.of_nat bo)); lia).
  replace ((32 * Z.of_nat wo + Z.of_nat bo) mod 32) with (Z.of_nat bo)
    by (apply (Z.mod_unique _ 32 (Z.of_nat wo)); lia).
  now rewrite !Nat2Z.id.
Qed.

Lemma parse_ll_file_blank_line_sample :
  parse_ll_file (one_file [ll_line_comment; ll_line_slice; nl; ll_line_ram]) "design.ll"
  = Err IndexError.
Proof.
  apply (parse_ll_file_blank_line _ _ [ll_line_comment; ll_line_slice] nl [ll_line_ram]
           [["0040031f"; "100"; "07"]]%string).
  - reflexivity.
  - vm_compute. reflexivity.
  - reflexivity.
Defined.

Lemma parse_ll_file_short_bit_line_sample :
  parse_ll_file (one_file [ll_line_slice; ll_line_cut]) "design.ll" = Err IndexError.
Proof.
  apply (parse_ll_file_short_bit_line _ _ [ll_line_slice] ll_line_cut []
           [["0040031f"; "100"; "07"]]%string ["18759211"; "0x0040031f"]%string).
  - reflexivity.
  - vm_compute. reflexivity.
  - vm_compute. reflexivity.
  - cbn. lia.
Defined.

Lemma parse_ll_file_passes_over_ram :
  parse_ll_file (one_file [ll_line_slice; ll_line_ram; ll_line_slice]) "design.ll"
  = parse_ll_lines ([ll_line_slice] ++ [ll_line_slice]) [].
Proof.
  apply (parse_ll_file_passes_over _ _ [ll_line_slice] ll_line_ram [ll_line_slice]).
  - reflexivity.
  - right.
    exists "2048"%string, "0x00c00000"%string, "39"%string,
           "Block=RAMB36_X0Y0"%string, ["Ram=B:BIT0"%string].
    split; vm_compute; reflexivity.
Defined.

Lemma parse_ll_line_bit_sample :
  exists w b,
    parse_ll_line ll_line_slice = Ok (Some ["0040031f"%string; w; b]) /\
    py_int w = Ok (3207 / 32) /\ py_int b = Ok (3207 mod 32) /\
    (3 <= String.length w)%nat /\ String.length b = 2%nat.
Proof.
  apply (parse_ll_line_bit ll_line_slice "18759211" "0" "0040031f" "3207"
           "Block=SLICE_X0Y149" ["Latch=AQ"; "Net=q"]%string 3207).
  - vm_compute. reflexivity.
  - vm_compute. reflexivity.
  - reflexivity.
  - reflexivity.
  - vm_compute. reflexivity.
  - lia.
Defined.

Lemma ll_address_names_bit_sample :
  exists w b,
    parse_ll_line ll_line_slice = Ok (Some ["0040031f"%string; w; b]) /\
    ("bit_" ++ "0040031f" ++ "_" ++ w ++ "_" ++ b)%string
    = bit_name "0040031f" 100 7.
Proof.
  apply (ll_address_names_bit ll_line_slice "18759211" "0" "0040031f" "3207"
           "Block=SLICE_X0Y149" ["Latch=AQ"; "Net=q"]%string 100 7).
  - vm_compute. reflexivity.
  - vm_compute. reflexivity.
  - reflexivity.
  - reflexivity.
  - vm_compute. reflexivity.
  - lia.
Defined.

Lemma parse_ll_line_entry line b :
  parse_ll_line line = Ok (Some b) ->
  exists h w o, b = [h; w; o] /\
    (3 <= String.length w)%nat /\ (2 <= String.length o)%nat.
Proof.
  unfold parse_ll_line.
  destruct (nth_error (py_split line) 0) as [first|]; [|discriminate].
  destruct (negb (first =? "Bit")%string); [discriminate|].
  destruct (nth_error (py_split line) 4) as [blk|]; [|discriminate].
  destruct (negb (contains "SLICE" blk)); [discriminate|].
  destruct (nth_error (py_split line) 2) as [addr|]; [|discriminate].
  destruct (nth_error (py_split line) 3) as [off|]; [|discriminate].
  destruct (py_int off) as [n|e]; cbn [rbind]; [|discriminate].
  destruct (nth_error (split_on "x" addr) 1) as [h|]; [|discriminate].
  intros E. injection E as <-. do 3 eexists. split; [reflexivity|].
  rewrite !rjust_length. lia.
Qed.

Lemma parse_ll_lines_entries (Q : ll_bit -> Prop) lines :
  (forall line b, parse_ll_line line = Ok (Some b) -> Q b) ->
  forall ll_bits out,
  Forall Q ll_bits ->
  parse_ll_lines lines ll_bits = Ok out ->
  Forall Q out /\ (List.length out <= List.length ll_bits + List.length lines)%nat.
Proof.
  intros HQ. induction lines as [|line lines IH]; intros ll_bits out F E;
    cbn [parse_ll_lines List.length] in *.
  - injection E as <-. split; [exact F|lia].
  - destruct (parse_ll_line line) as [[b|]|e] eqn:P; cbn [rbind] in E;
      [| |discriminate].
    + apply IH in E.
      * destruct E as [E1 E2]. split; [exact E1|].
        rewrite length_app in E2. cbn [List.length] in E2. lia.
      * apply Forall_app. split; [exact F|]. constructor; [eauto|constructor].
    + apply IH in E; [|exact F]. destruct E as [E1 E2]. split; [exact E1|lia].
Qed.

(** X23. Every address [parse_ll_file] returns has three fields, the
    word offset on three characters at least and the bit offset on two
    at least, and there is at most one address for each line of the
    file. *)
Theorem parse_ll_file_entries fs ll_file ll_bits :
  parse_ll_file fs ll_file = Ok ll_bits ->
  exists lines,
    fs ll_file = Some lines /\
    (List.length ll_bits <= List.length lines)%nat /\
    Forall (fun b => exists h w o, b = [h; w; o] /\
              (3 <= String.length w)%nat /\ (2 <= String.length o)%nat) ll_bits.
Proof.
  unfold parse_ll_file. destruct (fs ll_file) as [lines|]; [|discriminate].
  intros E. exists lines. split; [reflexivity|].
  destruct (parse_ll_lines_entries _ lines parse_ll_line_entry [] ll_bits
              (Forall_nil _) E) as [E1 E2].
  cbn [List.length] in E2. split; [lia|exact E1].
Qed.

Lemma parse_ll_file_entries_sample :
  exists lines,
    one_file [ll_line_comment; ll_line_slice; ll_line_ram] "design.ll"%string
    = Some lines /\
    (List.length [["0040031f"; "100"; "07"]]%string <= List.length lines)%nat /\
    Forall (fun b => exists h w o, b = [h; w; o] /\
              (3 <= String.length w)%nat /\ (2 <= String.length o)%nat)
           [["0040031f"; "100"; "07"]]%string.
Proof.
  apply (parse_ll_file_entries
           (one_file [ll_line_comment; ll_line_slice; ll_line_ram]) "design.ll").
  vm_compute. reflexivity.
Defined.

(** X24. [main] fails exactly when reading the logic-location file
    fails, and with that error: drawing the sample adds no failure and
    always ends.  The file written is named after the input file; it
    holds as many addresses as asked for, all of them when more are
    asked for than the file gives, each one an address the file gives,
    wrapped in a list of its own. *)
Theorem ll_main_outcome fs draws ll_file num_bits :
  match parse_ll_file fs ll_file with
  | Err e => ll_main fs draws ll_file num_bits = Err e
  | Ok ll_bits =>
      exists fault_bits rest,
        ll_main fs draws ll_file num_bits
        = Ok (Done (fault_bits_path ll_file, fault_bits, rest)) /\
        Z.of_nat (List.length fault_bits)
        = Z.max 0 (Z.min num_bits (Z.of_nat (List.length ll_bits))) /\
        Forall (fun e => exists b, e = [b] /\ In b ll_bits) fault_bits
  end.
Proof.
  unfold ll_main. destruct (parse_ll_file fs ll_file) as [ll_bits|e];
    cbn [rbind]; [|reflexivity].
  unfold write_bit_list.
  set (n := if num_bits >? Z.of_nat (List.length ll_bits)
            then Z.of_nat (List.length ll_bits) else num_bits).
  assert (Hn : n = Z.min num_bits (Z.of_nat (List.length ll_bits))).
  { unfold n. destruct (Z.gtb_spec num_bits (Z.of_nat (List.length ll_bits))); lia. }
  destruct (sample_loop_spec draws (List.length ll_bits) 0 n ll_bits [])
    as (fb & lb & E & Ln & Pm & Sg).
  { cbn [List.length]. lia. }
  { cbn [List.length]. lia. }
  exists fb, lb. rewrite E. cbn [List.length List.concat app] in *.
  split; [reflexivity|]. split; [lia|].
  specialize (Sg (Forall_nil _)).
  apply Forall_forall. intros e He.
  rewrite Forall_forall in Sg. destruct (Sg e He) as [b ->].
  exists b. split; [reflexivity|].
  apply (Permutation_in _ Pm). apply in_or_app. left.
  apply in_concat. exists [b]. split; [exact He|now left].
Qed.

(** ** The whole of bitread *)

Lemma bit_name_length h wo bo :
  (wo < 101)%nat -> (bo < 32)%nat ->
  String.length (bit_name h wo bo) = (String.length h + 11)%nat.
Proof.
  intros W B. unfold bit_name.
  rewrite !string_length_append, (word_offset_text_length _ W),
    (bit_offset_text_length _ B).
  cbn [String.length]. lia.
Qed.

Lemma high_bits_of_word_names h wo word name :
  In name (high_bits_of_word h wo word) ->
  exists bo, name = bit_name h wo bo /\ (bo < 32)%nat /\
             in_clock_row_bits wo bo = false.
Proof.
  unfold high_bits_of_word. intros H. apply in_flat_map in H as (bo & Hb & H).
  apply in_seq in Hb. exists bo.
  change (in_clock_row_bits wo bo) with (reserved_clock_bit wo bo).
  destruct (nth bo word 0 =? 1); cbn [andb] in H; [|contradiction].
  destruct (reserved_clock_bit wo bo); cbn [negb] in H; [contradiction|].
  destruct H as [<-|[]]. repeat split. lia.
Qed.

Lemma expected_bits_names d p frames name :
  In name (expected_bits d p frames) ->
  exists fr wo bo,
    In fr frames /\ name = bit_name (fst fr) wo bo /\
    (wo < 101)%nat /\ (bo < 32)%nat /\ in_clock_row_bits wo bo = false.
Proof.
  unfold expected_bits. destruct frames as [|frame0 rest]; [contradiction|].
  intros H. apply in_flat_map in H as ([fr start] & Hc & H).
  apply in_combine_l in Hc. unfold high_bits_of_frame in H.
  apply in_flat_map in H as (wo & Hw & H). apply in_seq in Hw.
  apply high_bits_of_word_names in H as (bo & -> & B & R).
  exists fr, wo, bo. repeat split; auto. lia.
Qed.

(** X25. [get_high_bits] always comes to an end, and when it returns,
    the header has named a part, [get_frame_list] has given a frame list
    for that part, and every name returned is that of bit [bo] of word
    [wo] of a frame of that list: [bit_], the frame's address written
    as eight hexadecimal digits, a word offset below 101 and a bit
    offset below 32, never one of bits 0..12 of word 50; it has 19
    characters. *)
Theorem get_high_bits_names xray_dir fs bitstream r :
  get_high_bits xray_dir fs bitstream = Ok r ->
  exists part len bitfile frames bits,
    r = Done bits /\
    find_config_packet (mkfile bitstream 0) = Ok (Done (part, len), bitfile) /\
    get_frame_list xray_dir fs part = Ok frames /\
    Forall (fun name => exists fr wo bo,
              In fr frames /\
              fst fr = hex_fixed 8 (bits_to_int (snd fr)) /\
              name = bit_name (fst fr) wo bo /\
              (wo < 101)%nat /\ (bo < 32)%nat /\
              in_clock_row_bits wo bo = false /\
              String.length name = 19%nat) bits.
Proof.
  unfold get_high_bits.
  destruct (find_config_packet (mkfile bitstream 0)) as [[[[part len]|] bitfile]|e] eqn:F;
    [| |discriminate].
  2:{ exfalso. eapply find_config_packet_terminates, F. }
  unfold build_frames. destruct (contains "xc7" part); [|discriminate].
  destruct (get_frame_list xray_dir fs part) as [frames|e] eqn:G; cbn [rbind];
    [|discriminate].
  destruct (parse_config_packet len frames bitfile) as [[bits f']|e] eqn:P;
    [|discriminate].
  intros H. injection H as <-. exists part, len, bitfile, frames, bits.
  split; [reflexivity|]. split; [reflexivity|]. split; [exact G|].
  apply get_frame_list_wf in G as (_ & _ & Wf).
  apply parse_config_packet_inv in P as (frame0 & rest & st & E & _ & W & _ & <-).
  apply walk_frames_inv in W as (_ & _ & _ & _ & S).
  cbn [snd app] in S. rewrite S. subst frames.
  change (flat_map _ _)
    with (expected_bits (data bitfile) (pos bitfile) (frame0 :: rest)).
  apply Forall_forall. intros name Hn.
  apply expected_bits_names in Hn as (fr & wo & bo & Hf & -> & Hw & Hb & R).
  rewrite Forall_forall in Wf.
  destruct (frame_wf_hex fr (Wf fr Hf)) as [_ Hx].
  assert (L : String.length (fst fr) = 8%nat)
    by (rewrite Hx; apply hex_fixed_length).
  exists fr, wo, bo. repeat split; auto.
  rewrite bit_name_length, L by assumption. reflexivity.
Qed.

Lemma get_high_bits_names_sample :
  exists part len bitfile frames bits,
    Done ["bit_00c20000_003_07"%string] = Done bits /\
    find_config_packet (mkfile sample_design 0) = Ok (Done (part, len), bitfile) /\
    get_frame_list "db" (one_file descriptor_small) part = Ok frames /\
    Forall (fun name => exists fr wo bo,
              In fr frames /\
              fst fr = hex_fixed 8 (bits_to_int (snd fr)) /\
              name = bit_name (fst fr) wo bo /\
              (wo < 101)%nat /\ (bo < 32)%nat /\
              in_clock_row_bits wo bo = false /\
              String.length name = 19%nat) bits.
Proof.
  apply (get_high_bits_names "db" (one_file descriptor_small) sample_design).
  vm_compute. reflexivity.
Defined.

(** ** The two forms of a frame address *)

Lemma bits_value_inj l : forall l',
  Forall is_bit l -> Forall is_bit l' ->
  List.length l = List.length l' ->
  bits_value l = bits_value l' -> l = l'.
Proof.
  induction l as [|b l IH]; intros [|b' l'] F F' L E; cbn [List.length] in L;
    try discriminate; [reflexivity|].
  apply Forall_cons_iff in F as [Hb F]. apply Forall_cons_iff in F' as [Hb' F'].
  cbn [bits_value] in E.
  assert (b = b' /\ bits_value l = bits_value l') as [-> V]
    by (destruct Hb, Hb'; subst; lia).
  f_equal. apply IH; auto.
Qed.

Lemma frame_addr_hex_numeral addr :
  List.length addr = 32%nat -> Forall is_bit addr ->
  0 <= bits_value addr < 16 ^ 8 /\
  frame_addr_hex addr = hex_fixed 8 (bits_value addr).
Proof.
  intros L F. pose proof (bits_value_bound _ F) as B. rewrite L in B.
  change (2 ^ Z.of_nat 32) with (16 ^ 8) in B. split; [exact B|].
  unfold frame_addr_hex. rewrite bits_to_int_value. now apply py_hex_fixed.
Qed.

(** X26. The hexadecimal form [get_frame_list] stores beside an address
    of 32 bits has eight characters and identifies the address: two
    addresses with the same hexadecimal form are the same list of
    bits. *)
Theorem frame_addr_hex_injective a b :
  List.length a = 32%nat -> Forall is_bit a ->
  List.length b = 32%nat -> Forall is_bit b ->
  String.length (frame_addr_hex a) = 8%nat /\
  (frame_addr_hex a = frame_addr_hex b -> a = b).
Proof.
  intros La Fa Lb Fb.
  destruct (frame_addr_hex_numeral a La Fa) as [Ba Ha].
  destruct (frame_addr_hex_numeral b Lb Fb) as [Bb Hb].
  rewrite Ha, Hb. split; [apply hex_fixed_length|].
  intros E. apply bits_value_inj; auto; [congruence|].
  assert (C : String.compare (hex_fixed 8 (bits_value a)) (hex_fixed 8 (bits_value b))
              = Eq).
  { rewrite E.
    pose proof (String.compare_antisym (hex_fixed 8 (bits_value b))
                  (hex_fixed 8 (bits_value b))) as A.
    destruct (String.compare _ _); [reflexivity|discriminate|discriminate]. }
  rewrite hex_fixed_compare in C by lia.
  apply Z.compare_eq in C.
  change (16 ^ Z.of_nat 8) with (16 ^ 8) in C.
  now rewrite !Z.mod_small in C by assumption.
Qed.

Lemma frame_addr_hex_injective_sample :
  String.length (frame_addr_hex (snd sample_frame1)) = 8%nat /\
  (frame_addr_hex (snd sample_frame1) = frame_addr_hex (snd sample_frame0) ->
   snd sample_frame1 = snd sample_frame0).
Proof.
  apply (frame_addr_hex_injective (snd sample_frame1) (snd sample_frame0)).
  - reflexivity.
  - repeat (constructor; [(now left) || (now right)|]). constructor.
  - reflexivity.
  - repeat (constructor; [(now left) || (now right)|]). constructor.
Defined.
